(** * Locking and safe removal in libmamba's [core/util.cpp]

    A shallow embedding of the lock subsystem ([LockFileOwner],
    [LockedFilesRegistry], [timedout_set_fd_lock]) and of the trash subsystem
    ([remove_or_rename], [clean_trash_files]) of [libmamba/src/core/util.cpp],
    together with the properties its specification states about them.
    The utilities of the same file on strings, command lines and directories
    follow them, with properties that their code shows.

    The C++ code runs against the operating system; here the operating system
    is an explicit, executable state ([OS]): a file table keyed by normalised
    absolute paths, a clock in seconds, descriptors and advisory locks.  The
    functions of [util.cpp] are state-passing functions over [World], which
    adds the configuration singleton ([Context]), the heap of shared
    [LockFileOwner] objects and the registry. *)

From Stdlib Require Import ZArith Ascii String.
From stdpp Require Import base option list gmap strings pretty.

Local Open Scope string_scope.

(** ** Paths ([fs::u8path]) *)

Module Path.

(** Modelled from the spec: [fs::u8path] is declared in [mamba/core/mamba_fs.hpp],
    which is not among the sources; the specification takes path utilities
    as an external collaborator, and the code uses it as a
    [std::filesystem::path].  A path in generic format: whether it has a root
    directory, and its sequence of elements, which is what iterating a
    [std::filesystem::path] yields.  Two paths are equal when these are, as
    with [operator==]. *)
Record u8path := mk_path { is_absolute : bool; elems : list string }.

#[global] Instance u8path_eq_dec : EqDecision u8path.
Proof. solve_decision. Defined.

#[global] Instance u8path_countable : Countable u8path.
Proof.
  apply (inj_countable' (λ p, (is_absolute p, elems p))
                        (λ x, mk_path (fst x) (snd x))).
  by intros [].
Defined.

(** [std::string] joined with the preferred separator. *)
Fixpoint join_elems (l : list string) : string :=
  match l with
  | [] => ""
  | [x] => x
  | x :: r => x +:+ "/" +:+ join_elems r
  end.

(** [path.string()] *)
Definition to_string (p : u8path) : string :=
  (if is_absolute p then "/" else "") +:+ join_elems (elems p).

(** Splitting a string at every occurrence of a character; the result is
    never empty. *)
Fixpoint split_on (c : ascii) (s : string) : list string :=
  match s with
  | EmptyString => [""]
  | String a s' =>
      if decide (a = c) then "" :: split_on c s'
      else match split_on c s' with
           | x :: r => String a x :: r
           | [] => [String a ""]
           end
  end.

(** Construction of a path from a [std::string]: a leading separator is the
    root directory, runs of separators count once, a trailing separator
    leaves an empty last element. *)
Definition drop_empty_inner (l : list string) : list string :=
  match reverse l with
  | [] => []
  | last :: front => reverse (filter (λ x, x ≠ "") front) ++ [last]
  end.

Definition of_string (s : string) : u8path :=
  match s with
  | EmptyString => mk_path false []
  | String a s' =>
      if decide (a = "/"%char)
      then mk_path true
             (match drop_empty_inner (split_on "/" s') with
              | [""] => []
              | l => l
              end)
      else mk_path false (drop_empty_inner (split_on "/" s))
  end.

(** [path.filename()]: the last element, empty for a path without elements. *)
Definition filename (p : u8path) : string := List.last (elems p) "".

(** The suffix of [s] that starts at its rightmost period, if it has one. *)
Fixpoint rightmost_dot (s : string) : option string :=
  match s with
  | EmptyString => None
  | String c s' =>
      match rightmost_dot s' with
      | Some e => Some e
      | None => if decide (c = "."%char) then Some s else None
      end
  end.

(** [path.extension()] on the filename: nothing for dot and dot-dot, a
    period in first position does not start an extension. *)
Definition extension_of (fname : string) : string :=
  if decide (fname = "." ∨ fname = "..") then ""
  else match fname with
       | EmptyString => ""
       | String _ s' => default "" (rightmost_dot s')
       end.

Definition extension (p : u8path) : string := extension_of (filename p).

(** [path.stem()] on the filename *)
Definition stem_of (fname : string) : string :=
  substring 0 (String.length fname - String.length (extension_of fname)) fname.

Definition starts_with_dot (s : string) : bool :=
  match s with
  | String c _ => bool_decide (c = "."%char)
  | EmptyString => false
  end.

(** Replaces the last element (or adds one to a path that has none). *)
Definition set_filename (p : u8path) (f : string) : u8path :=
  mk_path (is_absolute p) (removelast (elems p) ++ [f]).

(** [path.replace_extension(replacement)]: the extension is removed, a period
    is added when the replacement is not empty and does not begin with one,
    and the replacement is appended. *)
Definition replace_extension (p : u8path) (replacement : string) : u8path :=
  let dot :=
    if bool_decide (replacement ≠ "") && negb (starts_with_dot replacement)
    then "." else "" in
  set_filename p (stem_of (filename p) +:+ dot +:+ replacement).

(** [operator/]: an absolute right operand replaces the left one; otherwise
    its elements are appended, after the empty element a trailing separator
    leaves. *)
Definition strip_trailing_empty (l : list string) : list string :=
  match reverse l with
  | "" :: front => reverse front
  | _ => l
  end.

Definition join (p q : u8path) : u8path :=
  if is_absolute q then q
  else mk_path (is_absolute p) (strip_trailing_empty (elems p) ++ elems q).

(** Lexical normalisation of the elements of an absolute path: empty elements
    and dot vanish, dot-dot removes the element before it and is itself
    dropped at the root. *)
Definition norm_step (stack : list string) (c : string) : list string :=
  if decide (c = "" ∨ c = ".") then stack
  else if decide (c = "..") then tail stack
  else c :: stack.

Definition normalise (l : list string) : list string :=
  reverse (foldl norm_step [] l).

(** Longest common prefix removed from both lists ([std::mismatch]). *)
Fixpoint mismatch (a b : list string) : list string * list string :=
  match a, b with
  | x :: a', y :: b' => if decide (x = y) then mismatch a' b' else (a, b)
  | _, _ => (a, b)
  end.

(** [path.lexically_relative(base)] for two paths with the same root. *)
Definition lexically_relative (p base : list string) : u8path :=
  let '(a, b) := mismatch p base in
  let plain := length (filter (λ x, x ≠ "" ∧ x ≠ "." ∧ x ≠ "..") b) in
  let dotdot := length (filter (λ x, x = "..") b) in
  match a, b with
  | [], [] => mk_path false ["."]
  | _, _ =>
      if bool_decide (plain < dotdot)%nat then mk_path false []
      else if bool_decide (plain = dotdot) && bool_decide (a = [] ∨ head a = Some "")
      then mk_path false ["."]
      else mk_path false (replicate (plain - dotdot) ".." ++ a)
  end.

End Path.
Export Path.


(** ** The operating system

    What the code observes of the machine it runs on.  Files are keyed by
    their normalised absolute path; a directory's entries are the keys it is
    a proper prefix of.  The table need not hold the directory of an entry it
    holds: the code renames a file within its directory and opens a lock file
    next to or inside the path it locks, where the directory is there since
    the path is; only the trash index is written in a directory of its own,
    and there the directory is looked up ([ofstream_open]).  A file can be
    held open by another program, which
    makes its removal fail, and pinned, which makes renaming it fail too;
    both last until a given second or forever, so that a retry after a sleep
    can succeed. *)

Inductive Platform := Posix | Win32.

Inductive Hold := Free | Until (t : nat) | Forever.

Definition held_at (now : nat) (h : Hold) : bool :=
  match h with
  | Free => false
  | Until t => bool_decide (now < t)%nat
  | Forever => true
  end.

Inductive NodeKind :=
  | Regular (content : string)
  | Directory
  | Symlink (target : list string).

Record Node := mk_node { kind : NodeKind; in_use : Hold; pinned : Hold }.

#[global] Instance Hold_eq_dec : EqDecision Hold.
Proof. solve_decision. Defined.
#[global] Instance NodeKind_eq_dec : EqDecision NodeKind.
Proof. solve_decision. Defined.
#[global] Instance Node_eq_dec : EqDecision Node.
Proof. solve_decision. Defined.

Abbreviation fkey := (list string).

Record OS := mk_os {
  platform : Platform;
  cwd : fkey;                        (* current directory, normalised *)
  clock : nat;                       (* seconds *)
  files : gmap fkey Node;
  slept : list nat;                  (* durations passed to sleep_for, oldest first *)
  fds : gmap Z fkey;                 (* open descriptors and the file each is on *)
  next_fd : Z;
  foreign_locks : gmap fkey Hold;    (* byte MAMBA_LOCK_POS locked by another process *)
  own_locks : gmap fkey Z            (* ... by this process, through which descriptor *)
}.

Definition set_files (f : gmap fkey Node) (o : OS) : OS :=
  mk_os (platform o) (cwd o) (clock o) f (slept o) (fds o) (next_fd o)
        (foreign_locks o) (own_locks o).

Definition set_clock (t : nat) (o : OS) : OS :=
  mk_os (platform o) (cwd o) t (files o) (slept o) (fds o) (next_fd o)
        (foreign_locks o) (own_locks o).

Definition set_fds (d : gmap Z fkey) (n : Z) (o : OS) : OS :=
  mk_os (platform o) (cwd o) (clock o) (files o) (slept o) d n
        (foreign_locks o) (own_locks o).

Definition set_own_locks (l : gmap fkey Z) (o : OS) : OS :=
  mk_os (platform o) (cwd o) (clock o) (files o) (slept o) (fds o) (next_fd o)
        (foreign_locks o) l.

(** [std::this_thread::sleep_for(std::chrono::seconds(n))] *)
Definition sleep_for (n : nat) (o : OS) : OS :=
  mk_os (platform o) (cwd o) (clock o + n) (files o) (slept o ++ [n]) (fds o)
        (next_fd o) (foreign_locks o) (own_locks o).

(** [fs::absolute] *)
Definition absolute (o : OS) (p : u8path) : u8path :=
  if is_absolute p then p else mk_path true (cwd o ++ elems p).

(** The key of the file a path names. *)
Definition key_of (o : OS) (p : u8path) : fkey := normalise (elems (absolute o p)).

(** The path of a key. *)
Definition path_of_key (k : fkey) : u8path := mk_path true k.

(** *** Status queries *)

Inductive file_type :=
  | ft_none | ft_not_found | ft_regular | ft_directory | ft_symlink | ft_unknown.

#[global] Instance file_type_eq_dec : EqDecision file_type.
Proof. solve_decision. Defined.

Definition type_of_kind (k : NodeKind) : file_type :=
  match k with
  | Regular _ => ft_regular
  | Directory => ft_directory
  | Symlink _ => ft_symlink
  end.

(** [fs::symlink_status(path).type()] *)
Definition symlink_status (o : OS) (p : u8path) : file_type :=
  match files o !! key_of o p with
  | None => ft_not_found
  | Some n => type_of_kind (kind n)
  end.

(** Following symbolic links from a key, at most [fuel] of them, as the
    kernel does with its own bound. *)
Fixpoint resolve (fuel : nat) (m : gmap fkey Node) (k : fkey) : fkey :=
  match fuel with
  | O => k
  | S fuel' =>
      match m !! k with
      | Some (mk_node (Symlink t) _ _) => resolve fuel' m t
      | _ => k
      end
  end.

Definition SYMLOOP_MAX : nat := 40.

Definition final_key (o : OS) (p : u8path) : fkey :=
  resolve SYMLOOP_MAX (files o) (key_of o p).

(** [fs::status(path).type()]: symbolic links are followed; a link that leads
    nowhere is not found. *)
Definition status (o : OS) (p : u8path) : file_type :=
  match files o !! final_key o p with
  | Some (mk_node (Regular _) _ _) => ft_regular
  | Some (mk_node Directory _ _) => ft_directory
  | _ => ft_not_found
  end.

(** [fs::exists] *)
Definition fs_exists (o : OS) (p : u8path) : bool :=
  bool_decide (status o p ≠ ft_none ∧ status o p ≠ ft_not_found).

(** [fs::is_directory] *)
Definition fs_is_directory (o : OS) (p : u8path) : bool :=
  bool_decide (status o p = ft_directory).

(** *** Removal and renaming *)

Inductive errc := EBUSY | ENOTEMPTY | ENOENT | EINVAL.

(** [std::error_code]: [None] when no error is set. *)
Abbreviation error_code := (option errc).

Definition is_under (d k : fkey) : Prop := d `prefix_of` k ∧ d ≠ k.

#[global] Instance is_under_dec d k : Decision (is_under d k).
Proof. unfold is_under. apply _. Defined.

(** The entries below a directory, however deep. *)
Definition descendants (m : gmap fkey Node) (d : fkey) : gmap fkey Node :=
  filter (λ kv, is_under d kv.1) m.

Definition blocked (now : nat) (n : Node) : bool := held_at now (in_use n).

(** [fs::remove(path, ec)]: removes a file, a link or an empty directory;
    [false] without error for a path that is not there. *)
Definition fs_remove (o : OS) (p : u8path) : bool * error_code * OS :=
  let k := key_of o p in
  match files o !! k with
  | None => (false, None, o)
  | Some n =>
      if blocked (clock o) n then (false, Some EBUSY, o)
      else if bool_decide (kind n = Directory ∧ descendants (files o) k ≠ ∅)
      then (false, Some ENOTEMPTY, o)
      else (true, None, set_files (delete k (files o)) o)
  end.

(** [static_cast<std::uintmax_t>(-1)], the count [remove_all] reports on error. *)
Definition uintmax_minus_one : N := (2 ^ 64 - 1)%N.

(** [fs::remove_all(path, ec)]: removes the path and everything below it and
    returns how many entries that was.  When something in the tree is held
    open the call fails; how much of the tree the real call has removed by
    then depends on the order of the directory, and the model leaves the
    tree as it was. *)
Definition fs_remove_all (o : OS) (p : u8path) : N * error_code * OS :=
  let k := key_of o p in
  match files o !! k with
  | None => (0%N, None, o)
  | Some n =>
      let below := descendants (files o) k in
      if blocked (clock o) n
         || bool_decide (map_Exists (λ _ n', blocked (clock o) n' = true) below)
      then (uintmax_minus_one, Some EBUSY, o)
      else (N.of_nat (S (size below)), None,
            set_files (filter (λ kv, ¬ k `prefix_of` kv.1) (files o)) o)
  end.

(** The key an entry at or below [old] gets when [old] becomes [new]. *)
Definition rekey (old new : fkey) (k : fkey) : fkey := new ++ drop (length old) k.

(** The file table after the tree at [old] has moved to [new], replacing what
    was there. *)
Definition move_tree (old new : fkey) (m : gmap fkey Node) : gmap fkey Node :=
  list_to_map (prod_map (rekey old new) id
                 <$> map_to_list (filter (λ kv, old `prefix_of` kv.1) m))
  ∪ filter (λ kv, ¬ old `prefix_of` kv.1) (delete new m).

(** [fs::rename(from, to, ec)] *)
Definition fs_rename (o : OS) (from to : u8path) : error_code * OS :=
  let old := key_of o from in
  let new := key_of o to in
  match files o !! old with
  | None => (Some ENOENT, o)
  | Some n =>
      if decide (old = new) then (None, o)
      else if bool_decide (old `prefix_of` new ∨ new `prefix_of` old) then (Some EINVAL, o)
      else if held_at (clock o) (pinned n) then (Some EBUSY, o)
      else if bool_decide (descendants (files o) new ≠ ∅) then (Some ENOTEMPTY, o)
      else (None, set_files (move_tree old new (files o)) o)
  end.

(** *** Text files *)

Definition LF : string := String "010" EmptyString.

Inductive openmode := ios_app | ios_trunc.

(** The directory an entry is in. *)
Definition directory_of (k : fkey) : u8path := path_of_key (removelast k).

(** Whether a file can be created at [k], where there is none: its
    directory has to be there, and the root directory always is. *)
Definition can_create (o : OS) (k : fkey) : bool :=
  bool_decide (k ≠ [])
  && (bool_decide (removelast k = []) || fs_is_directory o (directory_of k)).

(** Opening a [std::ofstream] on [p]: the file is created when it is not
    there and its directory is, and emptied with [std::ios::trunc].  The
    stream is the key of the file it writes to, or nothing when it could not
    be opened (the path is a directory, or the file is to be created in a
    directory that does not exist), in which case what is written to it is
    lost. *)
Definition ofstream_open (p : u8path) (mode : openmode) (o : OS) : option fkey * OS :=
  let k := final_key o p in
  match files o !! k with
  | None =>
      if can_create o k
      then (Some k, set_files (<[k := mk_node (Regular "") Free Free]> (files o)) o)
      else (None, o)
  | Some (mk_node (Regular c) u r) =>
      (Some k,
       match mode with
       | ios_app => o
       | ios_trunc => set_files (<[k := mk_node (Regular "") u r]> (files o)) o
       end)
  | Some _ => (None, o)
  end.

(** [stream << text] *)
Definition ofstream_put (stream : option fkey) (text : string) (o : OS) : OS :=
  match stream with
  | None => o
  | Some k =>
      match files o !! k with
      | Some (mk_node (Regular c) u r) =>
          set_files (<[k := mk_node (Regular (c +:+ text)) u r]> (files o)) o
      | _ => o
      end
  end.

(** [fs::weakly_canonical(p)]: the path made absolute and normalised, with
    links followed when the path exists; a link that leads nowhere does not
    exist, and is not followed. *)
Definition weakly_canonical (o : OS) (p : u8path) : fkey :=
  if fs_exists o p then final_key o p else key_of o p.

(** [fs::relative(p, base)]: both paths are made weakly canonical, then
    compared element by element. *)
Definition fs_relative (o : OS) (p base : u8path) : u8path :=
  lexically_relative (weakly_canonical o p) (weakly_canonical o base).

(** ** The process

    [Context::instance()], the shared [LockFileOwner] objects with their
    owner counts, and the registry [files_locked_by_this_process]. *)

(** Modelled from the spec: [Context] is declared in [mamba/core/context.hpp],
    which is not among the sources.  The specification names the
    configuration it provides (whether locking is enabled, the default lock
    timeout); the code reads [use_lockfiles], [lock_timeout] and
    [target_prefix]. *)
Record Context := mk_context {
  use_lockfiles : bool;
  target_prefix : u8path;
  lock_timeout : Z
}.

(** The members of [class LockFileOwner]. *)
Record LockFileOwner := mk_owner {
  m_path : u8path;
  m_lockfile_path : u8path;
  m_timeout : Z;                     (* std::chrono::seconds *)
  m_fd : Z;
  m_locked : bool;
  m_lockfile_existed : bool
}.

(** The members of [class LockedFilesRegistry].  A [std::weak_ptr] is the
    address of the object it tracks. *)
Record Registry := mk_registry {
  locked_files : gmap u8path nat;
  fd_to_locked_path : gmap Z u8path
}.

Record World := mk_world {
  ctx : Context;
  os : OS;
  heap : gmap nat (LockFileOwner * nat);   (* object and number of shared owners *)
  next_addr : nat;
  registry : Registry
}.

Definition set_os (o : OS) (w : World) : World :=
  mk_world (ctx w) o (heap w) (next_addr w) (registry w).

Definition set_ctx (c : Context) (w : World) : World :=
  mk_world c (os w) (heap w) (next_addr w) (registry w).

Definition set_heap (h : gmap nat (LockFileOwner * nat)) (w : World) : World :=
  mk_world (ctx w) (os w) h (next_addr w) (registry w).

Definition set_registry (r : Registry) (w : World) : World :=
  mk_world (ctx w) (os w) (heap w) (next_addr w) r.

(** ** Outcomes of a call

    A call returns a value, throws, or never returns (a blocking system call
    on a lock that is never released). *)

(** Modelled from the spec: [mamba_error] and [mamba_error_code] are declared
    in [mamba/core/error_handling.hpp], which is not among the sources; the
    lock subsystem throws the one code [lockfile_failure], the lock
    acquisition failure of the specification. *)
Inductive mamba_error_code := lockfile_failure.

Inductive exn :=
  | runtime_error (what : string)
  | system_error (what : string)
  | filesystem_error (what : string)
  | mamba_error (what : string) (code : mamba_error_code).

Inductive Outcome (A : Type) :=
  | Done (a : A) (w : World)
  | Raised (e : exn) (w : World)
  | Hangs.
Arguments Done {A} a w.
Arguments Raised {A} e w.
Arguments Hangs {A}.

Definition M (A : Type) : Type := World → Outcome A.

#[global] Instance M_ret : MRet M := λ A a w, Done a w.

#[global] Instance M_bind : MBind M := λ A B f m w,
  match m w with
  | Done a w' => f a w'
  | Raised e w' => Raised e w'
  | Hangs => Hangs
  end.

Definition throw {A} (e : exn) : M A := λ w, Raised e w.
Definition hang {A} : M A := λ _, Hangs.
Definition get_os : M OS := λ w, Done (os w) w.
Definition put_os (o : OS) : M () := λ w, Done () (set_os o w).
Definition get_ctx : M Context := λ w, Done (ctx w) w.
Definition get_world : M World := λ w, Done w w.
Definition put_world (w : World) : M () := λ _, Done () w.

(** [std::ofstream open_ofstream(const fs::u8path& path, std::ios::openmode mode)]:
    a stream that is not [good()] is reported in the log and returned all the
    same. *)
Definition open_ofstream (path : u8path) (mode : openmode) : M (option fkey) :=
  o ← get_os;
  let '(outfile, o') := ofstream_open path mode o in
  put_os o';; mret outfile.

(** ** The trash subsystem *)

(** [bool lexists(const fs::u8path& path, std::error_code& ec)] and the
    overload without [ec]. *)
Definition lexists (o : OS) (path : u8path) : bool :=
  let status := symlink_status o path in
  bool_decide (status ≠ ft_not_found) || bool_decide (status = ft_symlink).

(** [std::getline] until the stream is exhausted: the text up to each line
    feed; what follows the last line feed is a line only when it is not
    empty. *)
Definition getlines (content : string) : list string :=
  match reverse (split_on "010" content) with
  | EmptyString :: front => reverse front
  | _ => split_on "010" content
  end.

(** [line.pop_back()] when [line.back() == '\r'] *)
Definition drop_trailing_cr (line : string) : string :=
  match String.rev line with
  | String "013" r => String.rev r
  | _ => line
  end.

(** [std::vector<std::string> read_lines(const fs::u8path& file_path)]: a
    stream opened on a directory yields no line. *)
Definition read_lines (file_path : u8path) : M (list string) :=
  o ← get_os;
  match files o !! final_key o file_path with
  | None => throw (system_error ("failed to open " +:+ to_string file_path))
  | Some (mk_node (Regular content) _ _) => mret (drop_trailing_cr <$> getlines content)
  | Some _ => mret []
  end.

Definition trash_txt_of (prefix : u8path) : u8path :=
  join (join prefix (of_string "conda-meta")) (of_string "mamba_trash.txt").

(** The first loop of [clean_trash_files]: the files the index lists. *)
Fixpoint clean_listed (prefix : u8path) (all_files : list string)
    (deleted_files remainig_trash : N) (remaining_files : list u8path) (o : OS)
    : N * N * list u8path * OS :=
  match all_files with
  | [] => (deleted_files, remainig_trash, remaining_files, o)
  | f :: rest =>
      let full_path := join prefix (of_string f) in
      if negb (fs_exists o full_path)
      then clean_listed prefix rest (deleted_files + 1) remainig_trash remaining_files o
      else
        let '(removed, ec, o') := fs_remove o full_path in
        if removed
        then clean_listed prefix rest (deleted_files + 1) remainig_trash remaining_files o'
        else clean_listed prefix rest deleted_files (remainig_trash + 1)
               (remaining_files ++ [of_string f]) o'
  end.

(** The second loop of the deep mode: the files found by the scan. *)
Fixpoint clean_found (prefix : u8path) (f_to_rm : list u8path)
    (deleted_files remainig_trash : N) (remaining_files : list u8path) (o : OS)
    : N * N * list u8path * OS :=
  match f_to_rm with
  | [] => (deleted_files, remainig_trash, remaining_files, o)
  | p :: rest =>
      let '(removed, ec, o') := fs_remove o p in
      if removed
      then clean_found prefix rest (deleted_files + 1) remainig_trash remaining_files o'
      else clean_found prefix rest deleted_files (remainig_trash + 1)
             (remaining_files ++ [fs_relative o' p prefix]) o'
  end.

(** [fs::recursive_directory_iterator(prefix)]: every entry below the prefix,
    which has to be a directory. *)
Definition recursive_directory (prefix : u8path) : M (list u8path) :=
  o ← get_os;
  if fs_is_directory o prefix
  then mret (path_of_key <$> (map_to_list (descendants (files o) (final_key o prefix))).*1)
  else throw (filesystem_error
                ("recursive directory iterator cannot open directory: "
                 +:+ to_string prefix)).

(** [std::size_t clean_trash_files(const fs::u8path& prefix, bool deep_clean)] *)
Definition clean_trash_files (prefix : u8path) (deep_clean : bool) : M N :=
  let trash_txt := trash_txt_of prefix in
  o ← get_os;
  '(deleted_files, remainig_trash, remaining_files) ←
    (if negb deep_clean && fs_exists o trash_txt
     then all_files ← read_lines trash_txt;
          let '(d, r, fs, o') := clean_listed prefix all_files 0 0 [] o in
          put_os o';; mret (d, r, fs)
     else mret (0%N, 0%N, []));
  '(deleted_files, remainig_trash, remaining_files) ←
    (if deep_clean
     then entries ← recursive_directory prefix;
          o ← get_os;
          let f_to_rm := filter (λ p, extension p = ".mamba_trash") entries in
          let '(d, r, fs, o') :=
            clean_found prefix f_to_rm deleted_files remainig_trash remaining_files o in
          put_os o';; mret (d, r, fs)
     else mret (deleted_files, remainig_trash, remaining_files));
  o ← get_os;
  (if bool_decide (remaining_files = [])
   then put_os (fs_remove o trash_txt).2
   else trash_out_file ← open_ofstream trash_txt ios_trunc;
        o ← get_os;
        put_os (foldl (λ o rf, ofstream_put trash_out_file (to_string rf +:+ LF) o)
                      o remaining_files));;
  mret deleted_files.

(** The inner loop of [remove_or_rename]: while the candidate name is taken,
    the next one carries the counter.  [fuel] bounds the iterations; 101 are
    never all used, see [next_trash_file_fuel]. *)
Fixpoint next_trash_file (fuel : nat) (path trash_file : u8path) (fcounter : nat)
    : M u8path :=
  o ← get_os;
  if lexists o trash_file then
    match fuel with
    | O => hang
    | S fuel' =>
        let trash_file :=
          replace_extension path
            (extension path +:+ pretty fcounter +:+ ".mamba_trash") in
        let fcounter := (fcounter + 1)%nat in
        if bool_decide (100 < fcounter)%nat
        then throw (runtime_error "Too many existing trash files. Please force clean")
        else next_trash_file fuel' path trash_file fcounter
    end
  else mret trash_file.

(** The name [remove_or_rename] renames [path] to. *)
Definition trash_file_for (path : u8path) : M u8path :=
  next_trash_file 101 path
    (replace_extension path (extension path +:+ ".mamba_trash")) 0.

(** The body of [while (ec)] in [remove_or_rename], entered with [ec] set.
    [fuel] bounds the iterations; the counter stops the loop after four. *)
Fixpoint rename_to_trash (fuel : nat) (path : u8path) (counter : Z) : M N :=
  match fuel with
  | O => hang
  | S fuel' =>
      trash_file ← trash_file_for path;
      o ← get_os;
      let '(ec, o') := fs_rename o path trash_file in
      put_os o';;
      match ec with
      | None =>
          c ← get_ctx;
          trash_index ←
            open_ofstream
              (join (join (target_prefix c) (of_string "conda-meta"))
                    (of_string "mamba_trash.txt")) ios_app;
          o ← get_os;
          put_os (ofstream_put trash_index
                    (to_string (fs_relative o trash_file (target_prefix c)) +:+ LF) o);;
          mret 1%N
      | Some _ =>
          let counter := (counter + 1)%Z in
          if bool_decide (3 < counter)%Z
          then throw (runtime_error ("Could not delete file " +:+ to_string path))
          else o ← get_os;
               put_os (sleep_for (Z.to_nat (counter * 2)) o);;
               rename_to_trash fuel' path counter
      end
  end.

(** [fs::remove_all] or [fs::remove], as [remove_or_rename] picks them. *)
Definition remove_directly (o : OS) (path : u8path) : N * error_code * OS :=
  if fs_is_directory o path then fs_remove_all o path
  else let '(removed, ec, o') := fs_remove o path in
       ((if removed : bool then 1 else 0)%N, ec, o').

(** [std::size_t remove_or_rename(const fs::u8path& path)] *)
Definition remove_or_rename (path : u8path) : M N :=
  o ← get_os;
  if negb (lexists o path) then mret 0%N
  else
    let '(result, ec, o') := remove_directly o path in
    put_os o';;
    match ec with
    | Some _ => rename_to_trash 4 path 0
    | None => mret result
    end.

(** ** The lock subsystem *)

(** *** System calls on descriptors and locks *)

(** [open(path, O_RDWR | O_CREAT, 0666)] and [_wopen]: a new descriptor on the
    file, which is created when it is not there; -1 for a directory. *)
Definition sys_open (p : u8path) : M Z :=
  o ← get_os;
  let k := final_key o p in
  let fd := next_fd o in
  match files o !! k with
  | Some (mk_node Directory _ _) | Some (mk_node (Symlink _) _ _) => mret (-1)%Z
  | Some (mk_node (Regular _) _ _) =>
      put_os (set_fds (<[fd := k]> (fds o)) (fd + 1) o);; mret fd
  | None =>
      put_os (set_fds (<[fd := k]> (fds o)) (fd + 1)
                (set_files (<[k := mk_node (Regular "") Free Free]> (files o)) o));;
      mret fd
  end.

(** [close(fd)].  On POSIX systems closing any descriptor of a file drops the
    locks the process holds on it; on Windows a lock goes with the descriptor
    it was taken through. *)
Definition sys_close (fd : Z) : M Z :=
  o ← get_os;
  match fds o !! fd with
  | None => mret (-1)%Z
  | Some k =>
      let locks :=
        match platform o with
        | Posix => delete k (own_locks o)
        | Win32 => if decide (own_locks o !! k = Some fd)
                   then delete k (own_locks o) else own_locks o
        end in
      put_os (set_own_locks locks (set_fds (delete fd (fds o)) (next_fd o) o));;
      mret 0%Z
  end.

Definition foreign_hold (o : OS) (k : fkey) : Hold := default Free (foreign_locks o !! k).

Definition take_lock (fd : Z) (k : fkey) : M Z :=
  o ← get_os;
  put_os (set_own_locks (<[k := fd]> (own_locks o)) o);; mret 0%Z.

(** [fcntl(fd, F_SETLK, &lock)]: fails at once when another process holds the
    lock. *)
Definition fcntl_setlk (fd : Z) : M Z :=
  o ← get_os;
  match fds o !! fd with
  | None => mret (-1)%Z
  | Some k =>
      if held_at (clock o) (foreign_hold o k) then mret (-1)%Z
      else take_lock fd k
  end.

(** [fcntl(fd, F_SETLKW, &lock)]: waits until the other process has released
    the lock, however long that takes. *)
Definition fcntl_setlkw (fd : Z) : M Z :=
  o ← get_os;
  match fds o !! fd with
  | None => mret (-1)%Z
  | Some k =>
      match foreign_hold o k with
      | Free => take_lock fd k
      | Until t => put_os (set_clock (clock o `max` t) o);; take_lock fd k
      | Forever => hang
      end
  end.

(** [_locking(fd, LK_NBLCK, 1)]: fails when the byte is locked, by whomever. *)
Definition locking_nblck (fd : Z) : M Z :=
  o ← get_os;
  match fds o !! fd with
  | None => mret (-1)%Z
  | Some k =>
      if held_at (clock o) (foreign_hold o k) || bool_decide (is_Some (own_locks o !! k))
      then mret (-1)%Z
      else take_lock fd k
  end.

(** [_locking(fd, LK_UNLCK, 1)] *)
Definition locking_unlck (fd : Z) : M Z :=
  o ← get_os;
  match fds o !! fd with
  | None => mret (-1)%Z
  | Some k =>
      if decide (own_locks o !! k = Some fd)
      then put_os (set_own_locks (delete k (own_locks o)) o);; mret 0%Z
      else mret (-1)%Z
  end.

(** *** [int timedout_set_fd_lock(int fd, struct flock& lock, const std::chrono::seconds timeout)]

    A worker thread issues the blocking [F_SETLKW] and notifies; the caller
    waits for the notification for [timeout] seconds and cancels the worker
    when none came.  The thread and signal helpers it uses ([thread],
    [set_signal_handler], [kill_receiver_thread], [MainExecutor]) are
    declared outside this file, and no signal is delivered here.  The outcome
    is that of a race between the release of the lock and the deadline: the
    lock is obtained when it is released strictly before the deadline. *)
Definition timedout_set_fd_lock (fd : Z) (timeout : Z) : M Z :=
  o ← get_os;
  let timed_out : M Z :=
    put_os (set_clock (clock o + Z.to_nat timeout) o);; mret (-1)%Z in
  match fds o !! fd with
  | None => mret (-1)%Z
  | Some k =>
      match foreign_hold o k with
      | Free =>
          if bool_decide (0 < timeout)%Z then take_lock fd k else timed_out
      | Until t =>
          if bool_decide (Z.of_nat (t - clock o) < timeout)%Z
          then put_os (set_clock (clock o `max` t) o);; take_lock fd k
          else timed_out
      | Forever => timed_out
      end
  end.

(** The polling loop of the Windows branch of [set_fd_lock]: one attempt per
    second until [timeout] seconds have passed since [begin_time].  [fuel]
    bounds the iterations; [S (Z.to_nat timeout)] are never all used. *)
Fixpoint win32_poll_lock (fuel : nat) (fd : Z) (begin_time : nat) (timeout ret : Z) : M Z :=
  o ← get_os;
  if bool_decide (Z.of_nat (clock o - begin_time) < timeout)%Z then
    match fuel with
    | O => hang
    | S fuel' =>
        ret ← locking_nblck fd;
        if bool_decide (ret = 0)%Z then mret ret
        else o ← get_os;
             put_os (sleep_for 1 o);;
             win32_poll_lock fuel' fd begin_time timeout ret
    end
  else mret ret.

Definition default_timeout : Z := 30.

(** [bool LockFileOwner::set_fd_lock(bool blocking) const] *)
Definition set_fd_lock (self : LockFileOwner) (blocking : bool) : M bool :=
  o ← get_os;
  ret ←
    match platform o with
    | Win32 =>
        if blocking then
          let timeout :=
            if bool_decide (0 < m_timeout self)%Z then m_timeout self else default_timeout in
          let begin_time := clock o in
          win32_poll_lock (S (Z.to_nat timeout)) (m_fd self) begin_time timeout 0
        else locking_nblck (m_fd self)
    | Posix =>
        if blocking then
          if bool_decide (m_timeout self ≠ 0)%Z
          then timedout_set_fd_lock (m_fd self) (m_timeout self)
          else fcntl_setlkw (m_fd self)
        else fcntl_setlk (m_fd self)
    end;
  mret (bool_decide (ret = 0)%Z).

(** [bool LockFileOwner::lock(bool blocking) const] *)
Definition lock (self : LockFileOwner) (blocking : bool) : M bool :=
  ok ← set_fd_lock self blocking;
  if negb ok then mret false else mret true.

(** [bool LockFileOwner::lock_blocking()] *)
Definition lock_blocking (self : LockFileOwner) : M bool := lock self true.

(** *** [class LockedFilesRegistry] *)

(** [std::weak_ptr::expired()] *)
Definition expired (w : World) (tracker : nat) : bool :=
  bool_decide (heap w !! tracker = None).

(** [bool is_locked(const fs::u8path& file_path) const]: the absolute path is
    computed, and the table is searched with [file_path]. *)
Definition is_locked (file_path : u8path) : M bool :=
  w ← get_world;
  let absolute_file_path := absolute (os w) file_path in
  match locked_files (registry w) !! file_path with
  | Some tracker => mret (negb (expired w tracker))
  | None => mret false
  end.

(** [bool is_locked(int fd) const] *)
Definition is_locked_fd (fd : Z) : M bool :=
  w ← get_world;
  match fd_to_locked_path (registry w) !! fd with
  | Some path => is_locked path
  | None => mret false
  end.

(** [bool LockFileOwner::lock_non_blocking()] *)
Definition lock_non_blocking (self : LockFileOwner) : M bool :=
  duplicate ← is_locked (m_lockfile_path self);
  if duplicate : bool then mret true else lock self false.

(** *** [class LockFileOwner] *)

Definition with_fd (self : LockFileOwner) (fd : Z) : LockFileOwner :=
  mk_owner (m_path self) (m_lockfile_path self) (m_timeout self) fd
           (m_locked self) (m_lockfile_existed self).

Definition with_locked (self : LockFileOwner) (locked : bool) : LockFileOwner :=
  mk_owner (m_path self) (m_lockfile_path self) (m_timeout self) (m_fd self)
           locked (m_lockfile_existed self).

(** [int LockFileOwner::close_fd()] *)
Definition close_fd (self : LockFileOwner) : M (Z * LockFileOwner) :=
  if bool_decide (-1 < m_fd self)%Z
  then ret ← sys_close (m_fd self); mret (ret, with_fd self (-1))
  else mret (0%Z, self).

(** [void LockFileOwner::remove_lockfile() noexcept] *)
Definition remove_lockfile (self : LockFileOwner) : M LockFileOwner :=
  '(_, self) ← close_fd self;
  (if negb (m_lockfile_existed self)
   then o ← get_os; put_os (fs_remove o (m_lockfile_path self)).2
   else mret ());;
  mret self.

(** [bool LockFileOwner::unlock()] *)
Definition unlock (self : LockFileOwner) : M (bool * LockFileOwner) :=
  o ← get_os;
  ret ← match platform o with
        | Win32 => locking_unlck (m_fd self)
        | Posix => mret 0%Z
        end;
  self ← remove_lockfile self;
  mret (bool_decide (ret = 0)%Z, self).

(** [throw_lock_error]: the task runs first, an exception it throws is only
    reported, and the lock error is thrown. *)
Definition throw_lock_error {A B} (error_message : string) (before_throw_task : M B) : M A :=
  λ w,
    let thrown := mamba_error ("LockFile acquisition failed, aborting: " +:+ error_message)
                              lockfile_failure in
    match before_throw_task w with
    | Done _ w' | Raised _ w' => Raised thrown w'
    | Hangs => Hangs
    end.

(** [LockFileOwner::LockFileOwner(const fs::u8path& path, const std::chrono::seconds timeout)] *)
Definition LockFileOwner_ctor (path : u8path) (timeout : Z) : M LockFileOwner :=
  o ← get_os;
  if negb (fs_exists o path)
  then throw_lock_error
         ("Could not lock non-existing path '" +:+ to_string path +:+ "'") (mret ())
  else
    let lockfile_path :=
      if fs_is_directory o path
      then join path (of_string (filename path +:+ ".lock"))
      else of_string (to_string path +:+ ".lock") in
    let lockfile_existed := fs_exists o lockfile_path in
    fd ← sys_open lockfile_path;
    let self := mk_owner path lockfile_path timeout fd false lockfile_existed in
    if bool_decide (fd ≤ 0)%Z
    then throw_lock_error
           ("Could not open lockfile '" +:+ to_string lockfile_path +:+ "'") (unlock self)
    else
      locked ← lock_non_blocking self;
      locked ← (if locked : bool then mret true else lock_blocking self);
      let self := with_locked self locked in
      if locked : bool then mret self
      else throw_lock_error
             ("LockFile can't be set at '" +:+ to_string path +:+ "'" +:+ LF +:+
              "This could be fixed by changing the locks' timeout or " +:+
              "cleaning your environment from previous runs") (unlock self).

(** [LockFileOwner::~LockFileOwner()] *)
Definition LockFileOwner_dtor (self : LockFileOwner) : M () :=
  unlock self;; mret ().

(** *** Shared ownership *)

(** [tl::expected<T, mamba_error>] *)
Inductive expected (T : Type) := Value (v : T) | Unexpected (e : exn).
Arguments Value {T} v.
Arguments Unexpected {T} e.

(** Modelled from the spec: [safe_invoke] is declared in
    [mamba/core/invoke.hpp], which is not among the sources.  It gives
    [acquire_lock] its [tl::expected] result; by the contract of the
    registry a construction failure propagates as an error: what the call
    throws becomes the error of the result. *)
Definition safe_invoke {A} (f : M A) : M (expected A) :=
  λ w, match f w with
       | Done a w' => Done (Value a) w'
       | Raised e w' => Done (Unexpected e) w'
       | Hangs => Hangs
       end.

(** [std::make_shared<LockFileOwner>(...)], once the object is constructed:
    a new address, one owner. *)
Definition make_shared (obj : LockFileOwner) : M nat :=
  w ← get_world;
  let a := next_addr w in
  put_world (mk_world (ctx w) (os w) (<[a := (obj, 1)]> (heap w)) (S a) (registry w));;
  mret a.

(** [weak_ptr::lock()]: another owner of the tracked object, or the empty
    pointer when it is gone. *)
Definition weak_lock (tracker : nat) : M (option nat) :=
  w ← get_world;
  match heap w !! tracker with
  | Some (obj, owners) =>
      put_world (set_heap (<[tracker := (obj, S owners)]> (heap w)) w);;
      mret (Some tracker)
  | None => mret None
  end.

(** Destruction of a [std::shared_ptr<LockFileOwner>]: the object goes with
    its last owner. *)
Definition drop_shared (p : option nat) : M () :=
  match p with
  | None => mret ()
  | Some a =>
      w ← get_world;
      match heap w !! a with
      | None => mret ()
      | Some (obj, owners) =>
          if bool_decide (owners ≤ 1)%nat
          then put_world (set_heap (delete a (heap w)) w);; LockFileOwner_dtor obj
          else put_world (set_heap (<[a := (obj, owners - 1)]> (heap w)) w)
      end
  end.

(** [tl::expected<std::shared_ptr<LockFileOwner>, mamba_error>
    LockedFilesRegistry::acquire_lock(const fs::u8path& file_path,
    const std::chrono::seconds timeout)] *)
Definition acquire_lock (file_path : u8path) (timeout : Z) : M (expected (option nat)) :=
  c ← get_ctx;
  if negb (use_lockfiles c) then mret (Value None)
  else
    o ← get_os;
    let absolute_file_path := absolute o file_path in
    w ← get_world;
    lockedfile ←
      match locked_files (registry w) !! absolute_file_path with
      | Some tracker => weak_lock tracker
      | None => mret None
      end;
    match lockedfile with
    | Some a => mret (Value (Some a))
    | None =>
        safe_invoke
          (obj ← LockFileOwner_ctor absolute_file_path timeout;
           lockedfile ← make_shared obj;
           w ← get_world;
           put_world
             (set_registry
                (mk_registry
                   (<[absolute_file_path := lockedfile]> (locked_files (registry w)))
                   (<[m_fd obj := absolute_file_path]> (fd_to_locked_path (registry w))))
                w);;
           mret (Some lockedfile))
    end.

(** ** String utilities

    The utilities of [util.cpp] on [std::string] and [std::string_view] work
    with positions and lengths; for them a string is the list of its chars.
    A [const char*] is the list of the chars before its terminating zero. *)

Module StdString.
Local Close Scope string_scope.

Abbreviation std_string := (list ascii).

(** A string literal of the source. *)
Definition lit (s : string) : std_string := list_ascii_of_string s.

(** [str.substr(pos, n)], for a position within the string. *)
Definition substr (pos n : nat) (str : std_string) : std_string := take n (drop pos str).

(** [str.find(sub)]: the first position at which [sub] occurs, [None] for
    [npos]. *)
Fixpoint find_first (str sub : std_string) : option nat :=
  if bool_decide (sub `prefix_of` str) then Some 0
  else match str with
       | [] => None
       | _ :: str' => S <$> find_first str' sub
       end.

(** [str.find(sub, pos)] *)
Definition find (str sub : std_string) (pos : nat) : option nat :=
  if bool_decide (pos ≤ length str)
  then (λ i, pos + i) <$> find_first (drop pos str) sub
  else None.

(** [bool ends_with(const std::string_view& str, const std::string_view& suffix)] *)
Definition ends_with (str suffix : std_string) : bool :=
  bool_decide (length suffix ≤ length str)
  && bool_decide (substr (length str - length suffix) (length suffix) str = suffix).

(** [bool starts_with(const std::string_view& str, const std::string_view& prefix)] *)
Definition starts_with (str prefix : std_string) : bool :=
  bool_decide (length prefix ≤ length str)
  && bool_decide (substr 0 (length prefix) str = prefix).

(** [bool any_starts_with(const std::vector<std::string_view>& str,
    const std::string_view& prefix)] *)
Fixpoint any_starts_with (str : list std_string) (prefix : std_string) : bool :=
  match str with
  | [] => false
  | s :: rest => if starts_with s prefix then true else any_starts_with rest prefix
  end.

(** [bool starts_with_any(const std::string_view& str,
    const std::vector<std::string_view>& prefix)] *)
Fixpoint starts_with_any (str : std_string) (prefix : list std_string) : bool :=
  match prefix with
  | [] => false
  | p :: rest => if starts_with str p then true else starts_with_any str rest
  end.

(** [bool contains(const std::string_view& str, const std::string_view& sub_str)] *)
Definition contains (str sub_str : std_string) : bool :=
  bool_decide (find str sub_str 0 ≠ None).

(** [bool is_package_file(const std::string_view& fn)] *)
Definition is_package_file (fn : std_string) : bool :=
  ends_with fn (lit ".tar.bz2") || ends_with fn (lit ".conda").

(** [input.find_first_not_of(chars)] *)
Fixpoint find_first_not_of (input chars : std_string) : option nat :=
  match input with
  | [] => None
  | c :: rest =>
      if bool_decide (c ∈ chars) then S <$> find_first_not_of rest chars else Some 0
  end.

(** [input.find_last_not_of(chars)] *)
Fixpoint find_last_not_of (input chars : std_string) : option nat :=
  match input with
  | [] => None
  | c :: rest =>
      match find_last_not_of rest chars with
      | Some i => Some (S i)
      | None => if bool_decide (c ∈ chars) then None else Some 0
      end
  end.

(** [std::string_view lstrip(const std::string_view& input, const std::string_view& chars)] *)
Definition lstrip (input chars : std_string) : std_string :=
  match find_first_not_of input chars with
  | None => []
  | Some start => drop start input
  end.

(** [std::string_view rstrip(const std::string_view& input, const std::string_view& chars)] *)
Definition rstrip (input chars : std_string) : std_string :=
  match find_last_not_of input chars with
  | None => []
  | Some end_ => substr 0 (end_ + 1) input
  end.

(** [SIZE_MAX] *)
Definition SIZE_MAX : N := (2 ^ 64 - 1)%N.

(** The loop of [rsplit], for a separator of [n] chars, [n] not zero: [i]
    goes down the input, [j] is where the piece being cut ends, and
    [max_split-- <= 0] on a [std::size_t] holds when no split is left.
    Every turn lowers [i]; [fuel] bounds the turns, and [length input] of
    them are never all used. *)
Fixpoint rsplit_loop (fuel : nat) (input sep : std_string) (i j : nat) (max_split : N)
    (result : list std_string) : list std_string :=
  let n := length sep in
  match fuel with
  | O => result ++ [substr 0 j input]
  | S fuel' =>
      if bool_decide (n ≤ i) then
        if bool_decide (input !! (i - 1) = sep !! (n - 1))
           && bool_decide (substr (i - n) n input = sep)
        then
          if bool_decide (max_split = 0%N) then result ++ [substr 0 j input]
          else rsplit_loop fuel' input sep (i - n) (i - n) (max_split - 1)
                 (result ++ [substr i (j - i) input])
        else rsplit_loop fuel' input sep (i - 1) j max_split result
      else result ++ [substr 0 j input]
  end.

(** [void replace_all_impl(S& data, const S& search, const S& replace)], its
    loop: [pos] is where [search] was found.  Every turn shortens what is
    left to scan; [fuel] bounds the turns. *)
Fixpoint replace_all_loop (fuel : nat) (data search replace : std_string) (pos : option nat)
    : std_string :=
  match pos, fuel with
  | None, _ => data
  | Some _, O => data
  | Some p, S fuel' =>
      let data := take p data ++ replace ++ drop (p + length search) data in
      replace_all_loop fuel' data search replace (find data search (p + length replace))
  end.

(** [void replace_all(std::string& data, const std::string& search,
    const std::string& replace)] *)
Definition replace_all (data search replace : std_string) : std_string :=
  if bool_decide (search = []) then data
  else replace_all_loop (length data) data search replace (find data search 0).

(** [std::toupper] and [std::tolower] in the "C" locale. *)
Definition toupper (c : ascii) : ascii :=
  let n := nat_of_ascii c in
  if bool_decide (97 ≤ n ≤ 122) then ascii_of_nat (n - 32) else c.

Definition tolower (c : ascii) : ascii :=
  let n := nat_of_ascii c in
  if bool_decide (65 ≤ n ≤ 90) then ascii_of_nat (n + 32) else c.

(** [std::string string_transform(const std::string_view& input, int functor(int))],
    whose second argument is a pointer to a function *)
Definition string_transform (input : std_string) (functor : ascii → ascii) : std_string :=
  functor <$> input.

(** [std::string to_upper(const std::string_view& input)] *)
Definition to_upper (input : std_string) : std_string := string_transform input toupper.

(** [std::string to_lower(const std::string_view& input)] *)
Definition to_lower (input : std_string) : std_string := string_transform input tolower.

(** [void split_package_extension(const std::string& file, std::string& name,
    std::string& extension)]: the two strings it sets. *)
Definition split_package_extension (file : std_string) : std_string * std_string :=
  if ends_with file (lit ".conda")
  then (substr 0 (length file - 6) file, lit ".conda")
  else if ends_with file (lit ".tar.bz2")
  then (substr 0 (length file - 8) file, lit ".tar.bz2")
  else if ends_with file (lit ".json")
  then (substr 0 (length file - 5) file, lit ".json")
  else (file, []).

(** [std::string prepend(const char* p, const char* start, const char* newline)],
    its loop. *)
Fixpoint prepend_loop (p newline result : std_string) : std_string :=
  match p with
  | [] => result
  | c :: p' =>
      let result := result ++ [c] in
      if bool_decide (c = "010"%char)
      then prepend_loop p' newline (result ++ newline)
      else prepend_loop p' newline result
  end.

Definition prepend (p start newline : std_string) : std_string :=
  prepend_loop p newline start.

(** [std::isspace] in the "C" locale *)
Definition isspace (c : ascii) : bool := Ascii.is_space c.

(** The first loop of [unindent]: the white space the text begins with, up to
    a line feed. *)
Fixpoint leading_space (p : std_string) : std_string :=
  match p with
  | c :: p' =>
      if isspace c && bool_decide (c ≠ "010"%char) then c :: leading_space p' else []
  | [] => []
  end.

(** The second loop of [unindent]: chars are copied, and after a line feed
    the leading white space is skipped when the next chars are the same.
    [fuel] bounds the turns; [length p] of them are never all used. *)
Fixpoint unindent_loop (fuel : nat) (leading p result : std_string) : std_string :=
  match fuel, p with
  | _, [] => result
  | O, _ => result
  | S fuel', c :: p' =>
      let result := result ++ [c] in
      if bool_decide (c = "010"%char) && bool_decide (leading `prefix_of` p')
      then unindent_loop fuel' leading (drop (length leading) p') result
      else unindent_loop fuel' leading p' result
  end.

(** [std::string unindent(const char* p)] *)
Definition unindent (p : std_string) : std_string :=
  let p := match p with
           | c :: p' => if bool_decide (c = "010"%char) then p' else p
           | [] => p
           end in
  let leading := leading_space p in
  let p := drop (length leading) p in
  unindent_loop (length p) leading p [].

End StdString.
Export StdString.

Section rsplit.
Local Close Scope string_scope.

(** [split] is declared in [util.hpp]; [rsplit] hands over to it when there
    is no bound on the number of splits. *)
Variable split : std_string → std_string → N → list std_string.

(** [std::vector<std::string> rsplit(const std::string_view& input,
    const std::string_view& sep, std::size_t max_split)].  With an empty
    separator the loop reads [sep[n - 1]] before the separator, which is
    undefined: [None]. *)
Definition rsplit (input sep : std_string) (max_split : N) : option (list std_string) :=
  if bool_decide (max_split = SIZE_MAX) then Some (split input sep max_split)
  else if bool_decide (sep = []) then None
  else Some (reverse (rsplit_loop (length input) input sep
                        (length input) (length input) max_split [])).

End rsplit.

(** The pieces put together again, with the separator between them. *)
Fixpoint join_with (sep : std_string) (pieces : list std_string) : std_string :=
  match pieces with
  | [] => []
  | [x] => x
  | x :: rest => (x ++ sep ++ join_with sep rest)%list
  end.

(** ** Quoting a command line *)

Module Quoting.
Local Close Scope string_scope.

Definition backslash : ascii := "092"%char.
Definition dquote : ascii := "034"%char.
Definition squote : ascii := "039"%char.
Definition space : ascii := "032"%char.
Definition tab : ascii := "009"%char.

(** The loop of the [cmdexe] branch over the chars of an argument, on
    [result] and [bs_buf]: backslashes are held back until the next char
    tells whether they stand before a quotation mark. *)
Definition cmdexe_quote_char (st : std_string * std_string) (c : ascii)
    : std_string * std_string :=
  let '(result, bs_buf) := st in
  if bool_decide (c = backslash) then (result, bs_buf ++ [c])
  else if bool_decide (c = dquote) then
    (result ++ replicate (length bs_buf * 2) backslash ++ [backslash; dquote], [])
  else
    ((if bool_decide (bs_buf ≠ []) then result ++ bs_buf else result) ++ [c], []).

(** The loop of the [cmdexe] branch over the arguments. *)
Definition cmdexe_quote_arg (result arg : std_string) : std_string :=
  let result := if bool_decide (result ≠ []) then result ++ [space] else result in
  let need_quote :=
    bool_decide (Exists (λ c, c = space ∨ c = tab) arg) || bool_decide (arg = []) in
  let result := if need_quote then result ++ [dquote] else result in
  let '(result, bs_buf) := foldl cmdexe_quote_char (result, []) arg in
  let result := if bool_decide (bs_buf ≠ []) then result ++ bs_buf else result in
  if need_quote then result ++ bs_buf ++ [dquote] else result.

(** The class [\w] of [std::regex]: letters, digits and the underscore. *)
Definition is_word (c : ascii) : bool :=
  let n := nat_of_ascii c in
  bool_decide (48 ≤ n ≤ 57) || bool_decide (65 ≤ n ≤ 90) || bool_decide (97 ≤ n ≤ 122)
  || bool_decide (n = 95).

(** A char the expression [[^\w@%+=:,./-]] matches. *)
Definition unsafe (c : ascii) : bool :=
  negb (is_word c || bool_decide (c ∈ lit "@%+=:,./-")).

(** The lambda [quote_arg] of the other branch. *)
Definition quote_arg (s : std_string) : std_string :=
  if bool_decide (length s = 0) then [squote; squote]
  else if existsb unsafe s
  then [squote] ++ replace_all s [squote] [squote; dquote; squote; dquote; squote]
       ++ [squote]
  else s.

(** [std::string quote_for_shell(const std::vector<std::string>& arguments,
    const std::string& shell)].  [on_win] is a constant of the platform,
    declared in [util_os.hpp]. *)
Definition quote_for_shell (on_win : bool) (arguments : list std_string)
    (shell : std_string) : std_string :=
  if bool_decide (shell = []) && on_win || bool_decide (shell = lit "cmdexe")
  then foldl cmdexe_quote_arg [] arguments
  else match arguments with
       | [] => []
       | a0 :: rest =>
           foldl (λ argstring a, argstring ++ [space] ++ quote_arg a) (quote_arg a0) rest
       end.

(** *** Reading a command line

    What the quoting is for.  The comment of the [cmdexe] branch gives the
    rules by which the MS C runtime reads the arguments of a command line;
    the other branch is "identical to Python's [shlex.quote]", whose result
    a POSIX shell reads. *)

(** The MS C runtime: (1) arguments are delimited by a space or a tab;
    (2) a string in double quotation marks is one argument, whatever white
    space it has, and can be part of an argument; (3) a quotation mark after
    a backslash is a literal quotation mark; (4) backslashes are literal
    unless they stand before a quotation mark; (5) before a quotation mark
    every pair of backslashes is one literal backslash, and a last odd one
    makes the quotation mark literal. *)
Record argv_state := mk_argv {
  argv_done : list std_string;       (* the arguments read so far *)
  argv_current : option std_string;  (* the argument being read, if one has begun *)
  argv_in_quotes : bool;
  argv_backslashes : nat             (* backslashes read and not yet interpreted *)
}.

Definition argv_emit (current : option std_string) (cs : std_string) : option std_string :=
  Some (default [] current ++ cs).

(** The pending backslashes taken literally. *)
Definition argv_flush (st : argv_state) : option std_string :=
  if bool_decide (argv_backslashes st = 0) then argv_current st
  else argv_emit (argv_current st) (replicate (argv_backslashes st) backslash).

Definition argv_step (st : argv_state) (c : ascii) : argv_state :=
  let '(mk_argv read current in_quotes n) := st in
  if bool_decide (c = backslash) then mk_argv read current in_quotes (S n)
  else if bool_decide (c = dquote) then
    let current := argv_emit current (replicate (n / 2) backslash) in
    if Nat.odd n then mk_argv read (argv_emit current [dquote]) in_quotes 0
    else mk_argv read current (negb in_quotes) 0
  else if bool_decide (c = space ∨ c = tab) && negb in_quotes then
    mk_argv (read ++ option_list (argv_flush st)) None false 0
  else mk_argv read (argv_emit current (replicate n backslash ++ [c])) in_quotes 0.

Definition argv_end (st : argv_state) : list std_string :=
  argv_done st ++ option_list (argv_flush st).

Definition cmdline_arguments (cmdline : std_string) : list std_string :=
  argv_end (foldl argv_step (mk_argv [] None false 0) cmdline).

(** A POSIX shell, on words made of plain chars, of strings in single
    quotation marks, where every char is literal, and of strings in double
    quotation marks without expansions.  Words are delimited by blanks.  A
    char that is an operator, or that starts an expansion, a pattern, a
    comment or an escape, is not read: [None]. *)
Inductive sh_quoting := sh_unquoted | sh_single | sh_double.

Record sh_state := mk_sh {
  sh_done : list std_string;
  sh_current : option std_string;
  sh_mode : sh_quoting
}.

Definition sh_blank (c : ascii) : bool := bool_decide (c ∈ [space; tab; "010"%char]).

(** Operators, and the chars that start an expansion, a pattern, a comment
    or an escape. *)
Definition sh_special (c : ascii) : bool := bool_decide (c ∈ lit "|&;<>()$`\*?[#~!{}").

Definition sh_step (st : sh_state) (c : ascii) : option sh_state :=
  let '(mk_sh read current mode) := st in
  match mode with
  | sh_single =>
      if bool_decide (c = squote) then Some (mk_sh read current sh_unquoted)
      else Some (mk_sh read (argv_emit current [c]) sh_single)
  | sh_double =>
      if bool_decide (c = dquote) then Some (mk_sh read current sh_unquoted)
      else if bool_decide (c ∈ lit "$`\") then None
      else Some (mk_sh read (argv_emit current [c]) sh_double)
  | sh_unquoted =>
      if bool_decide (c = squote) then Some (mk_sh read (argv_emit current []) sh_single)
      else if bool_decide (c = dquote) then Some (mk_sh read (argv_emit current []) sh_double)
      else if sh_blank c then Some (mk_sh (read ++ option_list current) None sh_unquoted)
      else if sh_special c then None
      else Some (mk_sh read (argv_emit current [c]) sh_unquoted)
  end.

Fixpoint sh_run (st : sh_state) (s : std_string) : option sh_state :=
  match s with
  | [] => Some st
  | c :: s' => st' ← sh_step st c; sh_run st' s'
  end.

Definition sh_words (s : std_string) : option (list std_string) :=
  st ← sh_run (mk_sh [] None sh_unquoted) s;
  match sh_mode st with
  | sh_unquoted => Some (sh_done st ++ option_list (sh_current st))
  | _ => None
  end.

End Quoting.
Export Quoting.

(** ** Package file names as paths *)

(** [fs::u8path strip_package_extension(const std::string& file)] *)
Definition strip_package_extension (file : std_string) : exn + u8path :=
  let '(name, extension) := split_package_extension file in
  if bool_decide (extension = [])
  then inl (runtime_error ("Cannot strip file extension from: " +:+ string_of_list_ascii file))
  else inr (of_string (string_of_list_ascii name)).

(** ** Listing a directory *)

(** [fs::directory_iterator(dir)]: the entries of the directory, each as
    [dir / name].  Their order is that of the file table. *)
Definition directory_entries (o : OS) (dir : u8path) : list u8path :=
  let d := final_key o dir in
  (λ k, join dir (mk_path false [List.last k ""]))
    <$> filter (λ k, d `prefix_of` k ∧ length k = S (length d))
               (map_to_list (files o)).*1.

(** The loop of [filter_dir] over the entries. *)
Fixpoint filter_dir_loop (o : OS) (suffix : string) (entries result : list u8path)
    : list u8path :=
  match entries with
  | [] => result
  | entry :: rest =>
      if bool_decide (String.length suffix ≠ 0)%nat then
        if negb (fs_is_directory o entry) && bool_decide (extension entry = suffix)
        then filter_dir_loop o suffix rest (result ++ [entry])%list
        else filter_dir_loop o suffix rest result
      else
        if bool_decide (fs_is_directory o entry = false)
        then filter_dir_loop o suffix rest (result ++ [entry])%list
        else filter_dir_loop o suffix rest result
  end.

(** [std::vector<fs::u8path> filter_dir(const fs::u8path& dir, const std::string& suffix)] *)
Definition filter_dir (o : OS) (dir : u8path) (suffix : string) : list u8path :=
  if fs_exists o dir && fs_is_directory o dir
  then filter_dir_loop o suffix (directory_entries o dir) []
  else [].

(** ** Asking whether a lock is held *)

(** [fcntl(fd, F_GETLK, &lock)]: the result, and whether [lock.l_type] is
    not [F_UNLCK] afterwards.  The lock is described as unlocked unless
    another process holds a lock that conflicts; the locks of the calling
    process never do.  When the call fails the structure is as it was
    filled in, with [F_WRLCK]. *)
Definition fcntl_getlk (fd : Z) : M (Z * bool) :=
  o ← get_os;
  match fds o !! fd with
  | None => mret ((-1)%Z, true)
  | Some k => mret (0%Z, held_at (clock o) (foreign_hold o k))
  end.

(** [bool LockFile::is_locked(int fd)], which POSIX systems have *)
Definition LockFile_is_locked (fd : Z) : M bool :=
  tracked ← is_locked_fd fd;
  if tracked : bool then mret true
  else
    '(result, locked) ← fcntl_getlk fd;
    mret (locked && bool_decide (result ≠ (-1)%Z)).

(** ** Vocabulary of the properties *)

(** *** Quarantine names *)

(** The names the quarantine tries: the plain one, then the numbered ones. *)
Definition trash_name (path : u8path) : u8path :=
  replace_extension path (extension path +:+ ".mamba_trash").

Definition numbered_trash_name (path : u8path) (n : nat) : u8path :=
  replace_extension path (extension path +:+ pretty n +:+ ".mamba_trash").

(** *** The trash index *)

(** The trash index of the target prefix. *)
Definition trash_index (w : World) : u8path := trash_txt_of (target_prefix (ctx w)).

(** The world once [trash_file] has been recorded in the index: the stream
    is opened for appending and the relative path is written with a line
    feed. *)
Definition record_in_index (trash_file : u8path) (w : World) : World :=
  let '(stream, o1) := ofstream_open (trash_index w) ios_app (os w) in
  set_os (ofstream_put stream
            (to_string (fs_relative o1 trash_file (target_prefix (ctx w))) +:+ LF) o1) w.

(** Whether a stream on [p] can be opened: on a regular file, or where a
    file can be created. *)
Definition stream_opens (o : OS) (p : u8path) : bool :=
  match files o !! final_key o p with
  | Some (mk_node (Regular _) _ _) => true
  | Some _ => false
  | None => can_create o (final_key o p)
  end.

(** The line a quarantine writes for [trash_file]. *)
Definition index_line (trash_file : u8path) (w : World) : string :=
  to_string (fs_relative (ofstream_open (trash_index w) ios_app (os w)).2
               trash_file (target_prefix (ctx w))) +:+ LF.

(** What reading the regular file at [p] yields. *)
Definition read_text (o : OS) (p : u8path) : option string :=
  match files o !! final_key o p with
  | Some (mk_node (Regular c) _ _) => Some c
  | _ => None
  end.

Fixpoint has_char (c : ascii) (s : string) : bool :=
  match s with
  | EmptyString => false
  | String a s' => bool_decide (a = c) || has_char c s'
  end.

(** The text of an index to which [recs] were appended, one after the other. *)
Fixpoint index_text (recs : list string) : string :=
  match recs with
  | [] => ""
  | r :: recs' => r +:+ LF +:+ index_text recs'
  end.

(** *** Retries *)

(** The state in which a rename is attempted and fails. *)
Definition rename_fails (path : u8path) (w : World) : Prop :=
  ∃ trash_file e, trash_file_for path w = Done trash_file w
                  ∧ (fs_rename (os w) path trash_file).1 = Some e.

Definition asleep (n : nat) (w : World) : World := set_os (sleep_for n (os w)) w.

Definition napped (naps : list nat) (w : World) : World :=
  foldl (λ w n, asleep n w) w naps.

(** The sleeps of the loop from a given counter on. *)
Fixpoint backoff (counter : Z) (k : nat) : list nat :=
  match k with
  | O => []
  | S k' => Z.to_nat ((counter + 1) * 2) :: backoff (counter + 1) k'
  end.

Definition final_world {A} (r : Outcome A) : option World :=
  match r with
  | Done _ w | Raised _ w => Some w
  | Hangs => None
  end.

Definition world_after {A} (r : Outcome A) (otherwise : World) : World :=
  default otherwise (final_world r).

(** *** Reclaiming *)

(** [shrunk o o']: [o'] is [o] with some files removed. *)
Definition shrunk (o o' : OS) : Prop :=
  files o' ⊆ files o ∧ cwd o' = cwd o ∧ clock o' = clock o.

(** A listed file that the reclaimer counts as deleted: it is not there, or
    removing it succeeds. *)
Definition reclaimable (o : OS) (p : u8path) : Prop :=
  fs_exists o p = false ∨ (fs_remove o p).1.1 = true.

(** *** The registry *)

(** Calls that only touch the operating system. *)
Definition os_only {A} (m : M A) : Prop :=
  ∀ w, match m w with
       | Done _ w' | Raised _ w' => ∃ o, w' = set_os o w
       | Hangs => True
       end.

(** What the process can do with the lock subsystem, and what happens around
    it: locks are acquired, shared pointers are dropped, the operating system
    changes under other programs, the configuration is changed. *)
Inductive reachable : World → Prop :=
  | reach_start w :
      heap w = ∅ → locked_files (registry w) = ∅ → reachable w
  | reach_acquire w file_path timeout r w' :
      reachable w → acquire_lock file_path timeout w = Done r w' → reachable w'
  | reach_drop w p w' :
      reachable w → drop_shared p w = Done () w' → reachable w'
  | reach_os w o : reachable w → reachable (set_os o w)
  | reach_ctx w c : reachable w → reachable (set_ctx c w).

(** Every entry of the table is keyed by an absolute path; every live object
    has an owner and is the one the table tracks for its path, and for no
    other; addresses are never reused. *)
Record registry_inv (w : World) : Prop := {
  inv_keys : ∀ p a, locked_files (registry w) !! p = Some a →
                    is_absolute p = true ∧ (a < next_addr w)%nat;
  inv_live : ∀ a obj n, heap w !! a = Some (obj, n) →
                    (a < next_addr w)%nat ∧ (1 ≤ n)%nat ∧
                    locked_files (registry w) !! m_path obj = Some a;
  inv_tracked : ∀ p a obj n, locked_files (registry w) !! p = Some a →
                    heap w !! a = Some (obj, n) → m_path obj = p
}.

(** *** Blocking *)

(** The world once this process holds the lock on [k] through [fd]. *)
Definition lock_taken (fd : Z) (k : fkey) (w : World) : World :=
  set_os (set_own_locks (<[k := fd]> (own_locks (os w))) (os w)) w.

Definition at_time (t : nat) (w : World) : World := set_os (set_clock t (os w)) w.

(** Whether the byte of [k] is locked [i] seconds from now, by another
    process or by this one: what [_locking] with [LK_NBLCK] fails on. *)
Definition byte_locked (o : OS) (k : fkey) (i : nat) : bool :=
  held_at (clock o + i) (foreign_hold o k) || bool_decide (is_Some (own_locks o !! k)).

(** [chdir] *)
Definition chdir (d : fkey) (o : OS) : OS :=
  mk_os (platform o) d (clock o) (files o) (slept o) (fds o) (next_fd o)
        (foreign_locks o) (own_locks o).

(** *** Quoting, listing, reclaiming and locking *)

(** What one argument becomes. *)
Definition cmdexe_quoted (arg : std_string) : std_string := cmdexe_quote_arg [] arg.

(** The entries the loop of [filter_dir] keeps. *)
Definition filter_dir_keeps (o : OS) (suffix : string) (entry : u8path) : bool :=
  if bool_decide (String.length suffix ≠ 0)%nat
  then negb (fs_is_directory o entry) && bool_decide (extension entry = suffix)
  else bool_decide (fs_is_directory o entry = false).


(** The operating system once [p] has been opened. *)
Definition opened (p : u8path) (o : OS) : OS :=
  let k := final_key o p in
  set_fds (<[next_fd o := k]> (fds o)) (next_fd o + 1)
    (match files o !! k with
     | None => set_files (<[k := mk_node (Regular "") Free Free]> (files o)) o
     | Some _ => o
     end).

(** The lock file the constructor of the handle uses for [path]. *)
Definition lockfile_path_of (o : OS) (path : u8path) : u8path :=
  if fs_is_directory o path
  then join path (of_string (filename path +:+ ".lock"))
  else of_string (to_string path +:+ ".lock").

(** No live handle is registered under [p]: there is no entry, or the object
    it tracked is gone. *)
Definition not_tracked (w : World) (p : u8path) : Prop :=
  ∀ a, locked_files (registry w) !! p = Some a → heap w !! a = None.

(** What a call on a lock leaves alone in the operating system. *)
Definition lock_frame (o o' : OS) : Prop :=
  platform o' = platform o ∧ cwd o' = cwd o ∧ files o' = files o ∧ fds o' = fds o
  ∧ next_fd o' = next_fd o ∧ foreign_locks o' = foreign_locks o
  ∧ (clock o ≤ clock o')%nat.

(** A call that tries to lock [k] through [fd]: when it returns, the lock
    is this process's if the result is zero, and the locks are as they were
    otherwise. *)
Definition lock_attempt (fd : Z) (k : fkey) (m : M Z) : Prop :=
  ∀ w, fds (os w) !! fd = Some k →
    match m w with
    | Done ret w' =>
        ∃ o', w' = set_os o' w ∧ lock_frame (os w) o'
              ∧ own_locks o' = if bool_decide (ret = 0)%Z
                               then <[k := fd]> (own_locks (os w))
                               else own_locks (os w)
    | Raised _ _ => False
    | Hangs => True
    end.

(** ** Example worlds *)

Definition a_file (held pin : Hold) : Node := mk_node (Regular "") held pin.
Definition a_directory : Node := mk_node Directory Free Free.

(** A prefix [/opt/env] with its [conda-meta], which is also the current
    directory. *)
Definition env_prefix : u8path := of_string "/opt/env".

Definition env_os (pl : Platform) (fs : list (fkey * Node)) (foreign : list (fkey * Hold)) : OS :=
  mk_os pl ["opt"; "env"] 0
    (list_to_map ([ (["opt"], a_directory); (["opt"; "env"], a_directory);
                    (["opt"; "env"; "conda-meta"], a_directory) ] ++ fs))
    [] ∅ 3 (list_to_map foreign) ∅.

Definition env_world (locking : bool) (o : OS) : World :=
  mk_world (mk_context locking env_prefix 0) o ∅ 0 (mk_registry ∅ ∅).

(** [pkgs/foo-1.0/bin/foo] is held open by another program. *)
Definition foo_path : u8path := of_string "pkgs/foo-1.0/bin/foo".
Definition foo_key : fkey := ["opt"; "env"; "pkgs"; "foo-1.0"; "bin"; "foo"].
Definition w_foo_held : World :=
  env_world true (env_os Posix [(foo_key, a_file Forever Free)] []).

(** [foo] can be neither removed nor renamed, and two quarantine names are
    taken already. *)
Definition w_foo_stuck : World :=
  env_world true
    (env_os Posix [ (["opt"; "env"; "foo"], a_file Forever Forever);
                    (["opt"; "env"; "foo.mamba_trash"], a_file Free Free);
                    (["opt"; "env"; "foo.0.mamba_trash"], a_file Free Free) ] []).

Definition stuck_path : u8path := of_string "foo".

(** Nothing is locked yet; then [/opt/env] is. *)
Definition w_unlocked : World := env_world true (env_os Posix [] []).
Definition w_locked : World :=
  Eval vm_compute in world_after (acquire_lock env_prefix 5 w_unlocked) w_unlocked.
Definition env_owner : LockFileOwner :=
  mk_owner env_prefix (of_string "/opt/env/env.lock") 5 3 true false.
Definition env_lock_key : fkey := ["opt"; "env"; "env.lock"].

(** The same seen from the directory above. *)
Definition w_locked_seen_from_opt : World := set_os (chdir ["opt"] (os w_locked)) w_locked.

(** The same once locking has been switched off. *)
Definition w_locked_then_disabled : World :=
  set_ctx (mk_context false env_prefix 0) w_locked.

(** [/opt/env] under another spelling, and the state once that spelling has
    been locked too, and once its handle has been dropped again. *)
Definition env_alias : u8path := of_string "/opt/env/../env".
Definition w_aliased : World :=
  Eval vm_compute in world_after (acquire_lock env_alias 7 w_locked) w_locked.
Definition w_alias_dropped : World :=
  Eval vm_compute in world_after (drop_shared (Some 1%nat) w_aliased) w_aliased.

(** Another process holds the lock of [/opt/env] for good; a descriptor on
    the lock file is open, and the handle has a zero timeout. *)
Definition w_contended (pl : Platform) : World :=
  let o := env_os pl [(env_lock_key, a_file Free Free)] [(env_lock_key, Forever)] in
  env_world true (set_fds {[ 3%Z := env_lock_key ]} 4 o).
Definition patient_owner : LockFileOwner :=
  mk_owner env_prefix (of_string "/opt/env/env.lock") 0 3 false true.
Definition w_contended_gave_up : World :=
  Eval vm_compute in
    world_after (set_fd_lock patient_owner true (w_contended Win32)) (w_contended Win32).

(** A path that does not exist, and a symbolic link to it. *)
Definition nowhere : u8path := of_string "/opt/nowhere".
Definition latest : u8path := of_string "latest".
Definition w_dangling : World :=
  env_world true
    (env_os Posix [(["opt"; "env"; "latest"], mk_node (Symlink ["opt"; "nowhere"]) Free Free)]
            []).
Definition w_dangling_removed : World :=
  Eval vm_compute in world_after (remove_or_rename latest w_dangling) w_dangling.

(** The held-open [foo] once it has been quarantined. *)
Definition foo_trash : u8path := of_string "pkgs/foo-1.0/bin/foo.mamba_trash".
Definition w_foo_quarantined : World :=
  Eval vm_compute in world_after (remove_or_rename foo_path w_foo_held) w_foo_held.

(** Two files are quarantined one after the other; at second 10 nothing holds
    them any more, and they are reclaimed. *)
Definition bar_path : u8path := of_string "/opt/env/lib/bar.so".
Definition w_two_held : World :=
  env_world true
    (env_os Posix [ (foo_key, a_file (Until 5) Free);
                    (["opt"; "env"; "lib"; "bar.so"], a_file (Until 7) Free) ] []).
Definition w_one_quarantined : World :=
  Eval vm_compute in world_after (remove_or_rename foo_path w_two_held) w_two_held.
Definition w_both_quarantined : World :=
  Eval vm_compute in
    world_after (remove_or_rename bar_path w_one_quarantined) w_one_quarantined.
Definition w_two_quarantined : World := Eval vm_compute in at_time 10 w_both_quarantined.
Definition w_two_reclaimed : World :=
  Eval vm_compute in
    world_after (clean_trash_files env_prefix false w_two_quarantined) w_two_quarantined.
Definition two_records : list string :=
  ["pkgs/foo-1.0/bin/foo.mamba_trash"; "lib/bar.so.mamba_trash"].

(** A file whose name has a line feed in it is held open until second 5; it
    is quarantined, and at second 10 the index is reclaimed. *)
Definition odd_path : u8path := of_string ("/opt/env/a" +:+ LF +:+ "b").
Definition w_odd : World :=
  env_world true
    (env_os Posix [(["opt"; "env"; "a" +:+ LF +:+ "b"], a_file (Until 5) Free)] []).
Definition w_odd_renamed : World :=
  Eval vm_compute in world_after (remove_or_rename odd_path w_odd) w_odd.
Definition w_odd_quarantined : World := Eval vm_compute in at_time 10 w_odd_renamed.
Definition w_odd_reclaimed : World :=
  Eval vm_compute in
    world_after (clean_trash_files env_prefix false w_odd_quarantined) w_odd_quarantined.

(** A package directory in which nothing is held open. *)
Definition tree_path : u8path := of_string "pkgs/foo-1.0".
Definition tree_key : fkey := ["opt"; "env"; "pkgs"; "foo-1.0"].
Definition w_tree : World :=
  env_world true
    (env_os Posix [ (["opt"; "env"; "pkgs"], a_directory);
                    (tree_key, a_directory);
                    (["opt"; "env"; "pkgs"; "foo-1.0"; "bin"], a_directory);
                    (foo_key, a_file Free Free) ] []).
Definition w_tree_removed : World :=
  env_world true (env_os Posix [(["opt"; "env"; "pkgs"], a_directory)] []).

(** The held-open [foo] where the trash index cannot be opened: a directory
    is in its place, or its directory [conda-meta] is not there. *)
Definition index_key : fkey := ["opt"; "env"; "conda-meta"; "mamba_trash.txt"].
Definition w_index_is_directory : World :=
  env_world true
    (env_os Posix [(foo_key, a_file Forever Free); (index_key, a_directory)] []).
Definition w_index_is_directory_after : World :=
  Eval vm_compute in
    world_after (remove_or_rename foo_path w_index_is_directory) w_index_is_directory.
Definition w_no_conda_meta : World :=
  let o := env_os Posix [(foo_key, a_file Forever Free)] [] in
  env_world true (set_files (delete ["opt"; "env"; "conda-meta"] (files o)) o).
Definition w_no_conda_meta_after : World :=
  Eval vm_compute in
    world_after (remove_or_rename foo_path w_no_conda_meta) w_no_conda_meta.

(** A symbolic link [latest] to [real.so]; the link is held open. *)
Definition real_so : fkey := ["opt"; "env"; "real.so"].
Definition latest_trash : u8path := of_string "latest.mamba_trash".
Definition w_link_held : World :=
  env_world true
    (env_os Posix [ (["opt"; "env"; "latest"], mk_node (Symlink real_so) Forever Free);
                    (real_so, a_file Free Free) ] []).
Definition w_link_quarantined : World :=
  Eval vm_compute in world_after (remove_or_rename latest w_link_held) w_link_held.

(** The package directory with [foo] held open until second 5: the
    directory is quarantined, and at second 10 the index is reclaimed. *)
Definition w_tree_held : World :=
  env_world true
    (env_os Posix [ (["opt"; "env"; "pkgs"], a_directory);
                    (tree_key, a_directory);
                    (["opt"; "env"; "pkgs"; "foo-1.0"; "bin"], a_directory);
                    (foo_key, a_file (Until 5) Free) ] []).
Definition tree_trash : u8path := of_string "pkgs/foo-1.0.mamba_trash".
Definition w_tree_renamed : World :=
  Eval vm_compute in world_after (remove_or_rename tree_path w_tree_held) w_tree_held.
Definition w_tree_quarantined : World := Eval vm_compute in at_time 10 w_tree_renamed.
Definition w_tree_left : World :=
  Eval vm_compute in
    world_after (clean_trash_files env_prefix false w_tree_quarantined) w_tree_quarantined.

(** A handle on the lock file of [/opt/env] with a timeout of 5 seconds. *)
Definition hasty_owner : LockFileOwner :=
  mk_owner env_prefix (of_string "/opt/env/env.lock") 5 3 false true.

(** * Properties *)

(** ** Reasoning about calls *)

Ltac run :=
  unfold mbind, M_bind, mret, M_ret, get_os, put_os, get_ctx, get_world,
    put_world, throw, hang in *; simpl in *.

(** ** Safe removal: nothing to do, and direct removal *)

Lemma lexists_lookup o path :
  lexists o path = bool_decide (is_Some (files o !! key_of o path)).
Proof.
  unfold lexists, symlink_status.
  destruct (files o !! key_of o path) as [[[] ? ?]|]; simpl; try done.
Qed.

Lemma lexists_true o path :
  lexists o path = true ↔ is_Some (files o !! key_of o path).
Proof. rewrite lexists_lookup, bool_decide_eq_true. done. Qed.

Lemma lexists_false o path :
  lexists o path = false ↔ files o !! key_of o path = None.
Proof.
  rewrite lexists_lookup, bool_decide_eq_false, eq_None_not_Some. done.
Qed.

Lemma key_of_set_files o f path : key_of (set_files f o) path = key_of o path.
Proof. done. Qed.

(** After a direct removal that reports no error the path is gone. *)
Lemma fs_remove_gone o path removed o' :
  fs_remove o path = (removed, None, o') → lexists o' path = false.
Proof.
  unfold fs_remove. intros H. apply lexists_false.
  destruct (files o !! key_of o path) as [n|] eqn:Hn.
  - destruct (blocked (clock o) n); [done|].
    case_bool_decide; [done|]. simplify_eq. simpl.
    by rewrite key_of_set_files, lookup_delete_eq.
  - by simplify_eq.
Qed.

Lemma fs_remove_all_gone o path count o' :
  fs_remove_all o path = (count, None, o') → lexists o' path = false.
Proof.
  unfold fs_remove_all. intros H. apply lexists_false.
  destruct (files o !! key_of o path) as [n|] eqn:Hn.
  - destruct (_ || _); [done|]. simplify_eq. simpl.
    rewrite key_of_set_files. apply map_lookup_filter_None. right.
    intros n' _ Hp. by apply Hp.
  - by simplify_eq.
Qed.

Lemma remove_directly_gone o path result o' :
  remove_directly o path = (result, None, o') → lexists o' path = false.
Proof.
  unfold remove_directly. destruct (fs_is_directory o path).
  - apply fs_remove_all_gone.
  - destruct (fs_remove o path) as [[removed ec] o1] eqn:Hr. intros ?.
    simplify_eq. eauto using fs_remove_gone.
Qed.

Lemma remove_or_rename_absent path w :
  lexists (os w) path = false → remove_or_rename path w = Done 0%N w.
Proof. intros H. unfold remove_or_rename. run. by rewrite H. Qed.

Lemma set_os_os w : set_os (os w) w = w.
Proof. by destruct w. Qed.

Lemma remove_or_rename_direct path w result o' :
  lexists (os w) path = true →
  remove_directly (os w) path = (result, None, o') →
  remove_or_rename path w = Done result (set_os o' w).
Proof. intros H Hr. unfold remove_or_rename. run. by rewrite H, Hr. Qed.

(** ** Quarantine names *)

Lemma next_trash_file_free fuel path trash_file fcounter w :
  lexists (os w) trash_file = false →
  next_trash_file fuel path trash_file fcounter w = Done trash_file w.
Proof. intros H. destruct fuel; simpl; run; by rewrite H. Qed.

Lemma next_trash_file_taken fuel path trash_file fcounter w :
  lexists (os w) trash_file = true →
  (fcounter < 100)%nat →
  next_trash_file (S fuel) path trash_file fcounter w
  = next_trash_file fuel path (numbered_trash_name path fcounter) (fcounter + 1) w.
Proof.
  intros H Hlt. simpl. run. rewrite H.
  rewrite bool_decide_eq_false_2 by lia. done.
Qed.

Lemma next_trash_file_exhausted fuel path trash_file fcounter w :
  lexists (os w) trash_file = true →
  (100 ≤ fcounter)%nat →
  next_trash_file (S fuel) path trash_file fcounter w
  = Raised (runtime_error "Too many existing trash files. Please force clean") w.
Proof.
  intros H Hlt. simpl. run. rewrite H.
  rewrite bool_decide_eq_true_2 by lia. done.
Qed.

(** From counter [j] with the current name taken: the first free numbered
    name at or after [j] is the result. *)
Lemma next_trash_file_first_free d : ∀ fuel path trash_file j w,
  lexists (os w) trash_file = true →
  (∀ i, j ≤ i < j + d → lexists (os w) (numbered_trash_name path i) = true)%nat →
  lexists (os w) (numbered_trash_name path (j + d)) = false →
  (j + d < 100)%nat →
  (d < fuel)%nat →
  next_trash_file fuel path trash_file j w
  = Done (numbered_trash_name path (j + d)) w.
Proof.
  induction d as [|d IH]; intros fuel path trash_file j w Hcur Htaken Hfree Hk Hfuel.
  - destruct fuel as [|fuel]; [lia|].
    rewrite next_trash_file_taken by (done || lia).
    rewrite Nat.add_0_r in Hfree |- *. by apply next_trash_file_free.
  - destruct fuel as [|fuel]; [lia|].
    rewrite next_trash_file_taken by (done || lia).
    replace (j + S d)%nat with ((j + 1) + d)%nat in * by lia.
    apply IH; try lia.
    + apply Htaken. lia.
    + intros i Hi. apply Htaken. lia.
    + done.
Qed.

Lemma next_trash_file_all_taken d : ∀ fuel path trash_file j w,
  lexists (os w) trash_file = true →
  (∀ i, j ≤ i < 100 → lexists (os w) (numbered_trash_name path i) = true)%nat →
  (j + d = 100)%nat →
  (d < fuel)%nat →
  next_trash_file fuel path trash_file j w
  = Raised (runtime_error "Too many existing trash files. Please force clean") w.
Proof.
  induction d as [|d IH]; intros fuel path trash_file j w Hcur Htaken Hk Hfuel.
  - destruct fuel as [|fuel]; [lia|].
    apply next_trash_file_exhausted; [done|lia].
  - destruct fuel as [|fuel]; [lia|].
    rewrite next_trash_file_taken by (done || lia).
    apply IH; try lia.
    + apply Htaken. lia.
    + intros i Hi. apply Htaken. lia.
Qed.

(** 101 iterations are enough: the loop never runs out of fuel. *)
Lemma next_trash_file_fuel : ∀ fuel path trash_file j w,
  (j ≤ 100)%nat →
  (101 ≤ fuel + j)%nat →
  next_trash_file fuel path trash_file j w ≠ Hangs.
Proof.
  induction fuel as [|fuel IH]; intros path trash_file j w Hj Hf; [lia|].
  simpl. run. destruct (lexists (os w) trash_file) eqn:H; [|done].
  case_bool_decide; [done|]. apply IH; lia.
Qed.

Lemma trash_file_for_returns path w : trash_file_for path w ≠ Hangs.
Proof. apply next_trash_file_fuel; lia. Qed.

(** Claim C4, as the code has it.  The plain quarantine name is used when it
    is free.  When it is taken, the numbered names are tried in order from
    number 0, and the first free one is the result: with the plain name and
    name 0 taken the third name tried carries number 1.  When the plain name
    and the hundred names 0 to 99 are all taken the call throws "Too many
    existing trash files".  The search always ends. *)
Theorem trash_file_for_numbering path w :
  (lexists (os w) (trash_name path) = false →
   trash_file_for path w = Done (trash_name path) w) ∧
  (∀ k, lexists (os w) (trash_name path) = true →
     (∀ i, i < k → lexists (os w) (numbered_trash_name path i) = true)%nat →
     lexists (os w) (numbered_trash_name path k) = false →
     (k < 100)%nat →
     trash_file_for path w = Done (numbered_trash_name path k) w) ∧
  (lexists (os w) (trash_name path) = true →
   (∀ i, i < 100 → lexists (os w) (numbered_trash_name path i) = true)%nat →
   trash_file_for path w
   = Raised (runtime_error "Too many existing trash files. Please force clean") w) ∧
  trash_file_for path w ≠ Hangs.
Proof.
  unfold trash_file_for. fold (trash_name path). repeat split.
  - apply next_trash_file_free.
  - intros k Hb Ht Hf Hk.
    apply (next_trash_file_first_free k _ _ _ 0%nat); try done; try lia.
    intros i Hi. apply Ht. lia.
  - intros Hb Ht.
    apply (next_trash_file_all_taken 100 _ _ _ 0%nat); try done; try lia.
    intros i Hi. apply Ht. lia.
  - apply next_trash_file_fuel; lia.
Qed.

(** ** The retry loop *)

(** Computing the quarantine name reads the file table and changes nothing. *)
Lemma next_trash_file_pure fuel : ∀ path trash_file j w,
  match next_trash_file fuel path trash_file j w with
  | Done _ w' | Raised _ w' => w' = w
  | Hangs => True
  end.
Proof.
  induction fuel as [|fuel IH]; intros path trash_file j w; simpl; run.
  - by destruct (lexists (os w) trash_file).
  - destruct (lexists (os w) trash_file); [|done].
    case_bool_decide; [done|]. apply IH.
Qed.

Lemma trash_file_for_done path w t w' :
  trash_file_for path w = Done t w' → w' = w.
Proof.
  intros H. pose proof (next_trash_file_pure 101 path (trash_name path) 0 w) as Hp.
  unfold trash_file_for in H. fold (trash_name path) in H. by rewrite H in Hp.
Qed.

Lemma trash_file_for_raised path w e w' :
  trash_file_for path w = Raised e w' → w' = w.
Proof.
  intros H. pose proof (next_trash_file_pure 101 path (trash_name path) 0 w) as Hp.
  unfold trash_file_for in H. fold (trash_name path) in H. by rewrite H in Hp.
Qed.

(** One turn of the loop. *)
Lemma rename_to_trash_S fuel path counter w :
  rename_to_trash (S fuel) path counter w =
  match trash_file_for path w with
  | Done trash_file _ =>
      match fs_rename (os w) path trash_file with
      | (None, o') => Done 1%N (record_in_index trash_file (set_os o' w))
      | (Some _, o') =>
          if bool_decide (3 < counter + 1)%Z
          then Raised (runtime_error ("Could not delete file " +:+ to_string path))
                      (set_os o' w)
          else rename_to_trash fuel path (counter + 1)
                 (set_os (sleep_for (Z.to_nat ((counter + 1) * 2)) o') w)
      end
  | Raised e _ => Raised e w
  | Hangs => Hangs
  end.
Proof.
  cbn [rename_to_trash]. unfold mbind at 1, M_bind at 1.
  destruct (trash_file_for path w) as [t w1|e w1|] eqn:Ht; [| |done].
  - apply trash_file_for_done in Ht as ->. run.
    destruct (fs_rename (os w) path t) as [[e|] o'] eqn:Hr; run.
    + case_bool_decide; done.
    + unfold record_in_index, trash_index, trash_txt_of, open_ofstream. run.
      by destruct (ofstream_open _ _ _).
  - by apply trash_file_for_raised in Ht as ->.
Qed.

#[local] Arguments rename_to_trash : simpl never.

Lemma fs_rename_failed o from to e o' :
  fs_rename o from to = (Some e, o') → o' = o.
Proof.
  unfold fs_rename. intros H.
  repeat (case_match; simplify_eq); done.
Qed.

Lemma fs_remove_failed o path removed e o' :
  fs_remove o path = (removed, Some e, o') → o' = o.
Proof. unfold fs_remove. intros H. repeat (case_match; simplify_eq); done. Qed.

Lemma fs_remove_all_failed o path count e o' :
  fs_remove_all o path = (count, Some e, o') → o' = o.
Proof. unfold fs_remove_all. intros H. repeat (case_match; simplify_eq); done. Qed.

Lemma remove_directly_failed o path result e o' :
  remove_directly o path = (result, Some e, o') → o' = o.
Proof.
  unfold remove_directly. intros H. destruct (fs_is_directory o path).
  - eauto using fs_remove_all_failed.
  - destruct (fs_remove o path) as [[removed ec] o1] eqn:Hr. simplify_eq.
    eauto using fs_remove_failed.
Qed.

Lemma rename_to_trash_retry fuel path counter w :
  rename_fails path w →
  rename_to_trash (S fuel) path counter w =
  if bool_decide (3 < counter + 1)%Z
  then Raised (runtime_error ("Could not delete file " +:+ to_string path)) w
  else rename_to_trash fuel path (counter + 1)
         (asleep (Z.to_nat ((counter + 1) * 2)) w).
Proof.
  intros (t & e & Ht & Hr). rewrite rename_to_trash_S, Ht.
  destruct (fs_rename (os w) path t) as [ec o'] eqn:Hf. simpl in Hr. subst ec.
  apply fs_rename_failed in Hf as ->. by rewrite set_os_os.
Qed.

Lemma remove_or_rename_failed_directly path w result e o' :
  lexists (os w) path = true →
  remove_directly (os w) path = (result, Some e, o') →
  remove_or_rename path w = rename_to_trash 4 path 0 w.
Proof.
  intros H Hr. unfold remove_or_rename. run. rewrite H, Hr. simpl.
  apply remove_directly_failed in Hr as ->. by rewrite set_os_os.
Qed.

Lemma remove_or_rename_four_failures path w result e o' :
  lexists (os w) path = true →
  remove_directly (os w) path = (result, Some e, o') →
  rename_fails path w →
  rename_fails path (asleep 2 w) →
  rename_fails path (asleep 4 (asleep 2 w)) →
  rename_fails path (asleep 6 (asleep 4 (asleep 2 w))) →
  remove_or_rename path w
  = Raised (runtime_error ("Could not delete file " +:+ to_string path))
           (asleep 6 (asleep 4 (asleep 2 w)))
  ∧ slept (os (asleep 6 (asleep 4 (asleep 2 w)))) = (slept (os w) ++ [2; 4; 6]%nat)%list
  ∧ clock (os (asleep 6 (asleep 4 (asleep 2 w)))) = (clock (os w) + 12)%nat.
Proof.
  intros H Hr H0 H1 H2 H3. split; [|split].
  - erewrite remove_or_rename_failed_directly by done.
    rewrite rename_to_trash_retry by done. simpl.
    rewrite rename_to_trash_retry by done. simpl.
    rewrite rename_to_trash_retry by done. simpl.
    rewrite rename_to_trash_retry by done. simpl. done.
  - simpl. by rewrite <- !app_assoc.
  - simpl. lia.
Qed.



Lemma backoff_0 k : (k ≤ 3)%nat → backoff 0 k = take k [2; 4; 6]%nat.
Proof. intros H. by repeat (destruct k as [|k]; [done|]; try lia). Qed.

Lemma rename_to_trash_done path fuel : ∀ counter w n w',
  (counter ≤ 3)%Z →
  rename_to_trash fuel path counter w = Done n w' →
  n = 1%N ∧
  ∃ k trash_file o_r,
    (counter + Z.of_nat k ≤ 3)%Z ∧
    let w1 := napped (backoff counter k) w in
    trash_file_for path w1 = Done trash_file w1 ∧
    fs_rename (os w1) path trash_file = (None, o_r) ∧
    w' = record_in_index trash_file (set_os o_r w1).
Proof.
  induction fuel as [|fuel IH]; intros counter w n w' Hc H; [done|].
  rewrite rename_to_trash_S in H.
  destruct (trash_file_for path w) as [t w1|e w1|] eqn:Ht; [|done|done].
  pose proof (trash_file_for_done _ _ _ _ Ht) as ->.
  destruct (fs_rename (os w) path t) as [[e|] o'] eqn:Hr.
  - case_bool_decide; [done|].
    apply fs_rename_failed in Hr as ->.
    apply IH in H as (-> & k & t' & o_r & Hk & H1 & H2 & H3); [|lia].
    split; [done|]. exists (S k), t', o_r. split; [lia|]. done.
  - simplify_eq. split; [done|]. exists 0%nat, t, o'. split; [lia|]. done.
Qed.

Lemma rename_to_trash_raised path fuel : ∀ counter w e w',
  (counter ≤ 3)%Z →
  rename_to_trash fuel path counter w = Raised e w' →
  ∃ k, (counter + Z.of_nat k ≤ 3)%Z ∧ w' = napped (backoff counter k) w.
Proof.
  induction fuel as [|fuel IH]; intros counter w e w' Hc H; [done|].
  rewrite rename_to_trash_S in H.
  destruct (trash_file_for path w) as [t w1|e1 w1|] eqn:Ht; [| |done].
  - destruct (fs_rename (os w) path t) as [[e2|] o'] eqn:Hr; [|done].
    apply fs_rename_failed in Hr as ->. rewrite set_os_os in H.
    case_bool_decide.
    + simplify_eq. exists 0%nat. split; [lia|done].
    + apply IH in H as (k & Hk & ->); [|lia]. exists (S k). split; [lia|done].
  - simplify_eq. exists 0%nat. split; [lia|done].
Qed.

Lemma rename_to_trash_returns path fuel : ∀ counter w,
  (counter ≤ 3)%Z → (4 ≤ Z.of_nat fuel + counter)%Z →
  rename_to_trash fuel path counter w ≠ Hangs.
Proof.
  induction fuel as [|fuel IH]; intros counter w Hc Hf; [lia|].
  rewrite rename_to_trash_S.
  pose proof (trash_file_for_returns path w) as Hh.
  destruct (trash_file_for path w) as [t w1|e1 w1|]; [|done|done].
  destruct (fs_rename (os w) path t) as [[e2|] o']; [|done].
  case_bool_decide; [done|]. apply IH; lia.
Qed.

(** Neither removal nor renaming nor writing to a stream touches the record
    of sleeps. *)
Lemma fs_rename_slept o from to : slept (fs_rename o from to).2 = slept o.
Proof. unfold fs_rename. by repeat case_match. Qed.

Lemma remove_directly_slept o path : slept (remove_directly o path).2 = slept o.
Proof.
  unfold remove_directly, fs_remove_all, fs_remove. by repeat case_match; simplify_eq.
Qed.

Lemma record_in_index_slept t w : slept (os (record_in_index t w)) = slept (os w).
Proof.
  unfold record_in_index, ofstream_open, ofstream_put.
  by repeat (case_match; simplify_eq; simpl).
Qed.

Lemma napped_slept naps : ∀ w, slept (os (napped naps w)) = (slept (os w) ++ naps)%list.
Proof.
  induction naps as [|n naps IH]; intros w.
  - simpl. by rewrite app_nil_r.
  - change (napped (n :: naps) w) with (napped naps (asleep n w)).
    rewrite IH. simpl. by rewrite <- app_assoc.
Qed.

Lemma remove_or_rename_naps path w w' :
  final_world (remove_or_rename path w) = Some w' →
  ∃ k, (k ≤ 3)%nat ∧ slept (os w') = (slept (os w) ++ take k [2; 4; 6]%nat)%list.
Proof.
  unfold remove_or_rename. run.
  destruct (lexists (os w) path); simpl; [|intros ?; simplify_eq; exists 0%nat; split; [lia|]; simpl; by rewrite app_nil_r].
  pose proof (remove_directly_slept (os w) path) as Hs.
  destruct (remove_directly (os w) path) as [[result [e|]] o'] eqn:Hr; simpl in *.
  - apply remove_directly_failed in Hr as ->. rewrite set_os_os.
    destruct (rename_to_trash 4 path 0 w) as [n w1|e1 w1|] eqn:Hl; simpl; [| |done].
    + intros ?; simplify_eq.
      apply rename_to_trash_done in Hl as (-> & k & t & o_r & Hk & _ & Hren & ->); [|lia].
      exists k. split; [lia|]. rewrite record_in_index_slept. simpl.
      pose proof (fs_rename_slept (os (napped (backoff 0 k) w)) path t) as Hs'.
      rewrite Hren in Hs'. simpl in Hs'. rewrite Hs', napped_slept, backoff_0 by lia. done.
    + intros ?; simplify_eq.
      apply rename_to_trash_raised in Hl as (k & Hk & ->); [|lia].
      exists k. split; [lia|]. rewrite napped_slept, backoff_0 by lia. done.
  - intros ?; simplify_eq. exists 0%nat. split; [lia|]. simpl. by rewrite Hs, app_nil_r.
Qed.

Lemma remove_or_rename_returns path w : remove_or_rename path w ≠ Hangs.
Proof.
  unfold remove_or_rename. run.
  destruct (lexists (os w) path); simpl; [|done].
  destruct (remove_directly (os w) path) as [[result [e|]] o']; simpl; [|done].
  apply rename_to_trash_returns; lia.
Qed.

(** Claim C5.  [remove_or_rename] always returns or throws, having slept
    2, 4 and 6 seconds at most, in this order: the sleep before retry [i] is
    [i] times 2 seconds and there are at most 3 retries.  When the direct
    removal fails and the rename fails at the first attempt and at each of
    the three retries, the call throws "Could not delete file" followed by
    the path, after those three sleeps. *)
Theorem remove_or_rename_backoff path w :
  remove_or_rename path w ≠ Hangs
  ∧ (∀ w', final_world (remove_or_rename path w) = Some w' →
       ∃ k, (k ≤ 3)%nat
            ∧ slept (os w') = (slept (os w) ++ take k [2; 4; 6]%nat)%list)
  ∧ (∀ result e o',
       lexists (os w) path = true →
       remove_directly (os w) path = (result, Some e, o') →
       rename_fails path w →
       rename_fails path (asleep 2 w) →
       rename_fails path (asleep 4 (asleep 2 w)) →
       rename_fails path (asleep 6 (asleep 4 (asleep 2 w))) →
       remove_or_rename path w
       = Raised (runtime_error ("Could not delete file " +:+ to_string path))
                (asleep 6 (asleep 4 (asleep 2 w)))
       ∧ slept (os (asleep 6 (asleep 4 (asleep 2 w))))
         = (slept (os w) ++ [2; 4; 6]%nat)%list
       ∧ clock (os (asleep 6 (asleep 4 (asleep 2 w)))) = (clock (os w) + 12)%nat).
Proof.
  split; [apply remove_or_rename_returns|].
  split; [apply remove_or_rename_naps|].
  intros result e o'. apply remove_or_rename_four_failures.
Qed.

(** ** Text of a file, lines of a text *)

Lemma split_on_cons c x rest :
  has_char c x = false →
  split_on c (x +:+ String c rest) = x :: split_on c rest.
Proof.
  induction x as [|a x IH]; simpl; intros H.
  - by rewrite decide_True.
  - apply orb_false_iff in H as [Ha Hx]. apply bool_decide_eq_false in Ha.
    rewrite decide_False by done. by rewrite IH.
Qed.

Lemma split_on_index_text recs :
  Forall (λ r, has_char "010" r = false) recs →
  split_on "010" (index_text recs) = (recs ++ [""])%list.
Proof.
  induction 1 as [|r recs Hr _ IH]; [done|].
  simpl. unfold LF. rewrite <- IH.
  change (String "010" "" +:+ index_text recs) with (String "010" (index_text recs)).
  by apply split_on_cons.
Qed.

Lemma getlines_index_text recs :
  Forall (λ r, has_char "010" r = false) recs →
  getlines (index_text recs) = recs.
Proof.
  intros H. unfold getlines. rewrite split_on_index_text by done.
  rewrite reverse_app. simpl. by rewrite reverse_involutive.
Qed.

(** ** Following links in a smaller or larger file table *)

Lemma resolve_absent fuel m k : m !! k = None → resolve fuel m k = k.
Proof. intros H. destruct fuel; simpl; by rewrite ?H. Qed.

Lemma resolve_submap fuel : ∀ (m' m : gmap fkey Node) k n,
  m' ⊆ m →
  m' !! resolve fuel m' k = Some n →
  (∀ t, kind n ≠ Symlink t) →
  resolve fuel m k = resolve fuel m' k.
Proof.
  induction fuel as [|fuel IH]; intros m' m k n Hsub Hn Hk; [done|].
  simpl in *. destruct (m' !! k) as [[[c| |t] u r]|] eqn:Hk'.
  - by rewrite (lookup_weaken _ _ _ _ Hk' Hsub).
  - by rewrite (lookup_weaken _ _ _ _ Hk' Hsub).
  - rewrite (lookup_weaken _ _ _ _ Hk' Hsub). eauto.
  - by rewrite Hk' in Hn.
Qed.

Lemma shrunk_refl o : shrunk o o.
Proof. done. Qed.

Lemma shrunk_trans o1 o2 o3 : shrunk o1 o2 → shrunk o2 o3 → shrunk o1 o3.
Proof.
  intros (? & ? & ?) (? & ? & ?). repeat split; [by etrans|congruence..].
Qed.

Lemma shrunk_key_of o o' p : shrunk o o' → key_of o' p = key_of o p.
Proof. intros (_ & Hc & _). unfold key_of, absolute. by rewrite Hc. Qed.

Lemma fs_remove_shrunk o p : shrunk o (fs_remove o p).2.
Proof.
  unfold fs_remove. repeat case_match; simpl; try apply shrunk_refl.
  repeat split. simpl. apply delete_subseteq.
Qed.

Lemma status_shrunk o o' p :
  shrunk o o' → status o' p ≠ ft_not_found → status o p = status o' p.
Proof.
  intros Hs. pose proof Hs as (Hsub & _ & _). unfold status, final_key.
  rewrite (shrunk_key_of _ _ _ Hs).
  destruct (files o' !! resolve SYMLOOP_MAX (files o') (key_of o p))
    as [[[c| |t] u r]|] eqn:Hn; try done; intros _.
  - rewrite (resolve_submap _ _ _ _ _ Hsub Hn) by done.
    by rewrite (lookup_weaken _ _ _ _ Hn Hsub).
  - rewrite (resolve_submap _ _ _ _ _ Hsub Hn) by done.
    by rewrite (lookup_weaken _ _ _ _ Hn Hsub).
Qed.

Lemma fs_exists_status o p : fs_exists o p = false ↔ status o p = ft_not_found.
Proof.
  unfold fs_exists. rewrite bool_decide_eq_false. split.
  - intros H. destruct (decide (status o p = ft_not_found)) as [|Hne]; [done|].
    exfalso. apply H. split; [|done]. unfold status. by repeat case_match.
  - intros -> [_ ?]. done.
Qed.

Lemma fs_exists_shrunk o o' p :
  shrunk o o' → fs_exists o p = false → fs_exists o' p = false.
Proof.
  rewrite !fs_exists_status. intros Hs H.
  destruct (decide (status o' p = ft_not_found)) as [|Hne]; [done|].
  rewrite <- (status_shrunk _ _ _ Hs Hne). done.
Qed.

(** ** Reclaiming what the index lists *)

Lemma descendants_shrunk (m' m : gmap fkey Node) k :
  m' ⊆ m → descendants m k = ∅ → descendants m' k = ∅.
Proof.
  intros Hsub He. apply map_empty. intros i.
  apply map_lookup_filter_None. destruct (m' !! i) as [n|] eqn:Hi; [|by left].
  right. intros n' [= <-] Hu.
  assert (descendants m k !! i = Some n) as Hc.
  { apply map_lookup_filter_Some. split; [|done]. by eapply lookup_weaken. }
  by rewrite He in Hc.
Qed.

Lemma reclaimable_shrunk o o' p :
  shrunk o o' → reclaimable o p → reclaimable o' p.
Proof.
  intros Hs [He|Hr]; [left; eauto using fs_exists_shrunk|].
  pose proof Hs as (Hsub & Hcwd & Hclock).
  unfold fs_remove in Hr.
  destruct (files o !! key_of o p) as [n|] eqn:Hn; [|done].
  destruct (blocked (clock o) n) eqn:Hb; [done|].
  case_bool_decide as Hd; [done|].
  destruct (files o' !! key_of o p) as [n'|] eqn:Hn'.
  - right. unfold fs_remove. rewrite (shrunk_key_of _ _ _ Hs), Hn'.
    assert (n' = n) as -> by (pose proof (lookup_weaken _ _ _ _ Hn' Hsub); congruence).
    rewrite Hclock, Hb. rewrite bool_decide_eq_false_2; [done|].
    intros [Hk Hne]. apply Hd. split; [done|]. intros He. apply Hne.
    eauto using descendants_shrunk.
  - left. apply fs_exists_status. unfold status, final_key.
    rewrite (shrunk_key_of _ _ _ Hs), resolve_absent by done. by rewrite Hn'.
Qed.

Lemma clean_listed_all prefix : ∀ all_files deleted remaining rem o,
  Forall (λ f, reclaimable o (join prefix (of_string f))) all_files →
  ∃ o', clean_listed prefix all_files deleted remaining rem o
        = ((deleted + N.of_nat (length all_files))%N, remaining, rem, o')
        ∧ shrunk o o'.
Proof.
  induction all_files as [|f rest IH]; intros deleted remaining rem o Hall.
  - exists o. simpl. rewrite N.add_0_r. split; [done|apply shrunk_refl].
  - apply Forall_cons in Hall as [Hf Hrest]. simpl.
    destruct (fs_exists o (join prefix (of_string f))) eqn:He; simpl.
    + destruct Hf as [?|Hr]; [congruence|].
      pose proof (fs_remove_shrunk o (join prefix (of_string f))) as Hs.
      destruct (fs_remove o (join prefix (of_string f))) as [[removed ec] o1].
      simpl in *. subst removed.
      destruct (IH (deleted + 1)%N remaining rem o1) as (o' & -> & Hs').
      { eapply Forall_impl; [done|]. intros. by eapply reclaimable_shrunk. }
      exists o'. split; [|by eapply shrunk_trans]. do 3 f_equal. lia.
    + destruct (IH (deleted + 1)%N remaining rem o) as (o' & -> & Hs'); [done|].
      exists o'. split; [|done]. do 3 f_equal. lia.
Qed.

Lemma read_text_node o p c :
  read_text o p = Some c →
  ∃ n, files o !! key_of o p = Some n ∧ kind n ≠ Directory.
Proof.
  unfold read_text, final_key. change SYMLOOP_MAX with (S 39). simpl.
  destruct (files o !! key_of o p) as [[[c'| |t] u r]|] eqn:Hk.
  - eauto.
  - by rewrite Hk.
  - eauto.
  - by rewrite Hk.
Qed.

Lemma read_text_exists o p c : read_text o p = Some c → fs_exists o p = true.
Proof.
  unfold read_text, fs_exists, status. intros H.
  apply bool_decide_eq_true. by repeat case_match.
Qed.

Lemma read_lines_text p w content :
  read_text (os w) p = Some content →
  read_lines p w = Done (drop_trailing_cr <$> getlines content) w.
Proof.
  unfold read_text, read_lines. run. intros H. by repeat case_match; simplify_eq.
Qed.

Lemma fs_remove_free_gone o o' p :
  shrunk o o' →
  (∀ n, files o !! key_of o p = Some n → blocked (clock o) n = false ∧ kind n ≠ Directory) →
  lexists (fs_remove o' p).2 p = false.
Proof.
  intros Hs Hfree. pose proof Hs as (Hsub & Hcwd & Hclock).
  apply lexists_false. unfold fs_remove.
  destruct (files o' !! key_of o' p) as [n|] eqn:Hn; [|done].
  rewrite (shrunk_key_of _ _ _ Hs) in Hn.
  destruct (Hfree n) as [Hb Hk]; [by eapply lookup_weaken|].
  rewrite Hclock, Hb. rewrite bool_decide_eq_false_2 by (by intros [? _]).
  simpl. by rewrite key_of_set_files, lookup_delete_eq.
Qed.

(** Claim C8, as the code has it.  When the index holds the [N] paths that
    were appended to it, none of them with a line feed in it, and each listed
    path is gone or is removed by [fs::remove], which is what the reclaimer
    calls and which does not remove a directory that has entries, and the
    index itself is not held open, the shallow [clean_trash_files] returns
    [N] and the index is gone.  That each quarantine adds one record to the
    list is [record_in_index_extends]. *)
Theorem clean_trash_files_round_trip prefix w recs :
  read_text (os w) (trash_txt_of prefix) = Some (index_text recs) →
  Forall (λ r, has_char "010" r = false) recs →
  Forall (λ r, reclaimable (os w) (join prefix (of_string (drop_trailing_cr r)))) recs →
  (∀ n, files (os w) !! key_of (os w) (trash_txt_of prefix) = Some n →
        blocked (clock (os w)) n = false) →
  ∃ w', clean_trash_files prefix false w = Done (N.of_nat (length recs)) w'
        ∧ lexists (os w') (trash_txt_of prefix) = false.
Proof.
  intros Htext Hlf Hrec Hfree.
  destruct (clean_listed_all prefix (drop_trailing_cr <$> recs) 0 0 [] (os w))
    as (o' & Hloop & Hs).
  { by apply Forall_fmap. }
  exists (set_os (fs_remove o' (trash_txt_of prefix)).2 w). split.
  - unfold clean_trash_files. unfold mbind at 1, M_bind at 1. simpl.
    rewrite (read_text_exists _ _ _ Htext). simpl.
    unfold mbind at 1, M_bind at 1. unfold mbind at 1, M_bind at 1.
    rewrite (read_lines_text _ _ _ Htext), getlines_index_text by done.
    rewrite Hloop. run. by rewrite length_fmap.
  - simpl. eapply fs_remove_free_gone; [done|]. intros n Hn.
    split; [by apply Hfree|].
    destruct (read_text_node _ _ _ Htext) as (n' & Hn' & Hk). congruence.
Qed.

(** ** What a quarantine adds to the index *)

Lemma resolve_insert fuel : ∀ (m : gmap fkey Node) k0 nd,
  (∀ t, kind nd ≠ Symlink t) →
  (∀ n t, m !! resolve fuel m k0 = Some n → kind n ≠ Symlink t) →
  resolve fuel (<[resolve fuel m k0 := nd]> m) k0 = resolve fuel m k0.
Proof.
  induction fuel as [|fuel IH]; intros m k0 nd Hnd Hk; [done|].
  simpl in *. destruct (m !! k0) as [[[c| |t] u r]|] eqn:Hk0.
  - by rewrite lookup_insert_eq; destruct nd as [[] ? ?]; try done; edestruct Hnd.
  - by rewrite lookup_insert_eq; destruct nd as [[] ? ?]; try done; edestruct Hnd.
  - assert (k0 ≠ resolve fuel m t) as Hne.
    { intros ->. eapply Hk; [done|]. done. }
    rewrite lookup_insert_ne, Hk0 by done. by apply IH.
  - by rewrite lookup_insert_eq; destruct nd as [[] ? ?]; try done; edestruct Hnd.
Qed.

#[local] Arguments resolve : simpl never.

Lemma final_key_set_files o f p :
  final_key (set_files f o) p = resolve SYMLOOP_MAX f (key_of o p).
Proof. done. Qed.

Lemma resolve_S (fuel : nat) (m : gmap fkey Node) (k : fkey) :
  resolve (S fuel) m k
  = match m !! k with
    | Some (mk_node (Symlink t) _ _) => resolve fuel m t
    | _ => k
    end.
Proof. done. Qed.

Lemma final_key_here o p n :
  files o !! key_of o p = Some n → (∀ t, kind n ≠ Symlink t) →
  final_key o p = key_of o p.
Proof.
  intros Hk Hn. unfold final_key. change SYMLOOP_MAX with (S 39).
  rewrite resolve_S, Hk. destruct n as [[| |t] ? ?]; [done|done|]. by destruct (Hn t).
Qed.

Lemma final_key_absent o p :
  files o !! key_of o p = None → final_key o p = key_of o p.
Proof. intros Hk. unfold final_key. by rewrite resolve_absent. Qed.

Lemma ofstream_open_opens p mode o :
  (ofstream_open p mode o).1 = if stream_opens o p then Some (final_key o p) else None.
Proof.
  unfold ofstream_open, stream_opens.
  destruct (files o !! final_key o p) as [[[c| |t] u r]|]; try done.
  by destruct (can_create o (final_key o p)).
Qed.

Lemma ofstream_open_closed p mode o :
  stream_opens o p = false → ofstream_open p mode o = (None, o).
Proof.
  unfold ofstream_open, stream_opens.
  destruct (files o !! final_key o p) as [[[c| |t] u r]|]; try done.
  by intros ->.
Qed.

Lemma stream_opens_regular o p :
  stream_opens o p = true →
  ∀ n, files o !! final_key o p = Some n → ∃ c, kind n = Regular c.
Proof.
  unfold stream_opens. intros H n Hn. rewrite Hn in H.
  destruct n as [[c| |t] u r]; [by exists c|done|done].
Qed.

Lemma record_in_index_text trash_file w :
  stream_opens (os w) (trash_index w) = true →
  read_text (os (record_in_index trash_file w)) (trash_index w)
  = Some (default "" (read_text (os w) (trash_index w)) +:+ index_line trash_file w).
Proof.
  intros Hopen. pose proof (stream_opens_regular _ _ Hopen) as Hreg.
  unfold stream_opens in Hopen.
  unfold record_in_index, index_line, read_text, ofstream_open.
  assert (∀ nd, (∀ t, kind nd ≠ Symlink t) →
            resolve SYMLOOP_MAX (<[final_key (os w) (trash_index w) := nd]> (files (os w)))
              (key_of (os w) (trash_index w)) = final_key (os w) (trash_index w)) as Hres.
  { intros nd Hnd. apply resolve_insert; [done|]. intros n t Hn.
    destruct (Hreg n Hn) as [c ->]. done. }
  destruct (files (os w) !! final_key (os w) (trash_index w))
    as [[[c| |t] u r]|] eqn:Hk.
  - cbn [ofstream_put fst snd]. rewrite Hk. cbn [os set_os].
    rewrite final_key_set_files. cbn [files set_files].
    rewrite Hres by done. by rewrite lookup_insert_eq.
  - done.
  - done.
  - rewrite Hopen.
    cbn [ofstream_put fst snd files set_files]. rewrite lookup_insert_eq.
    cbn [os set_os]. rewrite final_key_set_files. cbn [files set_files].
    rewrite insert_insert_eq. rewrite Hres by done. by rewrite lookup_insert_eq.
Qed.

(** When the stream cannot be opened nothing is recorded. *)
Lemma record_in_index_closed trash_file w :
  stream_opens (os w) (trash_index w) = false → record_in_index trash_file w = w.
Proof.
  intros H. unfold record_in_index. rewrite ofstream_open_closed by done.
  cbn [ofstream_put]. apply set_os_os.
Qed.

Lemma append_assoc (a b c : string) : (a +:+ b) +:+ c = a +:+ b +:+ c.
Proof.
  induction a as [|x a IH]; [done|].
  change (String x ((a +:+ b) +:+ c) = String x (a +:+ b +:+ c)). by rewrite IH.
Qed.

Lemma append_empty_r (a : string) : a +:+ "" = a.
Proof.
  induction a as [|x a IH]; [done|].
  change (String x (a +:+ "") = String x a). by rewrite IH.
Qed.

Lemma index_text_snoc recs r :
  index_text (recs ++ [r]) = index_text recs +:+ r +:+ LF.
Proof.
  induction recs as [|x recs IH].
  - change (r +:+ LF +:+ "" = r +:+ LF). by rewrite append_empty_r.
  - change (x +:+ LF +:+ index_text (recs ++ [r])
            = (x +:+ LF +:+ index_text recs) +:+ r +:+ LF).
    by rewrite IH, !append_assoc.
Qed.

(** Each quarantine adds its record to the list the index holds. *)
Lemma record_in_index_extends trash_file w recs :
  read_text (os w) (trash_index w) = Some (index_text recs)
  ∨ (files (os w) !! final_key (os w) (trash_index w) = None
     ∧ can_create (os w) (final_key (os w) (trash_index w)) = true ∧ recs = []) →
  read_text (os (record_in_index trash_file w)) (trash_index w)
  = Some (index_text
            (recs ++ [to_string (fs_relative (ofstream_open (trash_index w) ios_app (os w)).2
                                   trash_file (target_prefix (ctx w)))])).
Proof.
  intros H. rewrite index_text_snoc, record_in_index_text.
  - unfold index_line. destruct H as [->|(Hn & _ & ->)]; [done|].
    unfold read_text. by rewrite Hn.
  - unfold stream_opens. destruct H as [H|(Hn & Hc & _)]; [|by rewrite Hn].
    unfold read_text in H. by repeat case_match.
Qed.

(** ** After a quarantine *)

Lemma move_tree_old_gone (src dst : fkey) (m : gmap fkey Node) :
  ¬ dst `prefix_of` src → move_tree src dst m !! src = None.
Proof.
  intros Hn. unfold move_tree. apply lookup_union_None. split.
  - apply not_elem_of_list_to_map. rewrite <- list_fmap_compose.
    intros ([k n] & Hold & Hin)%list_elem_of_fmap. simpl in Hold.
    apply Hn. rewrite Hold. unfold rekey. by apply prefix_app_r.
  - apply map_lookup_filter_None. right. intros n _ Hp. by apply Hp.
Qed.

Lemma fs_rename_old_gone o from to o' :
  key_of o from ≠ key_of o to →
  fs_rename o from to = (None, o') →
  files o' !! key_of o from = None ∧ cwd o' = cwd o.
Proof.
  intros Hne. unfold fs_rename.
  destruct (files o !! key_of o from) as [n|]; [|done].
  rewrite decide_False by done.
  case_bool_decide as Hp; [done|].
  destruct (held_at (clock o) (pinned n)); [done|].
  case_bool_decide; [done|]. intros [= <-]. split; [|done]. simpl.
  apply move_tree_old_gone. tauto.
Qed.

Lemma next_trash_file_is_free fuel : ∀ path trash_file j w t w',
  next_trash_file fuel path trash_file j w = Done t w' → lexists (os w) t = false.
Proof.
  induction fuel as [|fuel IH]; intros path trash_file j w t w'; simpl; run.
  - destruct (lexists (os w) trash_file) eqn:H; [done|]. by intros [= <- <-].
  - destruct (lexists (os w) trash_file) eqn:H; [|by intros [= <- <-]].
    case_bool_decide; [done|]. apply IH.
Qed.

Lemma trash_file_for_is_free path w t w' :
  trash_file_for path w = Done t w' → lexists (os w) t = false.
Proof. apply next_trash_file_is_free. Qed.

Lemma napped_os naps : ∀ w,
  files (os (napped naps w)) = files (os w) ∧ cwd (os (napped naps w)) = cwd (os w)
  ∧ ctx (napped naps w) = ctx w.
Proof.
  induction naps as [|n naps IH]; intros w; [done|].
  change (napped (n :: naps) w) with (napped naps (asleep n w)).
  destruct (IH (asleep n w)) as (-> & -> & ->). done.
Qed.

(** Recording a quarantine changes the index file and nothing else, and the
    index stays where it was. *)
Lemma record_in_index_other t w k :
  k ≠ final_key (os (record_in_index t w)) (trash_index w) →
  files (os (record_in_index t w)) !! k = files (os w) !! k.
Proof.
  unfold record_in_index, ofstream_open.
  assert (∀ nd, (∀ t, kind nd ≠ Symlink t) →
            (∀ n t, files (os w) !! final_key (os w) (trash_index w) = Some n →
                    kind n ≠ Symlink t) →
            resolve SYMLOOP_MAX (<[final_key (os w) (trash_index w) := nd]> (files (os w)))
              (key_of (os w) (trash_index w)) = final_key (os w) (trash_index w)) as Hres.
  { intros nd Hnd Hk. by apply resolve_insert. }
  destruct (files (os w) !! final_key (os w) (trash_index w))
    as [[[c| |tg] u r]|] eqn:Hk.
  - cbn [ofstream_put fst snd]. rewrite Hk. cbn [os set_os].
    rewrite final_key_set_files. cbn [files set_files].
    rewrite Hres; [|done|by intros ? ? [= <-]].
    intros Hne. by rewrite lookup_insert_ne.
  - done.
  - done.
  - destruct (can_create (os w) (final_key (os w) (trash_index w))); [|done].
    cbn [ofstream_put fst snd files set_files]. rewrite lookup_insert_eq.
    cbn [os set_os]. rewrite final_key_set_files. cbn [files set_files].
    rewrite insert_insert_eq. rewrite Hres; [|done|done].
    intros Hne. by rewrite lookup_insert_ne.
Qed.

Lemma record_in_index_cwd t w : cwd (os (record_in_index t w)) = cwd (os w).
Proof.
  unfold record_in_index, ofstream_open, ofstream_put.
  by repeat (case_match; simplify_eq; simpl).
Qed.

Lemma remove_or_rename_quarantined_gone path w result e o' n w' :
  lexists (os w) path = true →
  remove_directly (os w) path = (result, Some e, o') →
  remove_or_rename path w = Done n w' →
  key_of (os w) path ≠ final_key (os w') (trash_index w) →
  lexists (os w') path = false.
Proof.
  intros H Hr Hd Hidx. erewrite remove_or_rename_failed_directly in Hd by done.
  apply rename_to_trash_done in Hd as (-> & k & t & o_r & Hk & H1 & H2 & ->); [|lia].
  simpl in *. set (w1 := napped (backoff 0 k) w) in *.
  destruct (napped_os (backoff 0 k) w) as (Hf & Hc & Hctx). fold w1 in Hf, Hc, Hctx.
  assert (∀ p, key_of (os w1) p = key_of (os w) p) as Hkey.
  { intros p. unfold key_of, absolute. by rewrite Hc. }
  assert (trash_index (set_os o_r w1) = trash_index w) as Hti.
  { unfold trash_index. simpl. by rewrite Hctx. }
  apply trash_file_for_is_free in H1.
  assert (key_of (os w1) path ≠ key_of (os w1) t) as Hne.
  { intros Heq. apply lexists_false in H1. apply lexists_true in H as [nd Hnd].
    rewrite <- Heq, Hkey, Hf in H1. congruence. }
  destruct (fs_rename_old_gone _ _ _ _ Hne H2) as [Hgone Hcwd].
  apply lexists_false.
  assert (key_of (os (record_in_index t (set_os o_r w1))) path = key_of (os w) path) as ->.
  { unfold key_of, absolute. by rewrite record_in_index_cwd; simpl; rewrite Hcwd, Hc. }
  rewrite record_in_index_other; [by rewrite <- Hkey|].
  by rewrite Hti.
Qed.

(** Claim C7.  On a path that does not exist under the weak-existence test
    [remove_or_rename] returns 0 at once and the world is as it was.  That
    test is true of every symbolic link, dangling or not.  Hence a second
    call on a path the first call has removed returns 0 and changes nothing:
    so it is after a direct removal, and after a quarantine too unless the
    path is the very file the trash index is written to. *)
Theorem remove_or_rename_idempotent path w :
  (lexists (os w) path = false → remove_or_rename path w = Done 0%N w) ∧
  (∀ nd t, files (os w) !! key_of (os w) path = Some nd → kind nd = Symlink t →
     lexists (os w) path = true) ∧
  (∀ result o',
     lexists (os w) path = true →
     remove_directly (os w) path = (result, None, o') →
     remove_or_rename path w = Done result (set_os o' w) ∧
     remove_or_rename path (set_os o' w) = Done 0%N (set_os o' w)) ∧
  (∀ result e o' n w',
     lexists (os w) path = true →
     remove_directly (os w) path = (result, Some e, o') →
     remove_or_rename path w = Done n w' →
     key_of (os w) path ≠ final_key (os w') (trash_index w) →
     remove_or_rename path w' = Done 0%N w').
Proof.
  split; [apply remove_or_rename_absent|]. split; [|split].
  - intros nd t Hn Hk. apply lexists_true. by rewrite Hn.
  - intros result o' H Hr. split; [by apply remove_or_rename_direct|].
    apply remove_or_rename_absent. simpl. eauto using remove_directly_gone.
  - intros result e o' n w' H Hr Hd Hidx.
    apply remove_or_rename_absent. eauto using remove_or_rename_quarantined_gone.
Qed.

(** ** The name and the line of a quarantine *)

Lemma next_trash_file_names fuel : ∀ path trash_file j w t w',
  next_trash_file fuel path trash_file j w = Done t w' →
  t = trash_file
  ∨ (lexists (os w) trash_file = true
     ∧ ∃ i, (j ≤ i < 100)%nat ∧ t = numbered_trash_name path i).
Proof.
  induction fuel as [|fuel IH]; intros path trash_file j w t w'; simpl; run.
  - destruct (lexists (os w) trash_file) eqn:H; [done|]. intros [= <- <-]. by left.
  - destruct (lexists (os w) trash_file) eqn:H; [|intros [= <- <-]; by left].
    case_bool_decide as Hj; [done|]. intros Hn. right. split; [done|].
    apply IH in Hn as [->|(_ & i & Hi & ->)].
    + exists j. split; [lia|done].
    + exists i. split; [lia|done].
Qed.

Lemma trash_file_for_names path w t w' :
  trash_file_for path w = Done t w' →
  t = trash_name path
  ∨ (lexists (os w) (trash_name path) = true
     ∧ ∃ i, (i < 100)%nat ∧ t = numbered_trash_name path i).
Proof.
  intros H. apply next_trash_file_names in H as [->|(Hl & i & Hi & ->)]; [by left|].
  right. split; [done|]. exists i. split; [lia|done].
Qed.

Lemma norm_step_plain stack c :
  Forall (λ x, x ≠ "" ∧ x ≠ "." ∧ x ≠ "..") stack →
  Forall (λ x, x ≠ "" ∧ x ≠ "." ∧ x ≠ "..") (norm_step stack c).
Proof.
  intros H. unfold norm_step.
  destruct (decide (c = "" ∨ c = ".")) as [|Hn]; [done|].
  destruct (decide (c = "..")) as [|Hd].
  - destruct H; [done|]. done.
  - constructor; [|done]. tauto.
Qed.

(** A key has no empty element, no dot and no dot-dot. *)
Lemma normalise_plain l :
  Forall (λ x, x ≠ "" ∧ x ≠ "." ∧ x ≠ "..") (normalise l).
Proof.
  unfold normalise. apply Forall_reverse.
  assert (∀ stack, Forall (λ x, x ≠ "" ∧ x ≠ "." ∧ x ≠ "..") stack →
                   Forall (λ x, x ≠ "" ∧ x ≠ "." ∧ x ≠ "..") (foldl norm_step stack l))
    as H.
  { induction l as [|c l IH]; intros stack Hs; simpl; [done|].
    apply IH. by apply norm_step_plain. }
  by apply H.
Qed.

Lemma mismatch_app (base rel : list string) : mismatch (base ++ rel) base = (rel, []).
Proof.
  induction base as [|x base IH]; simpl; [by destruct rel|].
  by rewrite decide_True.
Qed.

(** The relative path of what is below the base: the elements after it. *)
Lemma lexically_relative_under (base rel : list string) :
  rel ≠ [] → head rel ≠ Some "" →
  lexically_relative (base ++ rel) base = mk_path false rel.
Proof.
  intros Hne Hh. unfold lexically_relative. rewrite mismatch_app.
  destruct rel as [|x rel]; [done|]. simpl.
  rewrite bool_decide_eq_false_2; [done|].
  intros [?|[= ->]]; [done|]. by apply Hh.
Qed.

(** For a path that is not a symbolic link no link is followed. *)
Lemma fs_relative_here o p base nd :
  files o !! key_of o p = Some nd → (∀ t, kind nd ≠ Symlink t) →
  fs_relative o p base = lexically_relative (key_of o p) (weakly_canonical o base).
Proof.
  intros Hk Hn. unfold fs_relative. f_equal. unfold weakly_canonical.
  rewrite (final_key_here _ _ _ Hk Hn). by destruct (fs_exists o p).
Qed.

Lemma move_tree_new (old new : fkey) (m : gmap fkey Node) n :
  m !! old = Some n → move_tree old new m !! new = Some n.
Proof.
  intros Hold. unfold move_tree. apply lookup_union_Some_l.
  apply elem_of_list_to_map_1'.
  - intros y ([k n'] & Heq & Hin)%list_elem_of_fmap.
    apply elem_of_map_to_list, map_lookup_filter_Some in Hin as [Hm [tl Htl]].
    simpl in Htl. subst k. unfold prod_map, rekey in Heq. simpl in Heq.
    rewrite drop_app_length in Heq. injection Heq as Hn Hy.
    assert (tl = []) as ->.
    { apply (f_equal length) in Hn. rewrite length_app in Hn.
      destruct tl; [done|simpl in Hn; lia]. }
    rewrite app_nil_r in Hm. congruence.
  - apply list_elem_of_fmap. exists (old, n). split.
    + unfold prod_map, rekey. simpl. by rewrite drop_all, app_nil_r.
    + apply elem_of_map_to_list, map_lookup_filter_Some. by split.
Qed.

(** A rename that succeeds puts the entry under its new name. *)
Lemma fs_rename_moved o from to o' :
  fs_rename o from to = (None, o') →
  files o' !! key_of o to = files o !! key_of o from ∧ cwd o' = cwd o.
Proof.
  unfold fs_rename.
  destruct (files o !! key_of o from) as [n|] eqn:Hn; [|done].
  destruct (decide (key_of o from = key_of o to)) as [Heq|Hne].
  { intros [= <-]. by rewrite <- Heq. }
  case_bool_decide; [done|].
  destruct (held_at (clock o) (pinned n)); [done|].
  case_bool_decide; [done|]. intros [= <-]. split; [|done]. simpl.
  by apply move_tree_new.
Qed.

Lemma ofstream_open_app_keeps p o k nd :
  files o !! k = Some nd → files (ofstream_open p ios_app o).2 !! k = Some nd.
Proof.
  intros Hk. unfold ofstream_open.
  destruct (files o !! final_key o p) as [[[c| |t] u r]|] eqn:Hf; simpl; try done.
  destruct (can_create o (final_key o p)); simpl; [|done].
  rewrite lookup_insert_ne; [done|]. intros <-. congruence.
Qed.

Lemma ofstream_open_cwd p mode o : cwd (ofstream_open p mode o).2 = cwd o.
Proof. unfold ofstream_open. by repeat (case_match; simpl). Qed.

(** The line of a quarantined entry that is not a symbolic link and lies
    below the target prefix: the elements of its quarantine path after those
    of the prefix. *)
Lemma index_line_under trash_file w nd rel :
  files (os w) !! key_of (os w) trash_file = Some nd →
  (∀ t, kind nd ≠ Symlink t) →
  rel ≠ [] →
  key_of (os w) trash_file
  = (weakly_canonical (ofstream_open (trash_index w) ios_app (os w)).2
       (target_prefix (ctx w)) ++ rel)%list →
  index_line trash_file w = join_elems rel +:+ LF.
Proof.
  intros Hk Hn Hne Hrel. unfold index_line.
  set (o1 := (ofstream_open (trash_index w) ios_app (os w)).2) in *.
  assert (key_of o1 trash_file = key_of (os w) trash_file) as Hkey.
  { unfold key_of, absolute. subst o1. by rewrite ofstream_open_cwd. }
  assert (files o1 !! key_of o1 trash_file = Some nd) as Hk1.
  { rewrite Hkey. by apply ofstream_open_app_keeps. }
  rewrite (fs_relative_here _ _ _ _ Hk1 Hn), Hkey, Hrel.
  rewrite lexically_relative_under; [done|done|].
  pose proof (normalise_plain (elems (absolute (os w) trash_file))) as Hp.
  fold (key_of (os w) trash_file) in Hp. rewrite Hrel in Hp.
  apply Forall_app in Hp as [_ Hp]. destruct rel as [|x rel]; [done|].
  apply Forall_cons in Hp as [[Hx _] _]. simpl. by intros [= ->].
Qed.

(** The loop returns 1 at the first attempt at which the rename succeeds. *)
Lemma rename_to_trash_succeeds path t o_r k : ∀ fuel counter w,
  (k < fuel)%nat → (counter + Z.of_nat k ≤ 3)%Z →
  (∀ j, (j < k)%nat → rename_fails path (napped (backoff counter j) w)) →
  trash_file_for path (napped (backoff counter k) w)
  = Done t (napped (backoff counter k) w) →
  fs_rename (os (napped (backoff counter k) w)) path t = (None, o_r) →
  rename_to_trash fuel path counter w
  = Done 1%N (record_in_index t (set_os o_r (napped (backoff counter k) w))).
Proof.
  induction k as [|k IH]; intros fuel counter w Hf Hc Hfail Ht Hr.
  - destruct fuel as [|fuel]; [lia|]. simpl in Ht, Hr |- *.
    by rewrite rename_to_trash_S, Ht, Hr.
  - destruct fuel as [|fuel]; [lia|].
    rewrite rename_to_trash_retry by (apply (Hfail 0%nat); lia).
    rewrite bool_decide_eq_false_2 by lia.
    apply IH; [lia|lia| |done|done].
    intros j Hj. apply (Hfail (S j)). lia.
Qed.

(** Claim C3, as the code has it.  When the direct removal of an existing
    path has failed, [remove_or_rename] returns 1 at the first of its four
    attempts at which the rename to the quarantine name succeeds, and returns
    only so: at the first attempt or after some of the sleeps the path was
    renamed to its quarantine name, a name that was free, the plain one
    unless that was taken; the entry is then under that name and no longer
    under its own.  One line, [fs::relative] of the quarantine path and the
    target prefix followed by a line feed, was written to a stream opened for
    appending on the trash index.  Where that stream opens (the index is a
    regular file, or is not there and its directory is) the text of the index
    is then what it was followed by that line; where it does not open nothing
    is recorded, and the call returns 1 all the same.  For an entry that is
    not a symbolic link and lies below the target prefix the line is the
    quarantine path relative to the prefix. *)
Theorem remove_or_rename_quarantines path w result e o' :
  lexists (os w) path = true →
  remove_directly (os w) path = (result, Some e, o') →
  (∀ k trash_file o_r,
     (k ≤ 3)%nat →
     let w1 := napped (take k [2; 4; 6]%nat) w in
     (∀ j, (j < k)%nat → rename_fails path (napped (take j [2; 4; 6]%nat) w)) →
     trash_file_for path w1 = Done trash_file w1 →
     fs_rename (os w1) path trash_file = (None, o_r) →
     remove_or_rename path w = Done 1%N (record_in_index trash_file (set_os o_r w1)))
  ∧ ∀ n w',
  remove_or_rename path w = Done n w' →
  n = 1%N ∧
  ∃ k trash_file o_r,
    (k ≤ 3)%nat ∧
    let w1 := napped (take k [2; 4; 6]%nat) w in
    let w_r := set_os o_r w1 in
    let index := trash_index w_r in
    let line := index_line trash_file w_r in
    trash_file_for path w1 = Done trash_file w1 ∧
    lexists (os w1) trash_file = false ∧
    (trash_file = trash_name path
     ∨ (lexists (os w1) (trash_name path) = true
        ∧ ∃ i, (i < 100)%nat ∧ trash_file = numbered_trash_name path i)) ∧
    fs_rename (os w1) path trash_file = (None, o_r) ∧
    files o_r !! key_of (os w1) path = None ∧
    files o_r !! key_of (os w1) trash_file = files (os w) !! key_of (os w) path ∧
    w' = record_in_index trash_file w_r ∧
    (stream_opens o_r index = true →
     read_text (os w') index = Some (default "" (read_text o_r index) +:+ line)) ∧
    (stream_opens o_r index = false → w' = w_r) ∧
    ((∀ nd t, files (os w) !! key_of (os w) path = Some nd → kind nd ≠ Symlink t) →
     ∀ rel, rel ≠ [] →
       key_of (os w1) trash_file
       = (weakly_canonical (ofstream_open index ios_app o_r).2 (target_prefix (ctx w))
          ++ rel)%list →
       line = join_elems rel +:+ LF).
Proof.
  intros H Hr. split.
  { intros k t o_r Hk w1 Hfail Ht Hren.
    erewrite remove_or_rename_failed_directly by done. subst w1.
    rewrite <- (backoff_0 k) in * by done.
    apply (rename_to_trash_succeeds path t o_r k); [lia|lia| |done|done].
    intros j Hj. specialize (Hfail j Hj). by rewrite backoff_0 by lia. }
  intros n w' Hd. erewrite remove_or_rename_failed_directly in Hd by done.
  apply rename_to_trash_done in Hd as (-> & k & t & o_r & Hk & H1 & H2 & H3); [|lia].
  split; [done|]. exists k, t, o_r. rewrite backoff_0 in * by lia.
  split; [lia|]. cbv zeta in *.
  set (w1 := napped (take k [2; 4; 6]%nat) w) in *.
  destruct (napped_os (take k [2; 4; 6]%nat) w) as (Hf & Hc & Hctx).
  fold w1 in Hf, Hc, Hctx.
  assert (∀ p, key_of (os w1) p = key_of (os w) p) as Hkey.
  { intros p. unfold key_of, absolute. by rewrite Hc. }
  pose proof (trash_file_for_is_free _ _ _ _ H1) as Hfree.
  assert (key_of (os w1) path ≠ key_of (os w1) t) as Hne.
  { intros Heq. apply lexists_false in Hfree. apply lexists_true in H as [nd Hnd].
    rewrite <- Heq, Hkey, Hf in Hfree. congruence. }
  destruct (fs_rename_old_gone _ _ _ _ Hne H2) as [Hgone Hcwd].
  destruct (fs_rename_moved _ _ _ _ H2) as [Hmoved _].
  rewrite Hf, (Hkey path) in Hmoved.
  split; [done|]. split; [done|]. split; [by apply trash_file_for_names in H1|].
  split; [done|]. split; [done|]. split; [done|]. split; [done|].
  split; [|split].
  - intros Hopen. subst w'. by apply record_in_index_text.
  - intros Hclosed. subst w'. by apply record_in_index_closed.
  - intros Hnl rel Hrel Hunder.
    apply lexists_true in H as [nd Hnd].
    apply (index_line_under t (set_os o_r w1) nd rel).
    + cbn [os set_os]. unfold key_of, absolute. rewrite Hcwd.
      fold (absolute (os w1) t). fold (key_of (os w1) t). by rewrite Hmoved.
    + intros tg. by apply (Hnl nd tg).
    + done.
    + cbn [os set_os ctx]. rewrite Hctx.
      unfold key_of at 1, absolute. rewrite Hcwd.
      fold (absolute (os w1) t). fold (key_of (os w1) t). done.
Qed.

(** ** Calls that only touch the operating system *)

Lemma os_only_ret {A} (a : A) : os_only (mret a).
Proof. intros w. exists (os w). by destruct w. Qed.

Lemma os_only_throw {A} e : os_only (@throw A e).
Proof. intros w. exists (os w). by destruct w. Qed.

Lemma os_only_hang {A} : os_only (@hang A).
Proof. by intros w. Qed.

Lemma os_only_bind {A B} (m : M A) (f : A → M B) :
  os_only m → (∀ a, os_only (f a)) → os_only (m ≫= f).
Proof.
  intros Hm Hf w. specialize (Hm w). unfold mbind, M_bind.
  destruct (m w) as [a w1|e w1|]; [|done|done].
  destruct Hm as [o ->]. specialize (Hf a (set_os o w)).
  destruct (f a (set_os o w)) as [b w2|e w2|]; [| |done];
    destruct Hf as [o2 ->]; by exists o2.
Qed.

Lemma os_only_get_os : os_only get_os.
Proof. intros w. exists (os w). by destruct w. Qed.

Lemma os_only_get_ctx : os_only get_ctx.
Proof. intros w. exists (os w). by destruct w. Qed.

Lemma os_only_get_world : os_only get_world.
Proof. intros w. exists (os w). by destruct w. Qed.

Lemma os_only_put_os o : os_only (put_os o).
Proof. intros w. by exists o. Qed.

Create HintDb os_only discriminated.
#[local] Hint Resolve os_only_ret os_only_throw os_only_hang os_only_get_os
  os_only_get_ctx os_only_get_world os_only_put_os : os_only.

Ltac os_only_step :=
  first
    [ solve [eauto 4 with os_only]
    | apply os_only_bind; [|intros ?]
    | progress cbv zeta
    | case_match ].

Ltac solve_os_only := repeat os_only_step.

Lemma os_only_take_lock fd k : os_only (take_lock fd k).
Proof. unfold take_lock. solve_os_only. Qed.
#[local] Hint Resolve os_only_take_lock : os_only.

Lemma os_only_sys_open p : os_only (sys_open p).
Proof. unfold sys_open. solve_os_only. Qed.

Lemma os_only_sys_close fd : os_only (sys_close fd).
Proof. unfold sys_close. solve_os_only. Qed.

Lemma os_only_fcntl_setlk fd : os_only (fcntl_setlk fd).
Proof. unfold fcntl_setlk. solve_os_only. Qed.

Lemma os_only_fcntl_setlkw fd : os_only (fcntl_setlkw fd).
Proof. unfold fcntl_setlkw. solve_os_only. Qed.

Lemma os_only_locking_nblck fd : os_only (locking_nblck fd).
Proof. unfold locking_nblck. solve_os_only. Qed.

Lemma os_only_locking_unlck fd : os_only (locking_unlck fd).
Proof. unfold locking_unlck. solve_os_only. Qed.

Lemma os_only_timedout_set_fd_lock fd timeout : os_only (timedout_set_fd_lock fd timeout).
Proof. unfold timedout_set_fd_lock. solve_os_only. Qed.

#[local] Hint Resolve os_only_sys_open os_only_sys_close os_only_fcntl_setlk
  os_only_fcntl_setlkw os_only_locking_nblck os_only_locking_unlck
  os_only_timedout_set_fd_lock : os_only.

Lemma os_only_win32_poll_lock fuel : ∀ fd begin_time timeout ret,
  os_only (win32_poll_lock fuel fd begin_time timeout ret).
Proof.
  induction fuel as [|fuel IH]; intros fd begin_time timeout ret; simpl;
    solve_os_only.
Qed.
#[local] Hint Resolve os_only_win32_poll_lock : os_only.

Lemma os_only_set_fd_lock self blocking : os_only (set_fd_lock self blocking).
Proof. unfold set_fd_lock. solve_os_only. Qed.
#[local] Hint Resolve os_only_set_fd_lock : os_only.

Lemma os_only_lock self blocking : os_only (lock self blocking).
Proof. unfold lock. solve_os_only. Qed.
#[local] Hint Resolve os_only_lock : os_only.

Lemma os_only_is_locked p : os_only (is_locked p).
Proof. unfold is_locked. solve_os_only. Qed.
#[local] Hint Resolve os_only_is_locked : os_only.

Lemma os_only_lock_non_blocking self : os_only (lock_non_blocking self).
Proof. unfold lock_non_blocking. solve_os_only. Qed.

Lemma os_only_lock_blocking self : os_only (lock_blocking self).
Proof. unfold lock_blocking. solve_os_only. Qed.
#[local] Hint Resolve os_only_lock_non_blocking os_only_lock_blocking : os_only.

Lemma os_only_close_fd self : os_only (close_fd self).
Proof. unfold close_fd. solve_os_only. Qed.
#[local] Hint Resolve os_only_close_fd : os_only.

Lemma os_only_remove_lockfile self : os_only (remove_lockfile self).
Proof. unfold remove_lockfile. solve_os_only. Qed.
#[local] Hint Resolve os_only_remove_lockfile : os_only.

Lemma os_only_unlock self : os_only (unlock self).
Proof. unfold unlock. solve_os_only. Qed.
#[local] Hint Resolve os_only_unlock : os_only.

Lemma os_only_throw_lock_error {A B} msg (task : M B) :
  os_only task → os_only (@throw_lock_error A B msg task).
Proof.
  intros Ht w. specialize (Ht w). unfold throw_lock_error.
  by destruct (task w).
Qed.
#[local] Hint Resolve os_only_throw_lock_error : os_only.

Lemma os_only_ctor path timeout : os_only (LockFileOwner_ctor path timeout).
Proof. unfold LockFileOwner_ctor. solve_os_only. Qed.

Lemma os_only_dtor self : os_only (LockFileOwner_dtor self).
Proof. unfold LockFileOwner_dtor. solve_os_only. Qed.

(** ** States of the registry *)

(** ** The registry and its invariant *)

Lemma absolute_is_absolute o p : is_absolute (absolute o p) = true.
Proof. unfold absolute. by destruct (is_absolute p) eqn:H. Qed.

Lemma LockFileOwner_ctor_path path timeout w obj w' :
  LockFileOwner_ctor path timeout w = Done obj w' → m_path obj = path.
Proof.
  unfold LockFileOwner_ctor, throw_lock_error. run. intros H.
  repeat (case_match; simplify_eq; simpl in *); done.
Qed.

Lemma registry_inv_set_os o w : registry_inv w → registry_inv (set_os o w).
Proof. by intros []. Qed.

Lemma registry_inv_acquire file_path timeout w r w' :
  registry_inv w → acquire_lock file_path timeout w = Done r w' → registry_inv w'.
Proof.
  intros [Hkeys Hlive Htr]. unfold acquire_lock. run.
  destruct (use_lockfiles (ctx w)); simpl; [|by intros; simplify_eq].
  set (abs := absolute (os w) file_path).
  assert (∀ w1, w1 = w →
    match safe_invoke
            (obj ← LockFileOwner_ctor abs timeout;
             lockedfile ← make_shared obj;
             w ← get_world;
             put_world
               (set_registry
                  (mk_registry (<[abs := lockedfile]> (locked_files (registry w)))
                     (<[m_fd obj := abs]> (fd_to_locked_path (registry w)))) w);;
             mret (Some lockedfile)) w1 with
    | Done _ w2 => (∀ a obj n, heap w !! a = Some (obj, n) → m_path obj ≠ abs) →
                   registry_inv w2
    | _ => True
    end) as Hnew.
  { intros w1 ->. unfold safe_invoke. run.
    pose proof (os_only_ctor abs timeout w) as Hos.
    destruct (LockFileOwner_ctor abs timeout w) as [obj w1|e w1|] eqn:Hc; [| |done].
    - destruct Hos as [o ->]. apply LockFileOwner_ctor_path in Hc as Hp. simpl.
      intros Hfresh. split; simpl.
      + intros p a. rewrite lookup_insert. case_decide.
        * intros [= <-]. subst p. split; [apply absolute_is_absolute|lia].
        * intros Hp'. destruct (Hkeys _ _ Hp'). split; [done|lia].
      + intros a obj' n. rewrite lookup_insert. case_decide.
        * intros [= <- <-]. subst a. rewrite Hp, lookup_insert_eq.
          split; [lia|]. done.
        * intros Ha. destruct (Hlive _ _ _ Ha) as (? & ? & ?).
          split; [lia|]. split; [done|].
          rewrite lookup_insert_ne; [done|]. intros Heq. by eapply Hfresh.
      + intros p a obj' n. rewrite !lookup_insert. repeat case_decide.
        * intros _ [= <- <-]. congruence.
        * intros [= <-]. done.
        * intros Hp' _. destruct (Hkeys _ _ Hp'). lia.
        * apply Htr.
    - destruct Hos as [o ->]. intros _. by apply registry_inv_set_os. }
  unfold weak_lock. run.
  destruct (locked_files (registry w) !! abs) as [tracker|] eqn:Ht; simpl.
  - destruct (heap w !! tracker) as [[obj n]|] eqn:Hh; simpl.
    + intros ?; simplify_eq. split; simpl; [done| |].
      * intros a obj' n'. rewrite lookup_insert. case_decide.
        -- intros [= <- <-]. subst a. destruct (Hlive _ _ _ Hh) as (? & ? & ?).
           split; [done|]. split; [lia|done].
        -- apply Hlive.
      * intros p a obj' n'. rewrite lookup_insert. case_decide.
        -- intros Hp [= <- <-]. subst a. eauto.
        -- apply Htr.
    + intros H. specialize (Hnew w eq_refl). rewrite H in Hnew. apply Hnew.
      intros a obj n Ha Hp. destruct (Hlive _ _ _ Ha) as (_ & _ & Hl).
      rewrite Hp, Ht in Hl. by simplify_eq.
  - intros H. specialize (Hnew w eq_refl). rewrite H in Hnew. apply Hnew.
    intros a obj n Ha Hp. destruct (Hlive _ _ _ Ha) as (_ & _ & Hl).
    rewrite Hp, Ht in Hl. done.
Qed.

Lemma registry_inv_drop p w w' :
  registry_inv w → drop_shared p w = Done () w' → registry_inv w'.
Proof.
  intros [Hkeys Hlive Htr]. unfold drop_shared. run.
  destruct p as [a|]; [|by intros; simplify_eq].
  destruct (heap w !! a) as [[obj n]|] eqn:Ha; simpl; [|by intros; simplify_eq].
  case_bool_decide; simpl.
  - pose proof (os_only_dtor obj (set_heap (delete a (heap w)) w)) as Hos.
    destruct (LockFileOwner_dtor obj _) as [[] w1|e w1|]; [|done|done].
    destruct Hos as [o ->]. intros ?; simplify_eq. split; simpl; [done| |].
    + intros a' obj' n'. rewrite lookup_delete. case_decide; [done|]. apply Hlive.
    + intros p' a' obj' n'. rewrite lookup_delete. case_decide; [done|]. apply Htr.
  - intros ?; simplify_eq. split; simpl; [done| |].
    + intros a' obj' n'. rewrite lookup_insert. case_decide.
      * intros [= <- <-]. subst a'. destruct (Hlive _ _ _ Ha) as (? & ? & ?).
        split; [done|]. split; [lia|done].
      * apply Hlive.
    + intros p' a' obj' n'. rewrite lookup_insert. case_decide.
      * intros Hp [= <- <-]. subst a'. eauto.
      * apply Htr.
Qed.

Lemma reachable_inv w : reachable w → registry_inv w.
Proof.
  induction 1 as [w Hh Hl| | | |].
  - split.
    + intros p a. by rewrite Hl.
    + intros a obj n. by rewrite Hh.
    + intros p a obj n. by rewrite Hl.
  - eauto using registry_inv_acquire.
  - eauto using registry_inv_drop.
  - by apply registry_inv_set_os.
  - by destruct IHreachable.
Qed.

(** ** Sharing a live handle *)

Lemma drop_shared_not_last a obj n w :
  heap w !! a = Some (obj, n) → (2 ≤ n)%nat →
  drop_shared (Some a) w = Done () (set_heap (<[a := (obj, n - 1)%nat]> (heap w)) w).
Proof.
  intros H Hn. unfold drop_shared, mbind, M_bind, get_world, put_world.
  rewrite H. by rewrite bool_decide_eq_false_2 by lia.
Qed.

Lemma drop_shared_last a obj w :
  heap w !! a = Some (obj, 1%nat) →
  drop_shared (Some a) w = LockFileOwner_dtor obj (set_heap (delete a (heap w)) w).
Proof.
  intros H. unfold drop_shared, mbind, M_bind, get_world, put_world.
  by rewrite H.
Qed.

(** Claim C1, as the code has it.  With locking enabled, [acquire_lock] on a
    path whose absolute form has a live entry returns the tracked object
    itself and only adds an owner to it: nothing is constructed, no
    descriptor is opened and no lock is taken.  The object is the one of
    that path, no other live object has the same path, dropping one of
    several owners gives the former state back, and the destructor, which
    unlocks, runs when the only owner is dropped. *)
Theorem acquire_lock_shares_live_handle w file_path timeout a obj n :
  reachable w →
  use_lockfiles (ctx w) = true →
  locked_files (registry w) !! absolute (os w) file_path = Some a →
  heap w !! a = Some (obj, n) →
  let w' := set_heap (<[a := (obj, S n)]> (heap w)) w in
  acquire_lock file_path timeout w = Done (Value (Some a)) w'
  ∧ m_path obj = absolute (os w) file_path
  ∧ (∀ a' obj' n', heap w' !! a' = Some (obj', n') → m_path obj' = m_path obj → a' = a)
  ∧ drop_shared (Some a) w' = Done () w
  ∧ (n = 1%nat →
     drop_shared (Some a) w
     = LockFileOwner_dtor obj (set_heap (delete a (heap w)) w)).
Proof.
  intros Hreach Hon Hreg Hlive w'.
  apply reachable_inv in Hreach as [Hkeys Hinv Htr].
  destruct (Hinv _ _ _ Hlive) as (Ha & Hn & Hpath).
  pose proof (Htr _ _ _ _ Hreg Hlive) as Hobj.
  split; [|split; [done|split; [|split]]].
  - unfold acquire_lock, weak_lock. run. rewrite Hon. simpl.
    rewrite Hreg. simpl. by rewrite Hlive.
  - intros a' obj' n'. subst w'. simpl. rewrite lookup_insert. case_decide; [done|].
    intros Ha' Hp. destruct (Hinv _ _ _ Ha') as (_ & _ & Hl).
    rewrite Hp, Hpath in Hl. congruence.
  - rewrite (drop_shared_not_last a obj (S n)); [|apply lookup_insert_eq|lia].
    subst w'. cbn [heap set_heap]. rewrite insert_insert_eq.
    replace (S n - 1)%nat with n by lia. rewrite insert_id by done. by destruct w.
  - intros ->. by apply drop_shared_last.
Qed.

(** Claim C10.  [is_locked] searches the table with the path as given, and
    every key of the table is absolute: for a relative path whose absolute
    form has a live entry the answer is [false], while it is [true] for the
    absolute form. *)
Theorem is_locked_relative_spelling w file_path a obj n :
  reachable w →
  is_absolute file_path = false →
  locked_files (registry w) !! absolute (os w) file_path = Some a →
  heap w !! a = Some (obj, n) →
  is_locked file_path w = Done false w
  ∧ is_locked (absolute (os w) file_path) w = Done true w.
Proof.
  intros Hreach Hrel Hreg Hlive. apply reachable_inv in Hreach as [Hkeys _ _].
  unfold is_locked, expired. run. split.
  - destruct (locked_files (registry w) !! file_path) as [a'|] eqn:Hl; [|done].
    destruct (Hkeys _ _ Hl). congruence.
  - rewrite Hreg. simpl. by rewrite Hlive.
Qed.

(** Claim C9.  With [use_lockfiles] off, [acquire_lock] returns the empty
    shared pointer as a value, not an error, and the world is unchanged: no
    lock, no marker file, no entry in the registry. *)
Theorem acquire_lock_disabled w file_path timeout :
  use_lockfiles (ctx w) = false →
  acquire_lock file_path timeout w = Done (Value None) w.
Proof. intros H. unfold acquire_lock. run. by rewrite H. Qed.

(** ** A lock target that does not exist *)

Lemma LockFileOwner_ctor_throws w path timeout :
  fs_exists (os w) path = false →
  LockFileOwner_ctor path timeout w
  = Raised (mamba_error ("LockFile acquisition failed, aborting: " +:+
                         "Could not lock non-existing path '" +:+ to_string path +:+ "'")
                        lockfile_failure) w.
Proof. intros H. unfold LockFileOwner_ctor, throw_lock_error. run. by rewrite H. Qed.

(** Claim C2.  For a path that does not exist the constructor of the lock
    handle throws the lock error "Could not lock non-existing path", and the
    world is as it was: the marker file was neither opened nor created. *)
Theorem LockFileOwner_ctor_missing_target w path timeout :
  fs_exists (os w) path = false →
  LockFileOwner_ctor path timeout w
  = Raised (mamba_error ("LockFile acquisition failed, aborting: " +:+
                         "Could not lock non-existing path '" +:+ to_string path +:+ "'")
                        lockfile_failure) w.
Proof. apply LockFileOwner_ctor_throws. Qed.

(** The same seen from [acquire_lock]: the error is the result, and nothing
    has changed. *)
Lemma acquire_lock_missing_target w file_path timeout :
  use_lockfiles (ctx w) = true →
  locked_files (registry w) !! absolute (os w) file_path = None →
  fs_exists (os w) (absolute (os w) file_path) = false →
  acquire_lock file_path timeout w
  = Done (Unexpected
            (mamba_error ("LockFile acquisition failed, aborting: " +:+
                          "Could not lock non-existing path '" +:+
                          to_string (absolute (os w) file_path) +:+ "'")
                         lockfile_failure)) w.
Proof.
  intros Hon Hreg H. unfold acquire_lock, safe_invoke.
  unfold mbind, M_bind, mret, M_ret, get_ctx, get_os, get_world.
  rewrite Hon. cbn [negb]. rewrite Hreg.
  by rewrite LockFileOwner_ctor_throws.
Qed.

(** ** Blocking acquisition *)

Lemma lock_blocking_set_fd_lock self w :
  lock_blocking self w = set_fd_lock self true w.
Proof.
  unfold lock_blocking, lock, mbind, M_bind, mret, M_ret.
  by destruct (set_fd_lock self true w) as [[] ?| |].
Qed.

Lemma set_fd_lock_posix_untimed self w k :
  platform (os w) = Posix →
  m_timeout self = 0%Z →
  fds (os w) !! m_fd self = Some k →
  set_fd_lock self true w =
  match foreign_hold (os w) k with
  | Free => Done true (lock_taken (m_fd self) k w)
  | Until t => Done true (lock_taken (m_fd self) k (at_time (clock (os w) `max` t) w))
  | Forever => Hangs
  end.
Proof.
  intros Hp Ht Hfd. unfold set_fd_lock, fcntl_setlkw, take_lock. run.
  rewrite Hp, Ht. simpl. rewrite Hfd. by destruct (foreign_hold (os w) k).
Qed.

Lemma set_fd_lock_posix_timed self w :
  platform (os w) = Posix →
  m_timeout self ≠ 0%Z →
  ∃ locked w', set_fd_lock self true w = Done locked w'
               ∧ (clock (os w') ≤ clock (os w) + Z.to_nat (m_timeout self))%nat.
Proof.
  intros Hp Ht. unfold set_fd_lock, timedout_set_fd_lock, take_lock. run.
  rewrite Hp. rewrite bool_decide_eq_true_2 by done.
  destruct (fds (os w) !! m_fd self) as [k|]; simpl; [|eexists _, _; split; [done|lia]].
  destruct (foreign_hold (os w) k) as [|t|]; simpl.
  - case_bool_decide; simpl; eexists _, _; (split; [done|simpl; lia]).
  - case_bool_decide; simpl; eexists _, _; (split; [done|simpl; lia]).
  - eexists _, _; split; [done|simpl; lia].
Qed.

Lemma locking_nblck_clock fd w :
  ∃ ret w', locking_nblck fd w = Done ret w' ∧ clock (os w') = clock (os w).
Proof.
  unfold locking_nblck, take_lock. run.
  destruct (fds (os w) !! fd); simpl; [|by eexists _, _].
  destruct (_ || _); simpl; by eexists _, _.
Qed.

Lemma win32_poll_lock_bounded fuel : ∀ fd begin_time timeout ret w,
  (begin_time ≤ clock (os w))%nat →
  (clock (os w) ≤ begin_time + Z.to_nat timeout)%nat →
  (timeout - Z.of_nat (clock (os w) - begin_time) ≤ Z.of_nat fuel)%Z →
  ∃ ret' w', win32_poll_lock fuel fd begin_time timeout ret w = Done ret' w'
             ∧ (clock (os w') ≤ begin_time + Z.to_nat timeout)%nat.
Proof.
  induction fuel as [|fuel IH]; intros fd begin_time timeout ret w Hb Hc Hf.
  - simpl. run. rewrite bool_decide_eq_false_2 by lia. by eexists _, _.
  - cbn [win32_poll_lock]. unfold mbind at 1, M_bind at 1, get_os at 1.
    case_bool_decide as Hlt; [|by eexists _, _].
    destruct (locking_nblck_clock fd w) as (r & w1 & Hl & Hclock).
    unfold mbind at 1, M_bind at 1. rewrite Hl.
    case_bool_decide; [eexists _, _; split; [done|lia]|].
    run. apply IH; simpl; lia.
Qed.

Lemma set_fd_lock_win32 self w :
  platform (os w) = Win32 →
  let timeout := if bool_decide (0 < m_timeout self)%Z then m_timeout self
                 else default_timeout in
  ∃ locked w', set_fd_lock self true w = Done locked w'
               ∧ (clock (os w') ≤ clock (os w) + Z.to_nat timeout)%nat.
Proof.
  intros Hp timeout. unfold set_fd_lock.
  unfold mbind at 1, M_bind at 1, get_os at 1. rewrite Hp. cbn match.
  fold timeout.
  destruct (win32_poll_lock_bounded (S (Z.to_nat timeout)) (m_fd self)
              (clock (os w)) timeout 0 w) as (r & w' & Hw & Hc); [lia..|].
  unfold mbind, M_bind. rewrite Hw. by eexists _, _.
Qed.

(** The timed attempt of POSIX systems: the lock is obtained when the other
    process releases it before the timeout has run out, at the second it is
    released; otherwise the attempt fails when the timeout has run out. *)
Lemma set_fd_lock_posix_race self w k :
  platform (os w) = Posix →
  m_timeout self ≠ 0%Z →
  fds (os w) !! m_fd self = Some k →
  set_fd_lock self true w =
  match foreign_hold (os w) k with
  | Free =>
      if bool_decide (0 < m_timeout self)%Z
      then Done true (lock_taken (m_fd self) k w)
      else Done false (at_time (clock (os w) + Z.to_nat (m_timeout self)) w)
  | Until t =>
      if bool_decide (Z.of_nat (t - clock (os w)) < m_timeout self)%Z
      then Done true (lock_taken (m_fd self) k (at_time (clock (os w) `max` t) w))
      else Done false (at_time (clock (os w) + Z.to_nat (m_timeout self)) w)
  | Forever => Done false (at_time (clock (os w) + Z.to_nat (m_timeout self)) w)
  end.
Proof.
  intros Hp Ht Hfd. unfold set_fd_lock, timedout_set_fd_lock, take_lock. run.
  rewrite Hp. rewrite bool_decide_eq_true_2 by done. rewrite Hfd.
  destruct (foreign_hold (os w) k) as [|t|]; simpl; [| |done].
  - by case_bool_decide.
  - by case_bool_decide.
Qed.

(** The polls of the Windows branch: one per second. *)
Lemma byte_locked_asleep w k j :
  byte_locked (os (asleep 1 w)) k j = byte_locked (os w) k (S j).
Proof.
  unfold byte_locked, foreign_hold. simpl.
  by replace (clock (os w) + 1 + j)%nat with (clock (os w) + S j)%nat by lia.
Qed.

Lemma locking_nblck_busy fd k w :
  fds (os w) !! fd = Some k → byte_locked (os w) k 0 = true →
  locking_nblck fd w = Done (-1)%Z w.
Proof.
  intros Hfd Hb. unfold byte_locked in Hb. rewrite Nat.add_0_r in Hb.
  unfold locking_nblck. run. by rewrite Hfd, Hb.
Qed.

Lemma locking_nblck_free fd k w :
  fds (os w) !! fd = Some k → byte_locked (os w) k 0 = false →
  locking_nblck fd w = Done 0%Z (lock_taken fd k w).
Proof.
  intros Hfd Hb. unfold byte_locked in Hb. rewrite Nat.add_0_r in Hb.
  unfold locking_nblck, take_lock. run. by rewrite Hfd, Hb.
Qed.

Lemma win32_poll_lock_wins i : ∀ fuel fd begin_time timeout ret w k,
  fds (os w) !! fd = Some k →
  (begin_time ≤ clock (os w))%nat →
  (Z.of_nat (clock (os w) - begin_time + i) < timeout)%Z →
  (i < fuel)%nat →
  (∀ j, (j < i)%nat → byte_locked (os w) k j = true) →
  byte_locked (os w) k i = false →
  win32_poll_lock fuel fd begin_time timeout ret w
  = Done 0%Z (lock_taken fd k (napped (replicate i 1%nat) w)).
Proof.
  induction i as [|i IH]; intros fuel fd begin_time timeout ret w k Hfd Hb Ht Hf Hbusy Hfree.
  - destruct fuel as [|fuel]; [lia|]. cbn [win32_poll_lock].
    unfold mbind at 1, M_bind at 1, get_os at 1.
    rewrite bool_decide_eq_true_2 by lia.
    unfold mbind at 1, M_bind at 1. by rewrite (locking_nblck_free _ _ _ Hfd Hfree).
  - destruct fuel as [|fuel]; [lia|]. cbn [win32_poll_lock].
    unfold mbind at 1, M_bind at 1, get_os at 1.
    rewrite bool_decide_eq_true_2 by lia.
    unfold mbind at 1, M_bind at 1.
    rewrite (locking_nblck_busy _ _ _ Hfd) by (apply Hbusy; lia).
    rewrite bool_decide_eq_false_2 by done.
    unfold mbind at 1, M_bind at 1, get_os at 1.
    unfold mbind at 1, M_bind at 1, put_os at 1.
    change (set_os (sleep_for 1 (os w)) w) with (asleep 1 w).
    rewrite (IH fuel fd begin_time timeout (-1)%Z (asleep 1 w) k); try done.
    + simpl. lia.
    + simpl. lia.
    + lia.
    + intros j Hj. rewrite byte_locked_asleep. apply Hbusy. lia.
    + by rewrite byte_locked_asleep.
Qed.

Lemma win32_poll_lock_loses d : ∀ fuel fd begin_time timeout ret w k,
  fds (os w) !! fd = Some k →
  (begin_time ≤ clock (os w))%nat →
  (Z.of_nat (clock (os w) - begin_time) + Z.of_nat d = timeout)%Z →
  (d ≤ fuel)%nat →
  (∀ j, (j < d)%nat → byte_locked (os w) k j = true) →
  win32_poll_lock fuel fd begin_time timeout ret w
  = Done (if d is O then ret else (-1)%Z) (napped (replicate d 1%nat) w).
Proof.
  induction d as [|d IH]; intros fuel fd begin_time timeout ret w k Hfd Hb Ht Hf Hbusy.
  - destruct fuel as [|fuel]; cbn [win32_poll_lock];
      unfold mbind at 1, M_bind at 1, get_os at 1;
      by rewrite bool_decide_eq_false_2 by lia.
  - destruct fuel as [|fuel]; [lia|]. cbn [win32_poll_lock].
    unfold mbind at 1, M_bind at 1, get_os at 1.
    rewrite bool_decide_eq_true_2 by lia.
    unfold mbind at 1, M_bind at 1.
    rewrite (locking_nblck_busy _ _ _ Hfd) by (apply Hbusy; lia).
    rewrite bool_decide_eq_false_2 by done.
    unfold mbind at 1, M_bind at 1, get_os at 1.
    unfold mbind at 1, M_bind at 1, put_os at 1.
    change (set_os (sleep_for 1 (os w)) w) with (asleep 1 w).
    rewrite (IH fuel fd begin_time timeout (-1)%Z (asleep 1 w) k); try done.
    + by destruct d.
    + simpl. lia.
    + simpl. lia.
    + lia.
    + intros j Hj. rewrite byte_locked_asleep. apply Hbusy. lia.
Qed.

(** The blocking attempt of Windows: the lock is polled once per second, for
    as many seconds as the timeout, or 30 when that is not positive; the
    first poll that finds the byte free takes the lock, and the attempt
    fails when none does. *)
Lemma set_fd_lock_win32_polls self w k :
  platform (os w) = Win32 →
  fds (os w) !! m_fd self = Some k →
  let seconds := Z.to_nat (if bool_decide (0 < m_timeout self)%Z
                           then m_timeout self else 30%Z) in
  (∀ i, (i < seconds)%nat →
     (∀ j, (j < i)%nat → byte_locked (os w) k j = true) →
     byte_locked (os w) k i = false →
     set_fd_lock self true w
     = Done true (lock_taken (m_fd self) k (napped (replicate i 1%nat) w)))
  ∧ ((∀ j, (j < seconds)%nat → byte_locked (os w) k j = true) →
     set_fd_lock self true w = Done false (napped (replicate seconds 1%nat) w)).
Proof.
  intros Hp Hfd seconds.
  set (timeout := if bool_decide (0 < m_timeout self)%Z then m_timeout self else 30%Z).
  assert (0 < timeout)%Z as Hpos by (subst timeout; case_bool_decide; lia).
  assert (seconds = Z.to_nat timeout) as Hs by done.
  split.
  - intros i Hi Hbusy Hfree. unfold set_fd_lock.
    unfold mbind at 1, M_bind at 1, get_os at 1. rewrite Hp. cbn match.
    unfold default_timeout. fold timeout. unfold mbind, M_bind.
    rewrite (win32_poll_lock_wins i _ _ _ _ _ _ k); try done; [lia|lia].
  - intros Hbusy. unfold set_fd_lock.
    unfold mbind at 1, M_bind at 1, get_os at 1. rewrite Hp. cbn match.
    unfold default_timeout. fold timeout. unfold mbind, M_bind.
    rewrite (win32_poll_lock_loses seconds _ _ _ _ _ _ k); try done; [|lia|lia].
    destruct seconds; [lia|]. done.
Qed.

(** The constructor falls back on the blocking attempt. *)
Lemma LockFileOwner_ctor_fallback path timeout w fd w1 w2 :
  let lockfile_path :=
    if fs_is_directory (os w) path
    then join path (of_string (filename path +:+ ".lock"))
    else of_string (to_string path +:+ ".lock") in
  let self := mk_owner path lockfile_path timeout fd false
                       (fs_exists (os w) lockfile_path) in
  fs_exists (os w) path = true →
  sys_open lockfile_path w = Done fd w1 →
  (0 < fd)%Z →
  lock_non_blocking self w1 = Done false w2 →
  LockFileOwner_ctor path timeout w =
  match lock_blocking self w2 with
  | Done true w3 => Done (with_locked self true) w3
  | Done false w3 =>
      throw_lock_error
        ("LockFile can't be set at '" +:+ to_string path +:+ "'" +:+ LF +:+
         "This could be fixed by changing the locks' timeout or " +:+
         "cleaning your environment from previous runs")
        (unlock (with_locked self false)) w3
  | Raised e w3 => Raised e w3
  | Hangs => Hangs
  end.
Proof.
  intros lockfile_path self He Ho Hfd Hnb. unfold LockFileOwner_ctor.
  unfold mbind at 1, M_bind at 1, get_os at 1. rewrite He. cbn [negb].
  fold lockfile_path. unfold mbind at 1, M_bind at 1. rewrite Ho.
  rewrite bool_decide_eq_false_2 by lia. fold self.
  unfold mbind at 1, M_bind at 1. rewrite Hnb.
  unfold mbind at 1, M_bind at 1.
  destruct (lock_blocking self w2) as [[] w3|e w3|]; done.
Qed.

(** Claim C6, as the code has it.  When the non-blocking attempt of the
    constructor has failed, the constructor makes the blocking attempt, which
    is [set_fd_lock] with [blocking] set, and its result decides between the
    handle and the lock error.  On POSIX systems a zero timeout waits for the
    lock however long the other process holds it, and never returns when it
    is never released; a non-zero timeout returns within that many seconds:
    with the lock, at the second the other process releases it, when that is
    before the timeout has run out, and without it when the timeout has run
    out.  On Windows the attempt always returns, within the timeout when it
    is positive and within 30 seconds otherwise: the lock is polled once per
    second, the first poll that finds it free takes it, and the attempt fails
    after all those seconds when none does. *)
Theorem set_fd_lock_blocking self w :
  (∀ path timeout w0 fd w1,
     let lockfile_path :=
       if fs_is_directory (os w0) path
       then join path (of_string (filename path +:+ ".lock"))
       else of_string (to_string path +:+ ".lock") in
     self = mk_owner path lockfile_path timeout fd false
                     (fs_exists (os w0) lockfile_path) →
     fs_exists (os w0) path = true →
     sys_open lockfile_path w0 = Done fd w1 →
     (0 < fd)%Z →
     lock_non_blocking self w1 = Done false w →
     LockFileOwner_ctor path timeout w0 =
     match set_fd_lock self true w with
     | Done true w3 => Done (with_locked self true) w3
     | Done false w3 =>
         throw_lock_error
           ("LockFile can't be set at '" +:+ to_string path +:+ "'" +:+ LF +:+
            "This could be fixed by changing the locks' timeout or " +:+
            "cleaning your environment from previous runs")
           (unlock (with_locked self false)) w3
     | Raised e w3 => Raised e w3
     | Hangs => Hangs
     end)
  ∧ (platform (os w) = Posix → m_timeout self = 0%Z →
     ∀ k, fds (os w) !! m_fd self = Some k →
       set_fd_lock self true w =
       match foreign_hold (os w) k with
       | Free => Done true (lock_taken (m_fd self) k w)
       | Until t =>
           Done true (lock_taken (m_fd self) k (at_time (clock (os w) `max` t) w))
       | Forever => Hangs
       end)
  ∧ (platform (os w) = Posix → m_timeout self ≠ 0%Z →
     ∃ locked w', set_fd_lock self true w = Done locked w'
                  ∧ (clock (os w') ≤ clock (os w) + Z.to_nat (m_timeout self))%nat)
  ∧ (platform (os w) = Win32 →
     ∃ locked w', set_fd_lock self true w = Done locked w'
                  ∧ (clock (os w')
                     ≤ clock (os w)
                       + Z.to_nat (if bool_decide (0 < m_timeout self)%Z
                                   then m_timeout self else 30%Z))%nat)
  ∧ (platform (os w) = Posix → m_timeout self ≠ 0%Z →
     ∀ k, fds (os w) !! m_fd self = Some k →
       set_fd_lock self true w =
       match foreign_hold (os w) k with
       | Free =>
           if bool_decide (0 < m_timeout self)%Z
           then Done true (lock_taken (m_fd self) k w)
           else Done false (at_time (clock (os w) + Z.to_nat (m_timeout self)) w)
       | Until t =>
           if bool_decide (Z.of_nat (t - clock (os w)) < m_timeout self)%Z
           then Done true (lock_taken (m_fd self) k (at_time (clock (os w) `max` t) w))
           else Done false (at_time (clock (os w) + Z.to_nat (m_timeout self)) w)
       | Forever => Done false (at_time (clock (os w) + Z.to_nat (m_timeout self)) w)
       end)
  ∧ (platform (os w) = Win32 →
     ∀ k, fds (os w) !! m_fd self = Some k →
       let seconds := Z.to_nat (if bool_decide (0 < m_timeout self)%Z
                                then m_timeout self else 30%Z) in
       (∀ i, (i < seconds)%nat →
          (∀ j, (j < i)%nat → byte_locked (os w) k j = true) →
          byte_locked (os w) k i = false →
          set_fd_lock self true w
          = Done true (lock_taken (m_fd self) k (napped (replicate i 1%nat) w)))
       ∧ ((∀ j, (j < seconds)%nat → byte_locked (os w) k j = true) →
          set_fd_lock self true w = Done false (napped (replicate seconds 1%nat) w))).
Proof.
  split.
  { intros path timeout w0 fd w1 lockfile_path -> He Ho Hfd Hnb.
    rewrite <- lock_blocking_set_fd_lock.
    by apply (LockFileOwner_ctor_fallback path timeout w0 fd w1 w). }
  split; [intros ? ? k ?; by apply set_fd_lock_posix_untimed|].
  split; [apply set_fd_lock_posix_timed|].
  split; [apply set_fd_lock_win32|].
  split; [intros ? ? k ?; by apply set_fd_lock_posix_race|].
  intros ? k ?. by apply set_fd_lock_win32_polls.
Qed.

(** ** Tests on strings *)

Section string_tests.
Local Close Scope string_scope.
Implicit Types str sub suffix prefix input chars sep data search replace : std_string.

Lemma ends_with_true str suffix :
  ends_with str suffix = true ↔ suffix `suffix_of` str.
Proof.
  unfold ends_with, substr. rewrite andb_true_iff, !bool_decide_eq_true. split.
  - intros [Hlen Heq]. exists (take (length str - length suffix) str).
    rewrite <- Heq at 2. rewrite (take_ge (drop _ _)) by (rewrite length_drop; lia).
    by rewrite take_drop.
  - intros [k ->]. rewrite length_app. split; [lia|].
    replace (length k + length suffix - length suffix) with (length k) by lia.
    rewrite drop_app_length. by rewrite take_ge by lia.
Qed.

(** [ends_with] decides whether the string ends with the suffix: the test on
    the sizes and the comparison of the last chars hold exactly when the
    string is something followed by the suffix. *)
Theorem ends_with_suffix_of str suffix :
  ends_with str suffix = true ↔ suffix `suffix_of` str.
Proof. apply ends_with_true. Qed.

Lemma starts_with_true str prefix :
  starts_with str prefix = true ↔ prefix `prefix_of` str.
Proof.
  unfold starts_with, substr. rewrite andb_true_iff, !bool_decide_eq_true. split.
  - intros [Hlen Heq]. exists (drop (length prefix) str).
    rewrite <- Heq at 1. rewrite drop_0. by rewrite take_drop.
  - intros [k ->]. rewrite length_app. split; [lia|].
    rewrite drop_0. by rewrite take_app_length.
Qed.

(** [starts_with] decides whether the string begins with the prefix. *)
Theorem starts_with_prefix_of str prefix :
  starts_with str prefix = true ↔ prefix `prefix_of` str.
Proof. apply starts_with_true. Qed.

(** [starts_with_any] holds exactly when one of the prefixes begins the
    string, and [any_starts_with] exactly when one of the strings begins with
    the prefix; both are [false] for an empty list. *)
Theorem starts_with_any_of str (prefixes strs : list std_string) prefix :
  (starts_with_any str prefixes = true ↔ ∃ p, p ∈ prefixes ∧ p `prefix_of` str)
  ∧ (any_starts_with strs prefix = true ↔ ∃ s, s ∈ strs ∧ prefix `prefix_of` s).
Proof.
  split.
  - induction prefixes as [|p rest IH]; simpl.
    + split; [done|]. by intros (? & ?%elem_of_nil & _).
    + destruct (starts_with str p) eqn:Hp.
      * split; [|done]. intros _. exists p. split; [left|].
        by apply starts_with_true.
      * rewrite IH. split.
        -- intros (q & ? & ?). exists q. split; [by right|done].
        -- intros (q & [->|?]%elem_of_cons & Hq); [|by exists q].
           apply starts_with_true in Hq. congruence.
  - induction strs as [|s rest IH]; simpl.
    + split; [done|]. by intros (? & ?%elem_of_nil & _).
    + destruct (starts_with s prefix) eqn:Hp.
      * split; [|done]. intros _. exists s. split; [left|].
        by apply starts_with_true.
      * rewrite IH. split.
        -- intros (q & ? & ?). exists q. split; [by right|done].
        -- intros (q & [->|?]%elem_of_cons & Hq); [|by exists q].
           apply starts_with_true in Hq. congruence.
Qed.

(** *** [find] *)

Lemma find_first_Some str sub i :
  find_first str sub = Some i →
  sub `prefix_of` drop i str ∧ i ≤ length str
  ∧ ∀ j, j < i → ¬ sub `prefix_of` drop j str.
Proof.
  revert i. induction str as [|c str IH]; intros i; simpl.
  - case_bool_decide as Hp; [|done]. intros [= <-]. simpl. split; [done|].
    split; [lia|]. intros; lia.
  - case_bool_decide as Hp.
    + intros [= <-]. simpl. split; [done|]. split; [lia|]. intros; lia.
    + destruct (find_first str sub) as [k|] eqn:Hk; [|done]. simpl.
      intros [= <-]. destruct (IH k eq_refl) as (H1 & H2 & H3).
      split; [done|]. split; [lia|]. intros [|j] Hj; simpl; [done|].
      apply H3. lia.
Qed.

Lemma find_first_None str sub :
  find_first str sub = None → ∀ j, ¬ sub `prefix_of` drop j str.
Proof.
  induction str as [|c str IH]; simpl.
  - case_bool_decide as Hp; [done|]. intros _ j. by rewrite drop_nil.
  - case_bool_decide as Hp; [done|].
    destruct (find_first str sub) eqn:Hk; [done|]. intros _ [|j]; simpl; [done|].
    by apply IH.
Qed.

Lemma find_first_prefix str sub :
  sub `prefix_of` str → find_first str sub = Some 0.
Proof. intros H. destruct str; simpl; by rewrite bool_decide_eq_true_2. Qed.

(** [contains] holds exactly when the second string occurs somewhere in the
    first; the empty string occurs in every string. *)
Theorem contains_infix str sub_str :
  contains str sub_str = true ↔ ∃ a b, str = a ++ sub_str ++ b.
Proof.
  unfold contains, find. rewrite bool_decide_eq_true.
  rewrite bool_decide_eq_true_2 by lia. rewrite drop_0. split.
  - destruct (find_first str sub_str) as [i|] eqn:Hi; [|done]. intros _.
    apply find_first_Some in Hi as ([b Hb] & _ & _).
    exists (take i str), b. by rewrite <- Hb, take_drop.
  - intros (a & b & ->). destruct (find_first _ _) eqn:Hn; [done|].
    exfalso. apply (find_first_None _ _ Hn (length a)).
    rewrite drop_app_length. by apply prefix_app_r.
Qed.

(** *** Stripping *)

(** [lstrip] removes from the front the longest run of chars that are among
    [chars]: the input is what was removed, all of it among [chars],
    followed by the result, which does not begin with such a char. *)
Theorem lstrip_spec input chars :
  ∃ stripped, input = stripped ++ lstrip input chars
              ∧ Forall (λ c, c ∈ chars) stripped
              ∧ ∀ c, head (lstrip input chars) = Some c → c ∉ chars.
Proof.
  unfold lstrip. induction input as [|c input IH]; simpl.
  - exists []. split; [done|]. split; [done|]. done.
  - case_bool_decide as Hc.
    + destruct IH as (stripped & Heq & Hall & Hhead).
      destruct (find_first_not_of input chars) as [i|]; simpl in *.
      * exists (c :: stripped). split; [simpl; congruence|]. split; [by constructor|done].
      * exists (c :: stripped). split; [simpl; congruence|]. split; [by constructor|done].
    + exists []. split; [done|]. split; [done|]. simpl. by intros ? [= <-].
Qed.

Lemma rstrip_take input chars :
  rstrip input chars = match find_last_not_of input chars with
                       | None => []
                       | Some end_ => take (S end_) input
                       end.
Proof.
  unfold rstrip, substr. destruct (find_last_not_of input chars); [|done].
  rewrite drop_0. f_equal. lia.
Qed.

(** [rstrip] removes from the end the longest run of chars that are among
    [chars]. *)
Theorem rstrip_spec input chars :
  ∃ stripped, input = rstrip input chars ++ stripped
              ∧ Forall (λ c, c ∈ chars) stripped
              ∧ ∀ c, last (rstrip input chars) = Some c → c ∉ chars.
Proof.
  setoid_rewrite rstrip_take. induction input as [|c input IH]; simpl.
  - exists []. split; [done|]. split; [done|]. done.
  - destruct IH as (stripped & Heq & Hall & Hlast).
    destruct (find_last_not_of input chars) as [i|] eqn:Hf; simpl in *.
    + exists stripped. split; [congruence|]. split; [done|].
      intros c'. destruct input as [|c2 input]; [done|]. apply Hlast.
    + case_bool_decide as Hc; simpl.
      * exists (c :: stripped). split; [congruence|]. split; [by constructor|].
        by intros ? [=].
      * exists stripped. split; [congruence|].
        split; [done|]. simpl. by intros ? [= <-].
Qed.

End string_tests.

Section splitting.
Local Close Scope string_scope.
Implicit Types str sub suffix prefix input chars sep data search replace : std_string.

(** *** [rsplit] *)

Lemma join_with_cons sep x rest :
  join_with sep (x :: rest) = x ++ concat ((λ p, sep ++ p) <$> rest).
Proof.
  revert x. induction rest as [|y rest IH]; intros x.
  - simpl. by rewrite app_nil_r.
  - change (join_with sep (x :: y :: rest)) with (x ++ sep ++ join_with sep (y :: rest)).
    rewrite IH. simpl. by rewrite <- !app_assoc.
Qed.

Lemma rsplit_loop_pieces fuel : ∀ input sep i j max_split result,
  i ≤ j → j ≤ length input →
  drop j input = concat ((λ p, sep ++ p) <$> reverse result) →
  let r := rsplit_loop fuel input sep i j max_split result in
  join_with sep (reverse r) = input
  ∧ length r ≤ length result + N.to_nat max_split + 1.
Proof.
  assert (∀ input sep j max_split result,
    drop j input = concat ((λ p, sep ++ p) <$> reverse result) →
    let r := result ++ [substr 0 j input] in
    join_with sep (reverse r) = input
    ∧ length r ≤ length result + N.to_nat max_split + 1) as Hexit.
  { intros input sep j max_split result Hinv r. subst r.
    rewrite reverse_snoc, length_app. split; [|simpl; lia].
    rewrite join_with_cons, <- Hinv. unfold substr. rewrite drop_0.
    apply take_drop. }
  induction fuel as [|fuel IH]; intros input sep i j max_split result Hij Hj Hinv;
    cbn [rsplit_loop]; [by apply Hexit|].
  case_bool_decide as Hn; [|by apply Hexit].
  destruct (bool_decide (input !! (i - 1) = sep !! (length sep - 1))
            && bool_decide (substr (i - length sep) (length sep) input = sep))
    eqn:Hmatch; [|apply IH; [lia|done|done]].
  apply andb_true_iff in Hmatch as [_ Hsep%bool_decide_eq_true].
  case_bool_decide as Hm; [by apply Hexit|].
  edestruct (IH input sep (i - length sep) (i - length sep) (max_split - 1)%N
               (result ++ [substr i (j - i) input])) as [H1 H2]; [lia|lia| |].
  - rewrite reverse_snoc. rewrite fmap_cons. cbn [concat]. rewrite <- Hinv. unfold substr in *.
    rewrite <- (take_drop (length sep) (drop (i - length sep) input)).
    rewrite Hsep. rewrite drop_drop. rewrite <- app_assoc. f_equal.
    replace (i - length sep + length sep) with i by lia.
    rewrite <- (take_drop (j - i) (drop i input)) at 1. rewrite drop_drop.
    by replace (i + (j - i)) with j by lia.
  - split; [done|]. rewrite length_app in H2. simpl in H2. lia.
Qed.

(** For a separator that is not empty and a bound on the number of splits,
    [rsplit] returns at least one piece and at most [max_split + 1], and the
    pieces joined with the separator are the input: nothing is lost and
    nothing is added, whatever the bound. *)
Theorem rsplit_pieces (split : std_string → std_string → N → list std_string)
    input sep max_split :
  sep ≠ [] → max_split ≠ SIZE_MAX →
  ∃ pieces, rsplit split input sep max_split = Some pieces
            ∧ join_with sep pieces = input
            ∧ 1 ≤ length pieces ≤ N.to_nat max_split + 1.
Proof.
  intros Hsep Hmax. unfold rsplit.
  rewrite bool_decide_eq_false_2 by done. rewrite bool_decide_eq_false_2 by done.
  eexists. split; [done|].
  destruct (rsplit_loop_pieces (length input) input sep (length input) (length input)
              max_split []) as [H1 H2]; [done|done|by rewrite drop_all|].
  split; [done|]. rewrite length_reverse. simpl in H2. split; [|lia].
  destruct (rsplit_loop _ _ _ _ _ _ _) eqn:Hr; [|simpl; lia].
  simpl in H1. destruct input; [|done].
  simpl in Hr. done.
Qed.

End splitting.

Section replacing.
Local Close Scope string_scope.
Implicit Types str sub suffix prefix input chars sep data search replace : std_string.

(** *** [replace_all] *)

Lemma find_0 str sub : find str sub 0 = find_first str sub.
Proof.
  unfold find. rewrite bool_decide_eq_true_2 by lia. rewrite drop_0.
  by destruct (find_first str sub).
Qed.

Lemma find_app_length done rest sub :
  find (done ++ rest) sub (length done) = (λ i, length done + i) <$> find_first rest sub.
Proof.
  unfold find. rewrite bool_decide_eq_true_2 by (rewrite length_app; lia).
  by rewrite drop_app_length.
Qed.

Lemma find_first_bound str sub i :
  find_first str sub = Some i → i + length sub ≤ length str.
Proof.
  intros (Hp & Hi & _)%find_first_Some. apply prefix_length in Hp.
  rewrite length_drop in Hp. lia.
Qed.

Lemma replace_all_loop_None fuel data search replace :
  replace_all_loop fuel data search replace None = data.
Proof. by destruct fuel. Qed.

(** What is left of the data is scanned as the data itself would be. *)
Lemma replace_all_loop_rest search replace k : ∀ rest fuel done,
  search ≠ [] → length rest ≤ k → length rest ≤ fuel →
  replace_all_loop fuel (done ++ rest) search replace
    (find (done ++ rest) search (length done))
  = done ++ replace_all_loop (length rest) rest search replace (find rest search 0).
Proof.
  induction k as [|k IH]; intros rest fuel done Hs Hk Hfuel.
  - destruct rest; [|simpl in Hk; lia].
    rewrite find_app_length, find_0.
    destruct search as [|c search]; [done|]. simpl.
    by rewrite !replace_all_loop_None.
  - rewrite find_app_length, find_0.
    destruct (find_first rest search) as [q|] eqn:Hq; simpl.
    2:{ by rewrite !replace_all_loop_None. }
    pose proof (find_first_bound _ _ _ Hq) as Hb.
    assert (0 < length search) by (destruct search; [done|simpl; lia]).
    destruct fuel as [|fuel]; [lia|].
    destruct (length rest) as [|m] eqn:Hm; [lia|].
    cbn [replace_all_loop].
    rewrite take_app_ge, drop_app_ge by lia.
    replace (length done + q - length done) with q by lia.
    replace (length done + q + length search - length done)
      with (q + length search) by lia.
    set (rest' := drop (q + length search) rest).
    assert (length rest' ≤ k) as Hk'.
    { subst rest'. rewrite length_drop. lia. }
    assert (length rest' ≤ m) as Hm'.
    { subst rest'. rewrite length_drop. lia. }
    pose proof (IH rest' fuel ((done ++ take q rest) ++ replace) Hs Hk') as H1.
    pose proof (IH rest' m (take q rest ++ replace) Hs Hk') as H2.
    rewrite !length_app in H1. rewrite length_take_le in H1 by lia.
    rewrite !length_app in H2. rewrite length_take_le in H2 by lia.
    rewrite <- !app_assoc in H1. rewrite <- !app_assoc in H2.
    rewrite <- !app_assoc.
    rewrite H1 by lia. rewrite H2 by lia. done.
Qed.

Lemma replace_all_first data search replace :
  replace_all data search replace =
  if bool_decide (search = []) then data
  else match find data search 0 with
       | None => data
       | Some p =>
           take p data ++ replace
           ++ replace_all (drop (p + length search) data) search replace
       end.
Proof.
  unfold replace_all at 1. case_bool_decide as Hs; [done|].
  rewrite find_0. destruct (find_first data search) as [p|] eqn:Hp.
  2:{ by rewrite replace_all_loop_None. }
  pose proof (find_first_bound _ _ _ Hp) as Hb.
  assert (0 < length search) by (destruct search; [done|simpl; lia]).
  destruct (length data) as [|m] eqn:Hm; [lia|]. cbn [replace_all_loop].
  set (rest := drop (p + length search) data).
  pose proof (replace_all_loop_rest search replace (length rest) rest m
                (take p data ++ replace) Hs) as H1.
  rewrite length_app in H1. rewrite length_take_le in H1 by lia.
  rewrite <- !app_assoc in H1. rewrite H1; [|done|subst rest; rewrite length_drop; lia].
  unfold replace_all. by rewrite bool_decide_eq_false_2 by done.
Qed.

(** [replace_all] goes through the data from left to right: an empty search
    string changes nothing; otherwise the first occurrence of the search
    string is replaced, and the replacing goes on behind the replacement,
    which is not searched again.  The loop ends, however the replacement
    and the search string overlap. *)
Theorem replace_all_unfold data search replace :
  replace_all data search replace =
  if bool_decide (search = []) then data
  else match find data search 0 with
       | None => data
       | Some p =>
           take p data ++ replace
           ++ replace_all (drop (p + length search) data) search replace
       end.
Proof. apply replace_all_first. Qed.

Lemma replace_all_char k : ∀ data c replace,
  length data ≤ k →
  replace_all data [c] replace
  = data ≫= (λ x, if bool_decide (x = c) then replace else [x]).
Proof.
  induction k as [|k IH]; intros data c replace Hk.
  - destruct data; [done|simpl in Hk; lia].
  - rewrite replace_all_first. rewrite bool_decide_eq_false_2 by done.
    rewrite find_0. destruct (find_first data [c]) as [p|] eqn:Hp.
    + pose proof (find_first_bound _ _ _ Hp) as Hb. simpl in Hb.
      apply find_first_Some in Hp as (Hpre & _ & Hmin).
      rewrite IH by (rewrite length_drop; simpl; lia).
      rewrite <- (take_drop p data) at 3. rewrite bind_app.
      destruct Hpre as [rest Hrest].
      replace (drop (p + length [c]) data) with rest.
      2:{ simpl. rewrite <- drop_drop, Hrest. by rewrite drop_app_length'. }
      rewrite Hrest. simpl. rewrite bool_decide_eq_true_2 by done.
      f_equal.
      assert (∀ j, j < p → data !! j ≠ Some c) as Hno.
      { intros j Hj Hc. apply (Hmin j Hj). exists (drop (S j) data).
        by rewrite (drop_S _ _ _ Hc). }
      clear -Hno Hb. revert data Hno Hb. induction p as [|p IHp]; intros data Hno Hb.
      * by rewrite take_0.
      * destruct data as [|x data]; [simpl in Hb; lia|]. simpl.
        rewrite bool_decide_eq_false_2.
        2:{ intros ->. by apply (Hno 0); [lia|]. }
        simpl. f_equal. apply IHp; [|simpl in Hb; lia].
        intros j Hj. apply (Hno (S j)). lia.
    + assert (∀ j, data !! j ≠ Some c) as Hno.
      { intros j Hc. apply (find_first_None _ _ Hp j). exists (drop (S j) data).
        by rewrite (drop_S _ _ _ Hc). }
      clear -Hno. induction data as [|x data IHd]; [done|]. simpl.
      rewrite bool_decide_eq_false_2.
      2:{ intros ->. by apply (Hno 0). }
      simpl. f_equal. apply IHd. intros j. apply (Hno (S j)).
Qed.

(** With a search string of one char, [replace_all] replaces every
    occurrence of the char and keeps every other char, also when the
    replacement itself holds the char. *)
Theorem replace_all_single_char data c replace :
  replace_all data [c] replace
  = data ≫= (λ x, if bool_decide (x = c) then replace else [x]).
Proof. by apply (replace_all_char (length data)). Qed.

End replacing.

Section lines_of_text.
Local Close Scope string_scope.
Implicit Types str sub suffix prefix input chars sep data search replace : std_string.
Implicit Types p q start newline indent result : std_string.

(** *** Package file names *)

Lemma ends_with_take file suffix :
  ends_with file suffix = true →
  substr 0 (length file - length suffix) file ++ suffix = file.
Proof.
  intros [k ->]%ends_with_true. unfold substr. rewrite drop_0, length_app.
  replace (length k + length suffix - length suffix) with (length k) by lia.
  by rewrite take_app_length.
Qed.

Lemma split_package_extension_parts file :
  let '(name, extension) := split_package_extension file in
  name ++ extension = file
  ∧ (extension = lit ".conda" ∨ extension = lit ".tar.bz2"
     ∨ extension = lit ".json" ∨ extension = [])
  ∧ (is_package_file file = true
     ↔ extension = lit ".conda" ∨ extension = lit ".tar.bz2").
Proof.
  unfold split_package_extension, is_package_file.
  destruct (ends_with file (lit ".conda")) eqn:H1.
  { split; [by apply (ends_with_take file (lit ".conda"))|].
    split; [by left|]. rewrite orb_true_r. split; [by left|done]. }
  destruct (ends_with file (lit ".tar.bz2")) eqn:H2.
  { split; [by apply (ends_with_take file (lit ".tar.bz2"))|].
    split; [by right; left|]. split; [by right|done]. }
  destruct (ends_with file (lit ".json")) eqn:H3.
  { split; [by apply (ends_with_take file (lit ".json"))|].
    split; [by right; right; left|]. split; [done|]. by intros [|]. }
  split; [by rewrite app_nil_r|]. split; [by repeat right|].
  split; [done|]. by intros [|].
Qed.

(** [split_package_extension] cuts the file name in two without losing a
    char: the name followed by the extension is the file name.  The
    extension is one of the three it knows, or empty, and it is one of a
    package, [.conda] or [.tar.bz2], exactly when [is_package_file] holds. *)
Theorem split_package_extension_round_trip file :
  let '(name, extension) := split_package_extension file in
  name ++ extension = file
  ∧ (extension = lit ".conda" ∨ extension = lit ".tar.bz2"
     ∨ extension = lit ".json" ∨ extension = [])
  ∧ (is_package_file file = true
     ↔ extension = lit ".conda" ∨ extension = lit ".tar.bz2").
Proof. apply split_package_extension_parts. Qed.

(** *** [prepend] *)

Lemma prepend_loop_result p : ∀ newline result,
  prepend_loop p newline result = result ++ prepend_loop p newline [].
Proof.
  induction p as [|c p IH]; intros newline result; simpl.
  - by rewrite app_nil_r.
  - case_bool_decide.
    + rewrite IH. rewrite (IH _ (_ :: _)). by rewrite <- !app_assoc.
    + rewrite IH. rewrite (IH _ [c]). by rewrite <- !app_assoc.
Qed.

Lemma prepend_loop_app p : ∀ q newline result,
  prepend_loop (p ++ q) newline result
  = prepend_loop q newline (prepend_loop p newline result).
Proof.
  induction p as [|c p IH]; intros q newline result; simpl; [done|].
  case_bool_decide; by rewrite IH.
Qed.

(** [prepend] puts [start] before the text and [newline] after every line
    feed: a text in two parts around a line feed becomes the first part
    prepended with [start], the line feed, and the second part prepended
    with [newline]; a text of one line is just put after [start]. *)
Theorem prepend_lines p q start newline :
  prepend (p ++ "010"%char :: q) start newline
  = prepend p start newline ++ "010"%char :: prepend q newline newline
  ∧ ("010"%char ∉ p → prepend p start newline = start ++ p).
Proof.
  unfold prepend. split.
  - rewrite prepend_loop_app. simpl.
    rewrite prepend_loop_result. rewrite (prepend_loop_result q _ newline).
    by rewrite <- !app_assoc.
  - revert start. induction p as [|c p IH]; intros start Hp; simpl.
    + by rewrite app_nil_r.
    + rewrite bool_decide_eq_false_2.
      2:{ intros ->. apply Hp. left. }
      rewrite IH; [by rewrite <- app_assoc|]. intros ?. apply Hp. by right.
Qed.

(** *** [unindent] *)

Lemma leading_space_app indent rest :
  Forall (λ c, isspace c = true ∧ c ≠ "010"%char) indent →
  (∀ c, head rest = Some c → isspace c && bool_decide (c ≠ "010"%char) = false) →
  leading_space (indent ++ rest) = indent.
Proof.
  intros Hi Hr. induction Hi as [|c indent [Hs Hn] _ IH]; simpl.
  - destruct rest as [|c rest]; [done|]. simpl. by rewrite (Hr c).
  - rewrite Hs, bool_decide_eq_true_2 by done. simpl. by f_equal.
Qed.

Lemma unindent_loop_prepend indent p : ∀ fuel result,
  length (prepend_loop p indent []) ≤ fuel →
  unindent_loop fuel indent (prepend_loop p indent []) result = result ++ p.
Proof.
  induction p as [|c p IH]; intros fuel result Hfuel.
  - simpl. destruct fuel; by rewrite app_nil_r.
  - simpl in *. destruct (bool_decide (c = "010"%char)) eqn:Hc.
    + rewrite prepend_loop_result in Hfuel |- *. simpl in Hfuel |- *.
      destruct fuel as [|fuel]; [lia|]. simpl. rewrite Hc. cbn [andb].
      rewrite bool_decide_eq_true_2 by (by apply prefix_app_r).
      rewrite drop_app_length. rewrite length_app in Hfuel.
      rewrite IH by lia. by rewrite <- app_assoc.
    + rewrite prepend_loop_result in Hfuel |- *. simpl in Hfuel |- *.
      destruct fuel as [|fuel]; [lia|]. simpl. rewrite Hc. cbn [andb].
      rewrite IH by lia. by rewrite <- app_assoc.
Qed.

(** [unindent] undoes [prepend]: a text that does not begin with white
    space, indented with [prepend] by white space without a line feed, is
    given back as it was. *)
Theorem unindent_prepend p indent :
  Forall (λ c, isspace c = true ∧ c ≠ "010"%char) indent →
  (∀ c, head p = Some c → isspace c = false) →
  unindent (prepend p indent indent) = p.
Proof.
  intros Hi Hp. unfold prepend. rewrite prepend_loop_result.
  set (body := prepend_loop p indent []).
  assert (∀ c, head body = Some c → isspace c = false) as Hbody.
  { subst body. destruct p as [|c p]; [done|]. simpl.
    intros c'. case_bool_decide; rewrite prepend_loop_result; simpl;
      intros [= <-]; by apply Hp. }
  assert (∀ c, head (indent ++ body) = Some c → c ≠ "010"%char) as Hhead.
  { intros c. destruct Hi as [|c' indent [_ Hn] _]; simpl.
    - intros H ->. by specialize (Hbody _ H).
    - by intros [= <-]. }
  unfold unindent.
  assert (match indent ++ body with
          | c :: p' => if bool_decide (c = "010"%char) then p' else indent ++ body
          | [] => indent ++ body
          end = indent ++ body) as ->.
  { destruct (indent ++ body) as [|c l] eqn:Hl; [done|].
    rewrite bool_decide_eq_false_2; [done|]. by apply Hhead. }
  rewrite leading_space_app; [|done|].
  2:{ intros c Hc. by rewrite (Hbody c Hc). }
  rewrite drop_app_length. subst body.
  by rewrite unindent_loop_prepend.
Qed.

(** *** Case *)

Lemma tolower_toupper c : tolower (toupper c) = tolower c.
Proof. by destruct c as [[] [] [] [] [] [] [] []]. Qed.

Lemma tolower_tolower c : tolower (tolower c) = tolower c.
Proof. by destruct c as [[] [] [] [] [] [] [] []]. Qed.

(** Changing the case keeps the length; [to_lower] gives the same result
    after [to_upper] as on the string itself, and twice the same as once: a
    comparison of lowered strings does not see the case. *)
Theorem to_lower_to_upper input :
  to_lower (to_upper input) = to_lower input
  ∧ to_lower (to_lower input) = to_lower input
  ∧ length (to_lower input) = length input.
Proof.
  unfold to_lower, to_upper, string_transform. rewrite <- !list_fmap_compose.
  split; [|split].
  - apply list_fmap_ext. intros _ c _. apply tolower_toupper.
  - apply list_fmap_ext. intros _ c _. apply tolower_tolower.
  - apply length_fmap.
Qed.

End lines_of_text.

(** ** Quoting a command line *)

Section cmdexe_quoting.
Local Close Scope string_scope.
Implicit Types arg result bs_buf out : std_string.

(** *** The [cmdexe] branch of [quote_for_shell] *)

#[local] Arguments Nat.div : simpl never.
#[local] Arguments Nat.odd : simpl never.
#[local] Arguments Nat.mul : simpl never.

Lemma odd_S_double k : Nat.odd (S (k * 2)) = true.
Proof. rewrite Nat.odd_succ. apply Nat.even_spec. exists k. lia. Qed.

Lemma odd_double k : Nat.odd (k * 2) = false.
Proof.
  rewrite <- Nat.negb_even. apply negb_false_iff, Nat.even_spec. exists k. lia.
Qed.

Lemma div_S_double k : S (k * 2) / 2 = k.
Proof. symmetry. apply (Nat.div_unique _ 2 _ 1); lia. Qed.

Lemma cmdexe_quote_char_result arg : ∀ result bs_buf,
  foldl cmdexe_quote_char (result, bs_buf) arg
  = (result ++ (foldl cmdexe_quote_char ([], bs_buf) arg).1,
     (foldl cmdexe_quote_char ([], bs_buf) arg).2).
Proof.
  induction arg as [|c arg IH]; intros result bs_buf; simpl.
  - by rewrite app_nil_r.
  - repeat case_bool_decide; simpl.
    + apply IH.
    + rewrite IH. rewrite (IH (_ ++ _)). simpl. by rewrite <- !app_assoc.
    + rewrite IH. rewrite (IH (_ ++ _)). simpl. by rewrite <- !app_assoc.
    + rewrite IH. rewrite (IH [c]). simpl. by rewrite <- !app_assoc.
Qed.

Lemma argv_backslashes_run k : ∀ read current in_quotes n,
  foldl argv_step (mk_argv read current in_quotes n) (replicate k backslash)
  = mk_argv read current in_quotes (n + k).
Proof.
  induction k as [|k IH]; intros read current in_quotes n; simpl.
  - f_equal. lia.
  - rewrite IH. f_equal. lia.
Qed.

Lemma replicate_backslash bs_buf :
  Forall (λ c, c = backslash) bs_buf → replicate (length bs_buf) backslash = bs_buf.
Proof. induction 1; simpl; congruence. Qed.

(** Reading what the loop over the chars of an argument has written. *)
Lemma cmdexe_quote_char_read arg : ∀ read current in_quotes bs_buf,
  Forall (λ c, c = backslash) bs_buf →
  in_quotes = true ∨ Forall (λ c, c ≠ space ∧ c ≠ tab) arg →
  let '(out, bs_buf') := foldl cmdexe_quote_char ([], bs_buf) arg in
  ∃ current',
    foldl argv_step (mk_argv read current in_quotes 0) out
    = mk_argv read current' in_quotes 0
    ∧ default [] current' ++ bs_buf' = default [] current ++ bs_buf ++ arg
    ∧ (is_Some current → is_Some current')
    ∧ Forall (λ c, c = backslash) bs_buf'.
Proof.
  induction arg as [|c arg IH]; intros read current in_quotes bs_buf Hbs Hq.
  - simpl. exists current. by rewrite app_nil_r.
  - cbn [foldl]. unfold cmdexe_quote_char at 2.
    assert (in_quotes = true ∨ Forall (λ c, c ≠ space ∧ c ≠ tab) arg) as Hq'.
    { destruct Hq as [|Hq]; [by left|right]. by inversion Hq. }
    case_bool_decide as Hb; [|case_bool_decide as Hd].
    + subst c.
      specialize (IH read current in_quotes (bs_buf ++ [backslash])).
      destruct (foldl cmdexe_quote_char ([], bs_buf ++ [backslash]) arg) as [out bs'].
      destruct IH as (current' & H1 & H2 & H3 & H4); [|done|].
      { apply Forall_app. split; [done|]. by constructor. }
      exists current'. split; [done|]. split; [|done].
      rewrite H2. by rewrite <- !app_assoc.
    + subst c. rewrite cmdexe_quote_char_result. rewrite app_nil_l.
      set (current1 := argv_emit (argv_emit current bs_buf) [dquote]).
      specialize (IH read current1 in_quotes [] (Forall_nil_2 _) Hq').
      destruct (foldl cmdexe_quote_char ([], []) arg) as [out bs'].
      destruct IH as (current' & H1 & H2 & H3 & H4). simpl.
      exists current'. rewrite foldl_app, foldl_app, argv_backslashes_run.
      simpl. rewrite odd_S_double, div_S_double.
      rewrite replicate_backslash by done. fold current1.
      split; [done|]. split; [|split; [|done]].
      * rewrite H2. subst current1. simpl. by rewrite <- !app_assoc.
      * intros _. apply H3. done.
    + rewrite cmdexe_quote_char_result.
      assert ((if bool_decide (bs_buf ≠ []) then [] ++ bs_buf else []) = bs_buf) as ->.
      { case_bool_decide as Hn; [done|]. destruct bs_buf; [done|]. by destruct Hn. }
      set (current1 := argv_emit current (bs_buf ++ [c])).
      specialize (IH read current1 in_quotes [] (Forall_nil_2 _) Hq').
      destruct (foldl cmdexe_quote_char ([], []) arg) as [out bs'].
      destruct IH as (current' & H1 & H2 & H3 & H4). simpl.
      exists current'. rewrite foldl_app, foldl_app.
      rewrite <- (replicate_backslash bs_buf) at 1 by done.
      rewrite argv_backslashes_run. simpl.
      rewrite bool_decide_eq_false_2 by done. rewrite bool_decide_eq_false_2 by done.
      assert (bool_decide (c = space ∨ c = tab) && negb in_quotes = false) as ->.
      { destruct Hq as [->|Hq]; [apply andb_false_r|].
        inversion Hq as [|? ? [? ?]]; subst. rewrite bool_decide_eq_false_2; [done|].
        by intros [|]. }
      rewrite replicate_backslash by done. fold current1.
      split; [done|]. split; [|split; [|done]].
      * rewrite H2. subst current1. simpl. by rewrite <- !app_assoc.
      * intros _. apply H3. done.
Qed.

Lemma cmdexe_quote_arg_result result arg :
  cmdexe_quote_arg result arg
  = (if bool_decide (result ≠ []) then result ++ [space] else result) ++ cmdexe_quoted arg.
Proof.
  unfold cmdexe_quoted, cmdexe_quote_arg.
  change (bool_decide (@nil ascii ≠ [])) with false. cbv iota.
  set (r := if bool_decide (result ≠ []) then result ++ [space] else result).
  destruct (_ || _).
  - rewrite cmdexe_quote_char_result. rewrite (cmdexe_quote_char_result _ [dquote]).
    destruct (foldl cmdexe_quote_char ([], []) arg) as [out bs']. simpl.
    case_bool_decide; rewrite <- ?app_assoc; simpl; by rewrite <- ?app_assoc.
  - rewrite cmdexe_quote_char_result. rewrite (cmdexe_quote_char_result _ []).
    destruct (foldl cmdexe_quote_char ([], []) arg) as [out bs']. simpl.
    case_bool_decide; rewrite <- ?app_assoc; simpl; by rewrite <- ?app_assoc.
Qed.

Lemma cmdexe_quoted_eq arg :
  cmdexe_quoted arg
  = let '(out, bs_buf) := foldl cmdexe_quote_char ([], []) arg in
    if bool_decide (Exists (λ c, c = space ∨ c = tab) arg) || bool_decide (arg = [])
    then [dquote] ++ out ++ bs_buf ++ bs_buf ++ [dquote]
    else out ++ bs_buf.
Proof.
  unfold cmdexe_quoted, cmdexe_quote_arg.
  change (bool_decide (@nil ascii ≠ [])) with false. cbv iota.
  destruct (_ || _).
  - rewrite cmdexe_quote_char_result.
    destruct (foldl cmdexe_quote_char ([], []) arg) as [out bs']. cbn [fst snd].
    destruct bs' as [|b bs'].
    + by rewrite !app_nil_r.
    + rewrite bool_decide_eq_true_2 by done. by rewrite <- !app_assoc.
  - destruct (foldl cmdexe_quote_char ([], []) arg) as [out bs'].
    destruct bs' as [|b bs'].
    + by rewrite !app_nil_r.
    + by rewrite bool_decide_eq_true_2 by done.
Qed.

Lemma argv_close_quote read current k :
  foldl argv_step (mk_argv read current true 0) (replicate (k * 2) backslash ++ [dquote])
  = mk_argv read (argv_emit current (replicate k backslash)) false 0.
Proof.
  rewrite foldl_app, argv_backslashes_run. cbn [foldl argv_step].
  rewrite bool_decide_eq_false_2 by done. rewrite bool_decide_eq_true_2 by done.
  cbn [Nat.add]. by rewrite odd_double, Nat.div_mul by done.
Qed.

Lemma double_backslashes bs_buf :
  Forall (λ c, c = backslash) bs_buf →
  bs_buf ++ bs_buf = replicate (length bs_buf * 2) backslash.
Proof.
  intros H. rewrite <- (replicate_backslash bs_buf) at 1 2 by done.
  rewrite <- replicate_add. f_equal. lia.
Qed.

(** One argument is read back, whatever comes after it. *)
Lemma cmdexe_quoted_read read arg :
  ∃ st, foldl argv_step (mk_argv read None false 0) (cmdexe_quoted arg) = st
        ∧ cmdexe_quoted arg ≠ []
        ∧ argv_done st = read ∧ argv_in_quotes st = false ∧ argv_flush st = Some arg.
Proof.
  rewrite cmdexe_quoted_eq.
  destruct (_ || _) eqn:Hq.
  - clear Hq.
    pose proof (cmdexe_quote_char_read arg read (Some []) true [] (Forall_nil_2 _)) as H.
    destruct (foldl cmdexe_quote_char ([], []) arg) as [out bs'].
    destruct H as (current' & H1 & H2 & H3 & H4); [by left|].
    exists (mk_argv read (Some arg) false 0). split; [|done].
    rewrite foldl_app. cbn [foldl]. change (argv_step _ dquote)
      with (mk_argv read (Some []) true 0).
    rewrite foldl_app, H1.
    rewrite (app_assoc bs'), double_backslashes by done.
    rewrite argv_close_quote. rewrite replicate_backslash by done.
    unfold argv_emit. by rewrite H2.
  - apply orb_false_iff in Hq as [Hq Ha%bool_decide_eq_false].
    apply bool_decide_eq_false in Hq.
    pose proof (cmdexe_quote_char_read arg read None false [] (Forall_nil_2 _)) as H.
    destruct (foldl cmdexe_quote_char ([], []) arg) as [out bs'].
    destruct H as (current' & H1 & H2 & H3 & H4).
    { right. apply Forall_forall. intros c Hc. split; intros ->; apply Hq;
        apply Exists_exists; eexists; (split; [done|]); auto. }
    simpl in H2.
    exists (mk_argv read current' false (length bs')). split.
    { rewrite foldl_app, H1.
      rewrite <- (replicate_backslash bs') at 1 by done.
      by rewrite argv_backslashes_run. }
    split.
    { intros [-> ->]%app_eq_nil. simpl in H1. simplify_eq. }
    split; [done|]. split; [done|]. unfold argv_flush, argv_emit. simpl.
    case_bool_decide as Hl.
    + destruct bs'; [|done]. rewrite app_nil_r in H2.
      destruct current'; simpl in *; congruence.
    + rewrite replicate_backslash by done. by rewrite H2.
Qed.

Lemma argv_step_blank st :
  argv_in_quotes st = false →
  argv_step st space = mk_argv (argv_done st ++ option_list (argv_flush st)) None false 0.
Proof. destruct st as [read current [] n]; [done|]. intros _. done. Qed.

(** The arguments written so far are read back, and a blank after them
    leaves the reader between two arguments. *)
Lemma cmdexe_quote_args_read arguments : ∀ result read,
  (result = [] ∧ read = []
   ∨ result ≠ []
     ∧ foldl argv_step (mk_argv [] None false 0) (result ++ [space])
       = mk_argv read None false 0
     ∧ cmdline_arguments result = read) →
  cmdline_arguments (foldl cmdexe_quote_arg result arguments) = read ++ arguments.
Proof.
  induction arguments as [|arg arguments IH]; intros result read Hinv.
  - simpl. rewrite app_nil_r. by destruct Hinv as [[-> ->]|(_ & _ & ?)].
  - cbn [foldl]. rewrite (IH _ (read ++ [arg])); [by rewrite <- app_assoc|].
    right. rewrite cmdexe_quote_arg_result.
    set (r := if bool_decide (result ≠ []) then result ++ [space] else result).
    assert (foldl argv_step (mk_argv [] None false 0) r = mk_argv read None false 0) as Hr.
    { subst r. destruct Hinv as [[-> ->]|(Hne & Hrun & _)].
      - done.
      - by rewrite bool_decide_eq_true_2. }
    destruct (cmdexe_quoted_read read arg) as (st & Hst & Hne & H1 & H2 & H3).
    split; [|split].
    + by intros [_ ?]%app_eq_nil.
    + rewrite <- app_assoc, foldl_app, Hr, foldl_app, Hst. cbn [foldl].
      rewrite argv_step_blank by done. by rewrite H1, H3.
    + unfold cmdline_arguments, argv_end. rewrite foldl_app, Hr, Hst. by rewrite H1, H3.
Qed.

(** What [quote_for_shell] writes for [cmd.exe] is read back by the rules
    of the MS C runtime as the arguments it was given: whatever blanks,
    quotation marks and backslashes they hold, and whether or not some are
    empty.  This is the branch taken for the shell [cmdexe], and on Windows
    when no shell is named. *)
Theorem quote_for_shell_cmdexe_round_trip on_win arguments :
  cmdline_arguments (quote_for_shell on_win arguments (lit "cmdexe")) = arguments
  ∧ cmdline_arguments (quote_for_shell true arguments []) = arguments.
Proof.
  unfold quote_for_shell.
  change (bool_decide (lit "cmdexe" = lit "cmdexe")) with true.
  change (bool_decide (@nil ascii = [])) with true. rewrite orb_true_r. cbn [andb orb].
  split; apply (cmdexe_quote_args_read arguments [] []); by left.
Qed.

End cmdexe_quoting.

Section posix_quoting.
Local Close Scope string_scope.
Implicit Types arg result out s : std_string.

(** *** The other branch of [quote_for_shell] *)

Lemma sh_run_app s1 : ∀ s2 st,
  sh_run st (s1 ++ s2) = st' ← sh_run st s1; sh_run st' s2.
Proof.
  induction s1 as [|c s1 IH]; intros s2 st; simpl; [done|].
  destruct (sh_step st c); simpl; [apply IH|done].
Qed.

(** A char that is left without quotation marks is one the shell reads as
    it is. *)
Lemma unsafe_false_plain c :
  unsafe c = false →
  c ≠ squote ∧ c ≠ dquote ∧ sh_blank c = false ∧ sh_special c = false.
Proof.
  destruct c as [[] [] [] [] [] [] [] []]; vm_compute; intros H;
    first [discriminate H | by repeat split].
Qed.

Lemma sh_run_plain s : ∀ read current,
  existsb unsafe s = false →
  sh_run (mk_sh read current sh_unquoted) s
  = Some (mk_sh read (if bool_decide (s = []) then current else argv_emit current s)
                sh_unquoted).
Proof.
  induction s as [|c s IH]; intros read current Hs; [done|].
  apply orb_false_iff in Hs as [Hc Hs].
  apply unsafe_false_plain in Hc as (H1 & H2 & H3 & H4).
  cbn [sh_run sh_step].
  rewrite bool_decide_eq_false_2 by done. rewrite bool_decide_eq_false_2 by done.
  rewrite H3, H4. simpl. rewrite IH by done. do 2 f_equal.
  unfold argv_emit. destruct s; simpl; [done|]. by rewrite <- app_assoc.
Qed.

(** Within single quotation marks: the replacement of a single quotation
    mark closes them, gives the mark within double ones, and opens them
    again. *)
Lemma sh_run_single s : ∀ read w,
  sh_run (mk_sh read (Some w) sh_single)
    (s ≫= λ x, if bool_decide (x = squote)
                then [squote; dquote; squote; dquote; squote] else [x])
  = Some (mk_sh read (Some (w ++ s)) sh_single).
Proof.
  induction s as [|c s IH]; intros read w.
  - simpl. by rewrite app_nil_r.
  - cbn [mbind list_bind]. rewrite sh_run_app. case_bool_decide as Hc.
    + subst c. simpl. unfold argv_emit. simpl. rewrite IH.
      rewrite !app_nil_r. by rewrite <- !app_assoc.
    + cbn [sh_run sh_step]. rewrite bool_decide_eq_false_2 by done.
      simpl. unfold argv_emit. simpl. rewrite IH. by rewrite <- app_assoc.
Qed.

(** An argument is read back as one word. *)
Lemma quote_arg_read arg read :
  sh_run (mk_sh read None sh_unquoted) (quote_arg arg)
  = Some (mk_sh read (Some arg) sh_unquoted)
  ∧ quote_arg arg ≠ [].
Proof.
  unfold quote_arg. case_bool_decide as Hlen.
  - destruct arg; [|done]. done.
  - destruct (existsb unsafe arg) eqn:Hu.
    + split; [|done]. rewrite (replace_all_char (length arg)) by done.
      cbn [app sh_run sh_step]. rewrite bool_decide_eq_true_2 by done.
      cbn [mbind option_bind]. rewrite sh_run_app.
      unfold argv_emit at 1. cbn [default app].
      rewrite sh_run_single. by simpl.
    + split; [|by destruct arg]. rewrite sh_run_plain by done.
      rewrite bool_decide_eq_false_2 by (by destruct arg). done.
Qed.

Lemma sh_step_space read current :
  sh_step (mk_sh read current sh_unquoted) space
  = Some (mk_sh (read ++ option_list current) None sh_unquoted).
Proof. done. Qed.

Lemma quote_args_read rest : ∀ argstring read a,
  sh_run (mk_sh [] None sh_unquoted) argstring = Some (mk_sh read (Some a) sh_unquoted) →
  sh_words (foldl (λ argstring a, argstring ++ [space] ++ quote_arg a) argstring rest)
  = Some (read ++ a :: rest).
Proof.
  induction rest as [|b rest IH]; intros argstring read a Hrun.
  - simpl. unfold sh_words. by rewrite Hrun.
  - cbn [foldl]. rewrite (IH _ (read ++ [a]) b); [by rewrite <- app_assoc|].
    rewrite sh_run_app, Hrun. cbn [mbind option_bind].
    rewrite sh_run_app. cbn [sh_run]. rewrite sh_step_space.
    cbn [mbind option_bind option_list]. apply quote_arg_read.
Qed.

(** In its other branch, what [quote_for_shell] writes is read back by a
    POSIX shell as the arguments it was given, word for word: an argument
    left without quotation marks has only chars the shell reads as they
    are, and one put within single quotation marks survives with the single
    quotation marks it holds. *)
Theorem quote_for_shell_posix_round_trip on_win arguments shell :
  shell ≠ lit "cmdexe" → shell ≠ [] ∨ on_win = false →
  sh_words (quote_for_shell on_win arguments shell) = Some arguments.
Proof.
  intros Hc Hs. unfold quote_for_shell.
  rewrite (bool_decide_eq_false_2 (shell = lit "cmdexe")) by done.
  assert (bool_decide (shell = []) && on_win = false) as ->.
  { destruct Hs as [Hs| ->]; [|apply andb_false_r]. by rewrite bool_decide_eq_false_2. }
  cbn [orb]. destruct arguments as [|a0 rest]; [done|].
  apply (quote_args_read rest _ [] a0). apply quote_arg_read.
Qed.

End posix_quoting.

(** ** Package file names as paths *)

(** [strip_package_extension] returns the file name without its extension
    when that is one of [.conda], [.tar.bz2] and [.json], and throws
    otherwise: it never throws for a package file, and it also strips
    [.json], which is not the extension of a package. *)
Theorem strip_package_extension_spec file :
  match strip_package_extension file with
  | inr p =>
      ∃ name extension,
        file = (name ++ extension)%list
        ∧ (extension = lit ".conda" ∨ extension = lit ".tar.bz2"
           ∨ extension = lit ".json")
        ∧ p = of_string (string_of_list_ascii name)
  | inl e =>
      e = runtime_error ("Cannot strip file extension from: " +:+ string_of_list_ascii file)
      ∧ is_package_file file = false
      ∧ ends_with file (lit ".json") = false
  end.
Proof.
  unfold strip_package_extension.
  pose proof (split_package_extension_parts file) as H.
  unfold split_package_extension, is_package_file in *.
  destruct (ends_with file (lit ".conda")) eqn:H1;
    [|destruct (ends_with file (lit ".tar.bz2")) eqn:H2;
      [|destruct (ends_with file (lit ".json")) eqn:H3]];
    destruct H as (Happ & _ & _).
  - eexists _, _. split; [done|]. split; [by left|done].
  - eexists _, _. split; [done|]. split; [by right; left|done].
  - eexists _, _. split; [done|]. split; [by right; right|done].
  - done.
Qed.

(** ** Listing a directory *)

Lemma filter_dir_loop_filter o suffix entries : ∀ result,
  filter_dir_loop o suffix entries result
  = (result ++ filter (λ entry, filter_dir_keeps o suffix entry = true) entries)%list.
Proof.
  induction entries as [|entry rest IH]; intros result; simpl.
  - by rewrite app_nil_r.
  - rewrite filter_cons.
    destruct (decide (filter_dir_keeps o suffix entry = true)) as [Hk|Hk];
      unfold filter_dir_keeps in Hk;
      destruct (bool_decide (String.length suffix ≠ 0%nat));
      [destruct (negb (fs_is_directory o entry) && bool_decide (extension entry = suffix))
      |destruct (bool_decide (fs_is_directory o entry = false))
      |destruct (negb (fs_is_directory o entry) && bool_decide (extension entry = suffix))
      |destruct (bool_decide (fs_is_directory o entry = false))];
      try done; rewrite IH; by rewrite <- ?app_assoc.
Qed.

Lemma filter_dir_keeps_true o suffix entry :
  filter_dir_keeps o suffix entry = true
  ↔ fs_is_directory o entry = false ∧ (suffix ≠ "" → extension entry = suffix).
Proof.
  unfold filter_dir_keeps. case_bool_decide as Hs.
  - assert (suffix ≠ "") by (by intros ->).
    rewrite andb_true_iff, negb_true_iff, bool_decide_eq_true. split.
    + intros [? ?]. done.
    + intros [? He]. split; [done|]. by apply He.
  - assert (suffix = "") as -> by (by destruct suffix).
    rewrite bool_decide_eq_true. split; [|by intros [? _]]. done.
Qed.

Lemma directory_entries_elem_of o dir p :
  p ∈ directory_entries o dir ↔
  ∃ name n, files o !! (final_key o dir ++ [name])%list = Some n
            ∧ p = join dir (mk_path false [name]).
Proof.
  unfold directory_entries. rewrite list_elem_of_fmap. split.
  - intros (k & -> & Hk). apply list_elem_of_filter in Hk as [[[tl ->] Hlen] Hk].
    apply list_elem_of_fmap in Hk as ([k' n] & Hk' & Hin). simpl in Hk'. subst k'.
    apply elem_of_map_to_list in Hin.
    rewrite length_app in Hlen. destruct tl as [|name [|? ?]]; simpl in Hlen; try lia.
    exists name, n. split; [done|]. by rewrite last_last.
  - intros (name & n & Hn & ->). exists (final_key o dir ++ [name])%list.
    split; [by rewrite last_last|]. apply list_elem_of_filter. split.
    + split; [by apply prefix_app_r|]. rewrite length_app. simpl. lia.
    + apply list_elem_of_fmap. exists (final_key o dir ++ [name], n)%list.
      split; [done|]. by apply elem_of_map_to_list.
Qed.

(** [filter_dir] lists the entries of the directory that are not
    directories themselves, those with the given extension when one is
    given; it lists nothing for a path that is not a directory. *)
Theorem filter_dir_spec o dir suffix p :
  p ∈ filter_dir o dir suffix ↔
  fs_is_directory o dir = true
  ∧ (∃ name n, files o !! (final_key o dir ++ [name])%list = Some n
               ∧ p = join dir (mk_path false [name]))
  ∧ fs_is_directory o p = false
  ∧ (suffix ≠ "" → extension p = suffix).
Proof.
  unfold filter_dir.
  assert (fs_exists o dir && fs_is_directory o dir = fs_is_directory o dir) as ->.
  { unfold fs_exists, fs_is_directory. destruct (status o dir); done. }
  destruct (fs_is_directory o dir).
  - rewrite filter_dir_loop_filter, app_nil_l, list_elem_of_filter.
    rewrite filter_dir_keeps_true, directory_entries_elem_of. split.
    + intros [[? ?] ?]. done.
    + intros (_ & ? & ? & ?). done.
  - split; [by intros ?%elem_of_nil|]. by intros [? _].
Qed.

(** ** Broken links *)

(** [lexists] is the test that the status of the path itself is not "not
    found", the second half of its disjunction never decides; so for a
    symbolic link whose target does not exist it holds, where [fs::exists]
    does not. *)
Theorem lexists_broken_link o path :
  lexists o path = bool_decide (symlink_status o path ≠ ft_not_found)
  ∧ (∀ t u r, files o !! key_of o path = Some (mk_node (Symlink t) u r) →
              files o !! t = None →
              lexists o path = true ∧ fs_exists o path = false).
Proof.
  split.
  - unfold lexists. destruct (symlink_status o path); done.
  - intros t u r Hk Ht. split.
    + apply lexists_true. by rewrite Hk.
    + unfold fs_exists, status, final_key. change SYMLOOP_MAX with (S 39).
      rewrite resolve_S, Hk. rewrite resolve_absent by done. by rewrite Ht.
Qed.

(** ** Direct removal *)

(** A directory in which nothing is held open is removed with all it
    contains, at once: the result is the number of entries removed, nothing
    at or below the path is left and the rest is untouched; nothing is
    renamed, recorded or waited for. *)
Theorem remove_or_rename_removes_tree path w u r :
  let k := key_of (os w) path in
  files (os w) !! k = Some (mk_node Directory u r) →
  held_at (clock (os w)) u = false →
  (∀ k' n', descendants (files (os w)) k !! k' = Some n' →
            blocked (clock (os w)) n' = false) →
  remove_or_rename path w
  = Done (N.of_nat (S (size (descendants (files (os w)) k))))
      (set_os (set_files (filter (λ kv, ¬ k `prefix_of` kv.1) (files (os w))) (os w)) w).
Proof.
  intros k Hk Hu Hfree. apply remove_or_rename_direct.
  { apply lexists_true. fold k. by rewrite Hk. }
  unfold remove_directly.
  assert (fs_is_directory (os w) path = true) as ->.
  { unfold fs_is_directory, status. rewrite (final_key_here _ _ _ Hk) by done.
    fold k. by rewrite Hk. }
  unfold fs_remove_all. fold k. rewrite Hk. unfold blocked at 1. simpl. rewrite Hu.
  rewrite bool_decide_eq_false_2; [done|].
  intros (k' & n' & Hn' & Hb). by rewrite (Hfree _ _ Hn') in Hb.
Qed.

(** A regular file that is not held open is removed at once: the result is
    1 and only its entry is gone. *)
Theorem remove_or_rename_removes_file path w c u r :
  let k := key_of (os w) path in
  files (os w) !! k = Some (mk_node (Regular c) u r) →
  held_at (clock (os w)) u = false →
  remove_or_rename path w
  = Done 1%N (set_os (set_files (delete k (files (os w))) (os w)) w).
Proof.
  intros k Hk Hu. apply remove_or_rename_direct.
  { apply lexists_true. fold k. by rewrite Hk. }
  unfold remove_directly.
  assert (fs_is_directory (os w) path = false) as ->.
  { unfold fs_is_directory, status. rewrite (final_key_here _ _ _ Hk) by done.
    fold k. by rewrite Hk. }
  unfold fs_remove. fold k. rewrite Hk. unfold blocked. simpl. by rewrite Hu.
Qed.

(** ** Reclaiming without an index *)

(** Without an index, and nothing at its path, the shallow mode of
    [clean_trash_files] has nothing to do: it returns 0 and leaves the world
    as it is. *)
Theorem clean_trash_files_no_index prefix w :
  lexists (os w) (trash_txt_of prefix) = false →
  clean_trash_files prefix false w = Done 0%N w.
Proof.
  intros H. apply lexists_false in H as Hk.
  assert (fs_exists (os w) (trash_txt_of prefix) = false) as He.
  { unfold fs_exists, status. rewrite final_key_absent by done. by rewrite Hk. }
  unfold clean_trash_files. run. rewrite He. simpl.
  unfold fs_remove. rewrite Hk. simpl. by rewrite set_os_os.
Qed.

(** ** Reclaiming while a file is still held open *)








(** ** What taking a lock changes *)

Lemma lock_frame_refl o : lock_frame o o.
Proof. by repeat split. Qed.

Lemma lock_frame_trans o1 o2 o3 : lock_frame o1 o2 → lock_frame o2 o3 → lock_frame o1 o3.
Proof.
  intros (? & ? & ? & ? & ? & ? & ?) (? & ? & ? & ? & ? & ? & ?).
  repeat split; try congruence. lia.
Qed.

Lemma lock_attempt_take_lock fd k : lock_attempt fd k (take_lock fd k).
Proof.
  intros w Hfd. unfold take_lock. run.
  exists (set_own_locks (<[k := fd]> (own_locks (os w))) (os w)). split; [done|].
  split; [by repeat split|]. done.
Qed.

Lemma lock_attempt_fail fd k : lock_attempt fd k (mret (-1)%Z).
Proof.
  intros w Hfd. run. exists (os w). split; [by destruct w|].
  split; [apply lock_frame_refl|]. done.
Qed.

Lemma lock_attempt_fcntl_setlk fd k : lock_attempt fd k (fcntl_setlk fd).
Proof.
  intros w Hfd. unfold fcntl_setlk. unfold mbind at 1, M_bind at 1, get_os at 1.
  rewrite Hfd. destruct (held_at _ _).
  - by apply lock_attempt_fail.
  - by apply lock_attempt_take_lock.
Qed.

Lemma lock_attempt_locking_nblck fd k : lock_attempt fd k (locking_nblck fd).
Proof.
  intros w Hfd. unfold locking_nblck. unfold mbind at 1, M_bind at 1, get_os at 1.
  rewrite Hfd. destruct (_ || _).
  - by apply lock_attempt_fail.
  - by apply lock_attempt_take_lock.
Qed.

Lemma lock_attempt_later fd k t w :
  fds (os w) !! fd = Some k → (clock (os w) ≤ t)%nat →
  ∃ o', lock_taken fd k (at_time t w) = set_os o' w ∧ lock_frame (os w) o'
        ∧ own_locks o' = <[k := fd]> (own_locks (os w)).
Proof.
  intros Hfd Ht.
  exists (set_own_locks (<[k := fd]> (own_locks (os w))) (set_clock t (os w))).
  split; [done|]. by repeat split.
Qed.

Lemma lock_attempt_fcntl_setlkw fd k : lock_attempt fd k (fcntl_setlkw fd).
Proof.
  intros w Hfd. unfold fcntl_setlkw. unfold mbind at 1, M_bind at 1, get_os at 1.
  rewrite Hfd. destruct (foreign_hold (os w) k) as [|t|]; [| |done].
  - by apply lock_attempt_take_lock.
  - unfold take_lock. run. apply (lock_attempt_later fd k (clock (os w) `max` t) w); [done|lia].
Qed.

Lemma lock_attempt_timedout fd k timeout :
  lock_attempt fd k (timedout_set_fd_lock fd timeout).
Proof.
  intros w Hfd. unfold timedout_set_fd_lock.
  unfold mbind at 1, M_bind at 1, get_os at 1. rewrite Hfd.
  assert (∀ w0, w0 = w →
    match (put_os (set_clock (clock (os w) + Z.to_nat timeout) (os w));; mret (-1)%Z) w0 with
    | Done ret w' =>
        ∃ o', w' = set_os o' w ∧ lock_frame (os w) o'
              ∧ own_locks o' = if bool_decide (ret = 0)%Z
                               then <[k := fd]> (own_locks (os w)) else own_locks (os w)
    | Raised _ _ => False
    | Hangs => True
    end) as Hout.
  { intros w0 ->. run. exists (set_clock (clock (os w) + Z.to_nat timeout) (os w)).
    split; [done|]. split; [|done]. repeat split; simpl; lia. }
  destruct (foreign_hold (os w) k) as [|t|].
  - case_bool_decide; [by apply lock_attempt_take_lock|by apply Hout].
  - case_bool_decide; [|by apply Hout].
    unfold take_lock. run.
    apply (lock_attempt_later fd k (clock (os w) `max` t) w); [done|lia].
  - by apply Hout.
Qed.

Lemma lock_attempt_win32_poll fuel fd k : ∀ begin_time timeout ret w,
  fds (os w) !! fd = Some k →
  ret ≠ 0%Z ∨ (Z.of_nat (clock (os w) - begin_time) < timeout)%Z →
  match win32_poll_lock fuel fd begin_time timeout ret w with
  | Done ret w' =>
      ∃ o', w' = set_os o' w ∧ lock_frame (os w) o'
            ∧ own_locks o' = if bool_decide (ret = 0)%Z
                             then <[k := fd]> (own_locks (os w)) else own_locks (os w)
  | Raised _ _ => False
  | Hangs => True
  end.
Proof.
  induction fuel as [|fuel IH]; intros begin_time timeout ret w Hfd Hret.
  - simpl. run. case_bool_decide; [done|]. destruct Hret as [Hret|?]; [|lia].
    exists (os w). split; [by destruct w|]. split; [apply lock_frame_refl|].
    by rewrite bool_decide_eq_false_2.
  - cbn [win32_poll_lock]. unfold mbind at 1, M_bind at 1, get_os at 1.
    case_bool_decide as Hlt.
    2:{ destruct Hret as [Hret|?]; [|lia]. run.
        exists (os w). split; [by destruct w|]. split; [apply lock_frame_refl|].
        by rewrite bool_decide_eq_false_2. }
    pose proof (lock_attempt_locking_nblck fd k w Hfd) as Hl.
    unfold mbind at 1, M_bind at 1.
    destruct (locking_nblck fd w) as [r w1|e w1|]; [|done|done].
    destruct Hl as (o1 & -> & Hf1 & Hown1).
    destruct (decide (r = 0%Z)) as [->|Hr].
    { rewrite bool_decide_eq_true_2 by done. run. by exists o1. }
    rewrite (bool_decide_eq_false_2 (r = 0%Z)) in Hown1 |- * by done.
    run. set (w2 := set_os (sleep_for 1 o1) w).
    change (win32_poll_lock fuel fd begin_time timeout r _)
      with (win32_poll_lock fuel fd begin_time timeout r w2).
    specialize (IH begin_time timeout r w2).
    pose proof Hf1 as (? & ? & ? & Hfds & ? & ? & ?).
    destruct (win32_poll_lock fuel fd begin_time timeout r w2) as [r' w3|e w3|];
      [|by apply IH; [simpl; congruence|left]|done].
    destruct IH as (o3 & -> & Hf3 & Hown3); [simpl; congruence|by left|].
    exists o3. split; [done|]. split.
    + eapply lock_frame_trans; [done|]. eapply lock_frame_trans; [|done].
      repeat split; simpl; lia.
    + rewrite Hown3. simpl. by rewrite Hown1.
Qed.

Lemma set_fd_lock_grants self blocking w k :
  fds (os w) !! m_fd self = Some k →
  match set_fd_lock self blocking w with
  | Done locked w' =>
      ∃ o', w' = set_os o' w ∧ lock_frame (os w) o'
            ∧ own_locks o' = if locked then <[k := m_fd self]> (own_locks (os w))
                             else own_locks (os w)
  | Raised _ _ => False
  | Hangs => True
  end.
Proof.
  intros Hfd. unfold set_fd_lock. unfold mbind at 1, M_bind at 1, get_os at 1.
  assert (∀ m : M Z,
    match m w with
    | Done ret w' =>
        ∃ o', w' = set_os o' w ∧ lock_frame (os w) o'
              ∧ own_locks o' = if bool_decide (ret = 0)%Z
                               then <[k := m_fd self]> (own_locks (os w))
                               else own_locks (os w)
    | Raised _ _ => False
    | Hangs => True
    end →
    match (ret ← m; mret (bool_decide (ret = 0)%Z)) w with
    | Done locked w' =>
        ∃ o', w' = set_os o' w ∧ lock_frame (os w) o'
              ∧ own_locks o' = if locked then <[k := m_fd self]> (own_locks (os w))
                               else own_locks (os w)
    | Raised _ _ => False
    | Hangs => True
    end) as Hwrap.
  { intros m Hm. unfold mbind, M_bind. destruct (m w) as [ret w'| |]; try done. }
  apply Hwrap. destruct (platform (os w)), blocking.
  - case_bool_decide.
    + by apply lock_attempt_timedout.
    + by apply lock_attempt_fcntl_setlkw.
  - by apply lock_attempt_fcntl_setlk.
  - apply lock_attempt_win32_poll; [done|]. right.
    rewrite Nat.sub_diag. case_bool_decide; [done|]. done.
  - by apply lock_attempt_locking_nblck.
Qed.

(** ** The destructor of the lock handle *)

Lemma fs_remove_files o o' p :
  files o' = files o → cwd o' = cwd o → clock o' = clock o →
  files (fs_remove o' p).2 = files (fs_remove o p).2
  ∧ fds (fs_remove o' p).2 = fds o' ∧ own_locks (fs_remove o' p).2 = own_locks o'
  ∧ clock (fs_remove o' p).2 = clock o'.
Proof.
  intros Hf Hc Ht. unfold fs_remove, key_of, absolute. rewrite Hf, Hc, Ht.
  destruct (files o !! _) as [n|]; [|done].
  destruct (blocked (clock o) n); [done|].
  by case_bool_decide.
Qed.

(** What [unlock] leaves: the descriptor is closed, the lock taken through it
    is released, and the lock file is removed unless it was there before. *)
Lemma unlock_result self w :
  ∃ o' r,
    unlock self w = Done r (set_os o' w)
    ∧ fds o' = (if bool_decide (-1 < m_fd self)%Z
                then delete (m_fd self) (fds (os w)) else fds (os w))
    ∧ (∀ k, (-1 < m_fd self)%Z → fds (os w) !! m_fd self = Some k →
            own_locks (os w) !! k = Some (m_fd self) ∨ platform (os w) = Posix →
            own_locks o' = delete k (own_locks (os w)))
    ∧ files o' = (if m_lockfile_existed self then files (os w)
                  else files (fs_remove (os w) (m_lockfile_path self)).2)
    ∧ clock o' = clock (os w).
Proof.
  (* the lock is released where the platform needs it *)
  assert (∃ o1 ret,
    (match platform (os w) with
     | Win32 => locking_unlck (m_fd self)
     | Posix => mret 0%Z
     end) w = Done ret (set_os o1 w)
    ∧ fds o1 = fds (os w) ∧ files o1 = files (os w) ∧ cwd o1 = cwd (os w)
    ∧ clock o1 = clock (os w) ∧ platform o1 = platform (os w)
    ∧ (∀ k, fds (os w) !! m_fd self = Some k →
            own_locks (os w) !! k = Some (m_fd self) ∨ platform (os w) = Posix →
            own_locks o1 = match platform (os w) with
                           | Win32 => delete k (own_locks (os w))
                           | Posix => own_locks (os w)
                           end))
    as (o1 & ret & Hunl & Hfds1 & Hfiles1 & Hcwd1 & Hclock1 & Hpl1 & Hown1).
  { destruct (platform (os w)) eqn:Hpl.
    - exists (os w), 0%Z. run. split; [by destruct w|]. repeat split; done.
    - unfold locking_unlck. run.
      destruct (fds (os w) !! m_fd self) as [k|]; simpl.
      + case_decide as Hd; simpl.
        * eexists _, _. split; [done|]. simpl. repeat split; try done.
          by intros k' [= <-] _.
        * exists (os w), (-1)%Z. split; [by destruct w|]. repeat split; try done.
          by intros k' [= <-] [?|?].
      + exists (os w), (-1)%Z. split; [by destruct w|]. repeat split; done. }
  (* the descriptor is closed *)
  assert (∃ o2 r2,
    close_fd self (set_os o1 w) = Done r2 (set_os o2 w)
    ∧ r2.2 = (if bool_decide (-1 < m_fd self)%Z then with_fd self (-1) else self)
    ∧ fds o2 = (if bool_decide (-1 < m_fd self)%Z
                then delete (m_fd self) (fds (os w)) else fds (os w))
    ∧ files o2 = files (os w) ∧ cwd o2 = cwd (os w) ∧ clock o2 = clock (os w)
    ∧ (∀ k, (-1 < m_fd self)%Z → fds (os w) !! m_fd self = Some k →
            own_locks (os w) !! k = Some (m_fd self) ∨ platform (os w) = Posix →
            own_locks o2 = delete k (own_locks (os w))))
    as (o2 & r2 & Hclose & Hself & Hfds2 & Hfiles2 & Hcwd2 & Hclock2 & Hown2).
  { unfold close_fd. case_bool_decide as Hfd.
    - unfold sys_close. run. rewrite Hfds1.
      destruct (fds (os w) !! m_fd self) as [k|] eqn:Hk; simpl.
      + eexists _, _. split; [done|]. simpl. repeat split; try done.
        intros k' _ [= <-] Hk'. rewrite Hpl1, (Hown1 k) by done.
        destruct (platform (os w)); [done|].
        rewrite lookup_delete_eq. rewrite decide_False by done. done.
      + exists o1, ((-1)%Z, with_fd self (-1)). split; [done|]. simpl.
        rewrite delete_id by done. repeat split; try done.
    - run. exists o1, (0%Z, self). repeat split; try done. }
  unfold unlock.
  unfold mbind at 1, M_bind at 1, get_os at 1.
  unfold mbind at 1, M_bind at 1. rewrite Hunl.
  unfold mbind at 1, M_bind at 1. unfold remove_lockfile.
  unfold mbind at 1, M_bind at 1. rewrite Hclose. destruct r2 as [r self2].
  simpl in Hself. subst self2.
  assert (m_lockfile_existed
            (if bool_decide (-1 < m_fd self)%Z then with_fd self (-1) else self)
          = m_lockfile_existed self) as He by (by case_bool_decide).
  assert (m_lockfile_path
            (if bool_decide (-1 < m_fd self)%Z then with_fd self (-1) else self)
          = m_lockfile_path self) as Hp by (by case_bool_decide).
  rewrite He, Hp. destruct (m_lockfile_existed self); run.
  - exists o2. eexists. repeat split; done.
  - destruct (fs_remove_files (os w) o2 (m_lockfile_path self)) as (H1 & H2 & H3 & H4);
      [done..|].
    eexists _, _. split; [done|]. rewrite H1, H2, H4. repeat split; try done.
    intros k ? ? ?. rewrite H3. by apply Hown2.
Qed.

Lemma LockFileOwner_dtor_unlock self w :
  LockFileOwner_dtor self w
  = match unlock self w with
    | Done _ w' => Done () w'
    | Raised e w' => Raised e w'
    | Hangs => Hangs
    end.
Proof. done. Qed.

(** The destructor of the lock handle always completes: it never throws and
    never waits.  It closes the descriptor, which releases the lock taken
    through it (and on POSIX systems every lock of the process on that
    file); it leaves a lock file that was there before the handle, and
    removes one that was not, as far as [fs::remove] can; the registry is
    not told, and keeps its entry. *)
Theorem LockFileOwner_dtor_releases self w :
  ∃ o',
    LockFileOwner_dtor self w = Done () (set_os o' w)
    ∧ fds o' = (if bool_decide (-1 < m_fd self)%Z
                then delete (m_fd self) (fds (os w)) else fds (os w))
    ∧ (∀ k, (-1 < m_fd self)%Z → fds (os w) !! m_fd self = Some k →
            own_locks (os w) !! k = Some (m_fd self) ∨ platform (os w) = Posix →
            own_locks o' = delete k (own_locks (os w)))
    ∧ files o' = (if m_lockfile_existed self then files (os w)
                  else files (fs_remove (os w) (m_lockfile_path self)).2)
    ∧ clock o' = clock (os w).
Proof.
  destruct (unlock_result self w) as (o' & r & Hu & H). exists o'.
  split; [|done]. by rewrite LockFileOwner_dtor_unlock, Hu.
Qed.

(** ** A handle that has been constructed holds the lock *)

Lemma is_locked_not_tracked w p : not_tracked w p → is_locked p w = Done false w.
Proof.
  intros H. unfold is_locked, expired. run.
  destruct (locked_files (registry w) !! p) as [a|] eqn:Ha; [|done].
  by rewrite (H a Ha).
Qed.

Lemma sys_open_done p w fd w' :
  sys_open p w = Done fd w' → (0 < fd)%Z →
  fd = next_fd (os w) ∧ w' = set_os (opened p (os w)) w
  ∧ (files (os w) !! final_key (os w) p = None
     ∨ ∃ c u r, files (os w) !! final_key (os w) p = Some (mk_node (Regular c) u r)).
Proof.
  unfold sys_open, opened. run.
  destruct (files (os w) !! final_key (os w) p) as [[[c| |t] u r]|] eqn:Hk; simpl;
    intros [= <- <-] Hfd; try lia.
  - split; [done|]. split; [done|]. right. eauto.
  - split; [done|]. split; [done|]. by left.
Qed.

Lemma lock_non_blocking_lock self w :
  not_tracked w (m_lockfile_path self) →
  lock_non_blocking self w = set_fd_lock self false w.
Proof.
  intros H. unfold lock_non_blocking, lock. unfold mbind at 1, M_bind at 1.
  rewrite is_locked_not_tracked by done. unfold mbind, M_bind, mret, M_ret.
  by destruct (set_fd_lock self false w) as [[] ?| |].
Qed.

(** ** Acquiring a lock that nobody holds in this process *)

Lemma LockFileOwner_ctor_done path timeout w obj w' :
  not_tracked w (lockfile_path_of (os w) path) →
  LockFileOwner_ctor path timeout w = Done obj w' →
  let lockfile := lockfile_path_of (os w) path in
  let k := final_key (os w) lockfile in
  let fd := next_fd (os w) in
  obj = mk_owner path lockfile timeout fd true (fs_exists (os w) lockfile)
  ∧ (0 < fd)%Z
  ∧ fs_exists (os w) path = true
  ∧ ∃ o', w' = set_os o' w ∧ lock_frame (opened lockfile (os w)) o'
          ∧ own_locks o' = <[k := fd]> (own_locks (os w)).
Proof.
  intros Hnt Hc lockfile k fd. unfold LockFileOwner_ctor in Hc.
  unfold mbind at 1, M_bind at 1, get_os at 1 in Hc.
  destruct (fs_exists (os w) path) eqn:He; cbn [negb] in Hc.
  2:{ unfold throw_lock_error in Hc. by run. }
  fold (lockfile_path_of (os w) path) in Hc. fold lockfile in Hc.
  unfold mbind at 1, M_bind at 1 in Hc.
  destruct (sys_open lockfile w) as [fd' w1|e w1|] eqn:Ho; [| |done].
  2:{ pose proof (os_only_sys_open lockfile w) as Hos. rewrite Ho in Hos.
      unfold sys_open in Ho. run. by repeat case_match. }
  case_bool_decide as Hfd.
  { pose proof (os_only_unlock (mk_owner path lockfile timeout fd' false
                                  (fs_exists (os w) lockfile)) w1) as Hu.
    unfold throw_lock_error in Hc. by destruct (unlock _ w1). }
  destruct (sys_open_done _ _ _ _ Ho) as (-> & -> & Hfile); [lia|].
  set (self := mk_owner path lockfile timeout (next_fd (os w)) false
                 (fs_exists (os w) lockfile)) in *.
  set (w1 := set_os (opened lockfile (os w)) w) in *.
  assert (fds (os w1) !! m_fd self = Some k) as Hfds.
  { subst w1 self. unfold opened. simpl. by rewrite lookup_insert_eq. }
  assert (own_locks (os w1) = own_locks (os w)) as Hown.
  { subst w1. unfold opened. simpl. by destruct (files (os w) !! _). }
  unfold mbind at 1, M_bind at 1 in Hc.
  rewrite lock_non_blocking_lock in Hc by done.
  pose proof (set_fd_lock_grants self false w1 k Hfds) as H1.
  destruct (set_fd_lock self false w1) as [locked w2|e w2|]; [|done|done].
  destruct H1 as (o2 & -> & Hf2 & Hown2).
  destruct locked.
  - run. simplify_eq. split; [done|]. split; [lia|]. split; [done|].
    exists o2. split; [done|]. split; [done|]. by rewrite Hown2, Hown.
  - unfold mbind at 1, M_bind at 1 in Hc. rewrite lock_blocking_set_fd_lock in Hc.
    assert (fds (os (set_os o2 w1)) !! m_fd self = Some k) as Hfds2.
    { simpl. destruct Hf2 as (_ & _ & _ & -> & _). done. }
    pose proof (set_fd_lock_grants self true (set_os o2 w1) k Hfds2) as H3.
    destruct (set_fd_lock self true (set_os o2 w1)) as [locked w3|e w3|];
      [|done|done].
    destruct H3 as (o3 & -> & Hf3 & Hown3). destruct locked.
    + run. simplify_eq. split; [done|]. split; [lia|]. split; [done|].
      exists o3. split; [done|]. split; [by eapply lock_frame_trans|].
      simpl in Hown3. by rewrite Hown3, Hown2, Hown.
    + unfold throw_lock_error in Hc.
      by destruct (unlock _ _).
Qed.

Lemma acquire_lock_fresh w file_path timeout :
  use_lockfiles (ctx w) = true →
  not_tracked w (absolute (os w) file_path) →
  acquire_lock file_path timeout w
  = safe_invoke
      (obj ← LockFileOwner_ctor (absolute (os w) file_path) timeout;
       lockedfile ← make_shared obj;
       w0 ← get_world;
       put_world
         (set_registry
            (mk_registry
               (<[absolute (os w) file_path := lockedfile]> (locked_files (registry w0)))
               (<[m_fd obj := absolute (os w) file_path]>
                  (fd_to_locked_path (registry w0))))
            w0);;
       mret (Some lockedfile)) w.
Proof.
  intros Hon Hnt. unfold acquire_lock.
  unfold mbind at 1, M_bind at 1, get_ctx at 1. rewrite Hon. cbn [negb].
  unfold mbind at 1, M_bind at 1, get_os at 1.
  unfold mbind at 1, M_bind at 1, get_world at 1.
  unfold mbind at 1, M_bind at 1.
  destruct (locked_files (registry w) !! absolute (os w) file_path) as [a|] eqn:Ha.
  - unfold weak_lock. unfold mbind at 1, M_bind at 1, get_world at 1.
    by rewrite (Hnt a Ha).
  - done.
Qed.

Lemma acquire_lock_fresh_done w file_path timeout a w' :
  use_lockfiles (ctx w) = true →
  not_tracked w (absolute (os w) file_path) →
  acquire_lock file_path timeout w = Done (Value (Some a)) w' →
  ∃ obj o',
    LockFileOwner_ctor (absolute (os w) file_path) timeout w = Done obj (set_os o' w)
    ∧ a = next_addr w
    ∧ w' = mk_world (ctx w) o' (<[a := (obj, 1%nat)]> (heap w)) (S a)
             (mk_registry
                (<[absolute (os w) file_path := a]> (locked_files (registry w)))
                (<[m_fd obj := absolute (os w) file_path]>
                   (fd_to_locked_path (registry w)))).
Proof.
  intros Hon Hnt. rewrite acquire_lock_fresh by done. unfold safe_invoke.
  pose proof (os_only_ctor (absolute (os w) file_path) timeout w) as Hos.
  unfold mbind at 1, M_bind at 1.
  destruct (LockFileOwner_ctor _ _ w) as [obj w1|e w1|]; [|done|done].
  destruct Hos as [o' ->]. unfold make_shared. run. intros [= <- <-].
  by exists obj, o'.
Qed.

(** When [acquire_lock] builds a new handle, the process holds the lock of
    the operating system on the lock file from then on: the lock file
    exists, the descriptor of the handle is open on it, the lock is held
    through that descriptor, and both tables of the registry have their
    entry. *)
Theorem acquire_lock_takes_os_lock w file_path timeout a w' :
  let path := absolute (os w) file_path in
  let lockfile := lockfile_path_of (os w) path in
  let k := final_key (os w) lockfile in
  use_lockfiles (ctx w) = true →
  not_tracked w path → not_tracked w lockfile →
  acquire_lock file_path timeout w = Done (Value (Some a)) w' →
  ∃ obj,
    heap w' !! a = Some (obj, 1%nat)
    ∧ obj = mk_owner path lockfile timeout (next_fd (os w)) true
              (fs_exists (os w) lockfile)
    ∧ fds (os w') !! m_fd obj = Some k
    ∧ own_locks (os w') !! k = Some (m_fd obj)
    ∧ is_Some (files (os w') !! k)
    ∧ locked_files (registry w') !! path = Some a
    ∧ fd_to_locked_path (registry w') !! m_fd obj = Some path.
Proof.
  intros path lockfile k Hon Hnt Hnl Hacq.
  destruct (acquire_lock_fresh_done _ _ _ _ _ Hon Hnt Hacq) as (obj & o' & Hc & -> & ->).
  destruct (LockFileOwner_ctor_done _ _ _ _ _ Hnl Hc)
    as (Hobj & Hfd & _ & o2 & Ho2 & Hframe & Hown).
  assert (o2 = o') as -> by (by injection Ho2).
  fold path lockfile k in Hobj, Hframe, Hown.
  destruct Hframe as (_ & _ & Hfiles & Hfds & _).
  exists obj. cbn [heap os registry locked_files fd_to_locked_path].
  rewrite !lookup_insert_eq. split; [done|]. split; [done|].
  rewrite Hfds, Hown, Hfiles. subst obj. cbn [m_fd].
  unfold opened. fold k. cbn [fds set_fds files].
  rewrite !lookup_insert_eq. split; [done|]. split; [done|]. split; [|done].
  destruct (files (os w) !! k) eqn:Hk; [by rewrite Hk|].
  cbn [files set_files]. by rewrite lookup_insert_eq.
Qed.

(** The assertion at the end of [acquire_lock] holds on POSIX systems:
    for the descriptor of the handle just registered, [LockFile::is_locked]
    is true, by the registry alone. *)
Theorem acquire_lock_assertion_holds w file_path timeout a w' :
  platform (os w) = Posix →
  use_lockfiles (ctx w) = true →
  not_tracked w (absolute (os w) file_path) →
  acquire_lock file_path timeout w = Done (Value (Some a)) w' →
  ∃ obj, heap w' !! a = Some (obj, 1%nat)
         ∧ LockFile_is_locked (m_fd obj) w' = Done true w'.
Proof.
  intros _ Hon Hnt Hacq.
  destruct (acquire_lock_fresh_done _ _ _ _ _ Hon Hnt Hacq) as (obj & o' & Hc & -> & ->).
  exists obj. cbn [heap]. rewrite lookup_insert_eq. split; [done|].
  unfold LockFile_is_locked, is_locked_fd, is_locked, expired. run.
  rewrite lookup_insert_eq. simpl. rewrite lookup_insert_eq. simpl.
  by rewrite lookup_insert_eq.
Qed.

(** ** Acquiring and releasing *)

Lemma sys_open_opened p w :
  (files (os w) !! final_key (os w) p = None
   ∨ ∃ c u r, files (os w) !! final_key (os w) p = Some (mk_node (Regular c) u r)) →
  sys_open p w = Done (next_fd (os w)) (set_os (opened p (os w)) w).
Proof.
  unfold sys_open, opened. run. intros [Hk|(c & u & r & Hk)]; by rewrite Hk.
Qed.

Lemma opened_facts p o :
  platform (opened p o) = platform o ∧ cwd (opened p o) = cwd o
  ∧ clock (opened p o) = clock o ∧ foreign_locks (opened p o) = foreign_locks o
  ∧ own_locks (opened p o) = own_locks o
  ∧ fds (opened p o) = <[next_fd o := final_key o p]> (fds o).
Proof. unfold opened. by destruct (files o !! final_key o p). Qed.

(** The first, non-blocking attempt succeeds when nobody holds the lock. *)
Lemma set_fd_lock_free self w k :
  fds (os w) !! m_fd self = Some k →
  held_at (clock (os w)) (foreign_hold (os w) k) = false →
  own_locks (os w) !! k = None →
  set_fd_lock self false w = Done true (lock_taken (m_fd self) k w).
Proof.
  intros Hfd Hfree Hown. unfold set_fd_lock, fcntl_setlk, locking_nblck, take_lock. run.
  destruct (platform (os w)); simpl; rewrite Hfd, Hfree; simpl; [done|].
  by rewrite Hown.
Qed.

Lemma LockFileOwner_ctor_uncontended path timeout w :
  let lockfile := lockfile_path_of (os w) path in
  let k := final_key (os w) lockfile in
  let fd := next_fd (os w) in
  fs_exists (os w) path = true →
  not_tracked w lockfile →
  (files (os w) !! k = None
   ∨ ∃ c u r, files (os w) !! k = Some (mk_node (Regular c) u r)) →
  (0 < fd)%Z →
  held_at (clock (os w)) (foreign_hold (os w) k) = false →
  own_locks (os w) !! k = None →
  LockFileOwner_ctor path timeout w
  = Done (mk_owner path lockfile timeout fd true (fs_exists (os w) lockfile))
         (lock_taken fd k (set_os (opened lockfile (os w)) w)).
Proof.
  intros lockfile k fd He Hnt Hk Hfd Hfree Hown. unfold LockFileOwner_ctor.
  unfold mbind at 1, M_bind at 1, get_os at 1. rewrite He. cbn [negb].
  fold (lockfile_path_of (os w) path). fold lockfile.
  unfold mbind at 1, M_bind at 1. rewrite sys_open_opened by done. fold fd.
  rewrite bool_decide_eq_false_2 by lia.
  set (self := mk_owner path lockfile timeout fd false (fs_exists (os w) lockfile)).
  set (w1 := set_os (opened lockfile (os w)) w).
  destruct (opened_facts lockfile (os w)) as (Hpl & Hcwd & Hclock & Hfor & Hown1 & Hfds1).
  unfold mbind at 1, M_bind at 1.
  rewrite lock_non_blocking_lock by done.
  rewrite (set_fd_lock_free self w1 k).
  - done.
  - subst w1 self. cbn [os set_os m_fd]. rewrite Hfds1. apply lookup_insert_eq.
  - subst w1. cbn [os set_os]. unfold foreign_hold. by rewrite Hclock, Hfor.
  - subst w1. cbn [os set_os]. by rewrite Hown1.
Qed.

(** Acquiring a lock that nobody holds and dropping the handle leaves no
    trace in the operating system: in between the lock file exists and the
    lock is held; afterwards the files, the descriptors and the locks are
    as before, and the path is no longer reported as locked. *)
Theorem acquire_lock_release_round_trip w file_path timeout :
  let path := absolute (os w) file_path in
  let lockfile := lockfile_path_of (os w) path in
  let k := key_of (os w) lockfile in
  use_lockfiles (ctx w) = true →
  not_tracked w path → not_tracked w lockfile →
  heap w !! next_addr w = None →
  fs_exists (os w) path = true →
  files (os w) !! k = None →
  held_at (clock (os w)) (foreign_hold (os w) k) = false →
  own_locks (os w) !! k = None →
  (0 < next_fd (os w))%Z → fds (os w) !! next_fd (os w) = None →
  ∃ a w1 w2,
    acquire_lock file_path timeout w = Done (Value (Some a)) w1
    ∧ own_locks (os w1) !! k = Some (next_fd (os w))
    ∧ is_Some (files (os w1) !! k)
    ∧ drop_shared (Some a) w1 = Done () w2
    ∧ files (os w2) = files (os w) ∧ fds (os w2) = fds (os w)
    ∧ own_locks (os w2) = own_locks (os w) ∧ clock (os w2) = clock (os w)
    ∧ heap w2 = heap w
    ∧ is_locked path w2 = Done false w2.
Proof.
  intros path lockfile k Hon Hnt Hnl Hheap He Hk Hfree Hown Hfd Hfds.
  assert (final_key (os w) lockfile = k) as Hfk by (by apply final_key_absent).
  assert (fs_exists (os w) lockfile = false) as Hex.
  { apply fs_exists_status. unfold status. by rewrite Hfk, Hk. }
  set (obj := mk_owner path lockfile timeout (next_fd (os w)) true false).
  set (o1 := os (lock_taken (next_fd (os w)) k (set_os (opened lockfile (os w)) w))).
  set (w1 := mk_world (ctx w) o1 (<[next_addr w := (obj, 1%nat)]> (heap w))
               (S (next_addr w))
               (mk_registry (<[path := next_addr w]> (locked_files (registry w)))
                  (<[next_fd (os w) := path]> (fd_to_locked_path (registry w))))).
  assert (acquire_lock file_path timeout w = Done (Value (Some (next_addr w))) w1) as Hacq.
  { rewrite acquire_lock_fresh by done. fold path. unfold safe_invoke.
    unfold mbind at 1, M_bind at 1.
    rewrite LockFileOwner_ctor_uncontended; fold lockfile; rewrite ?Hfk; try done;
      [|by left].
    rewrite Hex. unfold make_shared. by run. }
  destruct (opened_facts lockfile (os w)) as (Hpl & Hcwd & Hclock & Hfor & Hown1 & Hfds1).
  rewrite Hfk in Hfds1.
  assert (files o1 = <[k := mk_node (Regular "") Free Free]> (files (os w))) as Hfiles1.
  { change (files o1) with (files (opened lockfile (os w))).
    unfold opened. by rewrite Hfk, Hk. }
  assert (fds o1 = <[next_fd (os w) := k]> (fds (os w))) as Hfdso.
  { change (fds o1) with (fds (opened lockfile (os w))). by rewrite Hfds1. }
  assert (own_locks o1 = <[k := next_fd (os w)]> (own_locks (os w))) as Howno.
  { change (own_locks o1)
      with (<[k := next_fd (os w)]> (own_locks (opened lockfile (os w)))).
    by rewrite Hown1. }
  assert (clock o1 = clock (os w)) as Hclocko.
  { change (clock o1) with (clock (opened lockfile (os w))). by rewrite Hclock. }
  assert (key_of o1 lockfile = k) as Hkey.
  { unfold k, key_of, absolute.
    change (cwd o1) with (cwd (opened lockfile (os w))). by rewrite Hcwd. }
  assert (heap w1 !! next_addr w = Some (obj, 1%nat)) as Hlive.
  { subst w1. cbn [heap]. apply lookup_insert_eq. }
  set (w1' := set_heap (delete (next_addr w) (heap w1)) w1).
  destruct (unlock_result obj w1') as (o2 & r & Hu & Hfds2 & Hown2 & Hfiles2 & Hclock2).
  change (os w1') with o1 in *.
  exists (next_addr w), w1, (set_os o2 w1').
  split; [done|]. split.
  { change (os w1) with o1. rewrite Howno. apply lookup_insert_eq. }
  split.
  { change (os w1) with o1. rewrite Hfiles1, lookup_insert_eq. eauto. }
  split.
  { rewrite (drop_shared_last _ _ _ Hlive), LockFileOwner_dtor_unlock.
    fold w1'. by rewrite Hu. }
  change (os (set_os o2 w1')) with o2.
  split; [|split; [|split; [|split; [|split]]]].
  - rewrite Hfiles2. change (m_lockfile_existed obj) with false.
    change (m_lockfile_path obj) with lockfile. cbv iota.
    unfold fs_remove. rewrite Hkey, Hfiles1, lookup_insert_eq.
    unfold blocked. cbn [in_use held_at].
    rewrite bool_decide_eq_false_2 by (by intros [? _]).
    cbn [snd files set_files]. by rewrite delete_insert_id.
  - rewrite Hfds2. change (m_fd obj) with (next_fd (os w)).
    rewrite bool_decide_eq_true_2 by lia.
    rewrite Hfdso. by rewrite delete_insert_id.
  - rewrite (Hown2 k).
    + rewrite Howno. by rewrite delete_insert_id.
    + change (m_fd obj) with (next_fd (os w)). lia.
    + change (m_fd obj) with (next_fd (os w)). rewrite Hfdso. apply lookup_insert_eq.
    + left. change (m_fd obj) with (next_fd (os w)). rewrite Howno.
      apply lookup_insert_eq.
  - by rewrite Hclock2.
  - subst w1' w1. cbn [heap set_os set_heap]. by rewrite delete_insert_id.
  - unfold is_locked, expired. run. subst w1' w1. cbn.
    rewrite lookup_insert_eq. cbn. rewrite lookup_delete_eq. done.
Qed.

(** ** A lock that another process holds *)

(** On POSIX systems, when another process holds the lock for good and the
    timeout is positive, [acquire_lock] returns the lock error as its result
    after exactly the timeout, and has cleaned up: the descriptor is closed
    again, the lock file of the other process is left, and neither the heap
    nor the registry has changed. *)
Theorem acquire_lock_gives_up_after_timeout w file_path timeout c u r :
  let path := absolute (os w) file_path in
  let lockfile := lockfile_path_of (os w) path in
  let k := final_key (os w) lockfile in
  use_lockfiles (ctx w) = true →
  not_tracked w path → not_tracked w lockfile →
  platform (os w) = Posix →
  fs_exists (os w) path = true →
  files (os w) !! k = Some (mk_node (Regular c) u r) →
  foreign_locks (os w) !! k = Some Forever →
  (0 < timeout)%Z →
  (0 < next_fd (os w))%Z → fds (os w) !! next_fd (os w) = None →
  ∃ o',
    acquire_lock file_path timeout w
    = Done (Unexpected
              (mamba_error
                 ("LockFile acquisition failed, aborting: " +:+
                  "LockFile can't be set at '" +:+ to_string path +:+ "'" +:+ LF +:+
                  "This could be fixed by changing the locks' timeout or " +:+
                  "cleaning your environment from previous runs")
                 lockfile_failure))
        (set_os o' w)
    ∧ clock o' = (clock (os w) + Z.to_nat timeout)%nat
    ∧ files o' = files (os w)
    ∧ fds o' = fds (os w)
    ∧ own_locks o' = delete k (own_locks (os w)).
Proof.
  intros path lockfile k Hon Hnt Hnl Hpl He Hk Hheld Htime Hfd Hfds.
  destruct (opened_facts lockfile (os w)) as (Hpl1 & Hcwd & Hclock & Hfor & Hown1 & Hfds1).
  fold k in Hfds1.
  assert (files (opened lockfile (os w)) = files (os w)) as Hfiles1.
  { unfold opened. fold k. by rewrite Hk. }
  assert (fs_exists (os w) lockfile = true) as Hex.
  { unfold fs_exists, status. fold k. by rewrite Hk. }
  set (self := mk_owner path lockfile timeout (next_fd (os w)) false
                 (fs_exists (os w) lockfile)).
  set (w1 := set_os (opened lockfile (os w)) w).
  assert (fds (os w1) !! m_fd self = Some k) as Hfdk.
  { change (fds (os w1)) with (fds (opened lockfile (os w))).
    rewrite Hfds1. apply lookup_insert_eq. }
  assert (foreign_hold (os w1) k = Forever) as Hfh.
  { unfold foreign_hold. change (os w1) with (opened lockfile (os w)).
    by rewrite Hfor, Hheld. }
  (* the first attempt fails at once *)
  assert (lock_non_blocking self w1 = Done false w1) as Hnb.
  { rewrite lock_non_blocking_lock by done.
    unfold set_fd_lock, fcntl_setlk. run.
    change (platform (os w1)) with (platform (opened lockfile (os w))).
    rewrite Hpl1, Hpl. simpl. rewrite Hfdk. simpl. rewrite Hfh. simpl.
    by destruct w1. }
  (* the second one gives up when the time is over *)
  set (o3 := set_clock (clock (os w) + Z.to_nat timeout) (opened lockfile (os w))).
  assert (lock_blocking self w1 = Done false (set_os o3 w)) as Hb.
  { rewrite lock_blocking_set_fd_lock.
    unfold set_fd_lock, timedout_set_fd_lock. run.
    change (platform (os w1)) with (platform (opened lockfile (os w))).
    rewrite Hpl1, Hpl. simpl. rewrite bool_decide_eq_true_2 by lia. simpl.
    rewrite Hfdk. simpl. rewrite Hfh. simpl.
    change (clock (os w1)) with (clock (opened lockfile (os w))). by rewrite Hclock. }
  destruct (unlock_result (with_locked self false) (set_os o3 w))
    as (o' & res & Hu & Hfds' & Hown' & Hfiles' & Hclock').
  exists o'. split.
  - rewrite acquire_lock_fresh by done. fold path. unfold safe_invoke.
    unfold mbind at 1, M_bind at 1.
    rewrite (LockFileOwner_ctor_fallback path timeout w (next_fd (os w)) w1 w1);
      [|done|by apply sys_open_opened; right; eauto|done|done].
    fold (lockfile_path_of (os w) path). fold lockfile. fold self.
    rewrite Hb. unfold throw_lock_error. by rewrite Hu.
  - change (os (set_os o3 w)) with o3 in *.
    change (m_fd (with_locked self false)) with (next_fd (os w)) in *.
    change (m_lockfile_existed (with_locked self false))
      with (fs_exists (os w) lockfile) in *.
    rewrite Hex in Hfiles'. rewrite bool_decide_eq_true_2 in Hfds' by lia.
    split; [by rewrite Hclock'|]. split; [by rewrite Hfiles'|]. split.
    + rewrite Hfds'. change (fds o3) with (fds (opened lockfile (os w))).
      rewrite Hfds1. by rewrite delete_insert_id.
    + rewrite (Hown' k); [|lia| |].
      * change (own_locks o3) with (own_locks (opened lockfile (os w))).
        by rewrite Hown1.
      * change (fds o3) with (fds (opened lockfile (os w))). rewrite Hfds1.
        apply lookup_insert_eq.
      * right. change (platform o3) with (platform (opened lockfile (os w))).
        by rewrite Hpl1.
Qed.

(** * The properties on the example worlds *)

Lemma reachable_w_locked : reachable w_locked.
Proof.
  apply (reach_acquire w_unlocked env_prefix 5 (Value (Some 0%nat))).
  - by apply reach_start.
  - vm_compute. reflexivity.
Defined.

(** ** The registry *)

(** [/opt/env] is locked and locking is enabled: a second [acquire_lock]
    returns the object at address 0, which then has two owners. *)
Lemma acquire_lock_shares_live_handle_witness :
  use_lockfiles (ctx w_locked) = true
  ∧ locked_files (registry w_locked) !! absolute (os w_locked) env_prefix = Some 0%nat
  ∧ heap w_locked !! 0%nat = Some (env_owner, 1%nat)
  ∧ acquire_lock env_prefix 7 w_locked
    = Done (Value (Some 0%nat))
           (set_heap (<[0%nat := (env_owner, 2%nat)]> (heap w_locked)) w_locked).
Proof.
  split; [reflexivity|]. split; [vm_compute; reflexivity|].
  split; [vm_compute; reflexivity|].
  apply (acquire_lock_shares_live_handle w_locked env_prefix 7 0 env_owner 1).
  - exact reachable_w_locked.
  - reflexivity.
  - vm_compute. reflexivity.
  - vm_compute. reflexivity.
Defined.

(** [/opt/env] is locked and its entry is live.  Once locking has been
    switched off, [acquire_lock] on the same path returns the empty pointer,
    not the live object.  And with locking on, [acquire_lock] on another
    spelling of the same directory constructs a second object on the same
    marker file, through a second descriptor; on a POSIX system dropping that
    second handle closes its descriptor, which releases the lock of the
    process on the marker while the first handle is still owned. *)
Lemma acquire_lock_not_shared :
  (reachable w_locked_then_disabled
   ∧ locked_files (registry w_locked_then_disabled)
       !! absolute (os w_locked_then_disabled) env_prefix = Some 0%nat
   ∧ heap w_locked_then_disabled !! 0%nat = Some (env_owner, 1%nat)
   ∧ acquire_lock env_prefix 7 w_locked_then_disabled
     = Done (Value None) w_locked_then_disabled)
  ∧ (reachable w_locked
     ∧ use_lockfiles (ctx w_locked) = true
     ∧ heap w_locked !! 0%nat = Some (env_owner, 1%nat)
     ∧ own_locks (os w_locked) !! env_lock_key = Some 3%Z
     ∧ key_of (os w_locked) env_alias = key_of (os w_locked) env_prefix
     ∧ acquire_lock env_alias 7 w_locked = Done (Value (Some 1%nat)) w_aliased
     ∧ heap w_aliased !! 0%nat = Some (env_owner, 1%nat)
     ∧ m_path <$> (fst <$> heap w_aliased !! 1%nat) = Some env_alias
     ∧ fds (os w_aliased) !! 3%Z = Some env_lock_key
     ∧ fds (os w_aliased) !! 4%Z = Some env_lock_key
     ∧ drop_shared (Some 1%nat) w_aliased = Done () w_alias_dropped
     ∧ heap w_alias_dropped !! 0%nat = Some (env_owner, 1%nat)
     ∧ own_locks (os w_alias_dropped) !! env_lock_key = None).
Proof.
  split.
  - split; [apply reach_ctx, reachable_w_locked|].
    repeat split; vm_compute; reflexivity.
  - split; [apply reachable_w_locked|].
    repeat split; vm_compute; reflexivity.
Qed.

Lemma acquire_lock_disabled_witness :
  use_lockfiles (ctx w_locked_then_disabled) = false
  ∧ acquire_lock env_prefix 7 w_locked_then_disabled
    = Done (Value None) w_locked_then_disabled.
Proof.
  split; [reflexivity|].
  apply (acquire_lock_disabled w_locked_then_disabled env_prefix 7). reflexivity.
Defined.

(** Seen from [/opt], the locked [/opt/env] is spelled [env]. *)
Lemma is_locked_relative_spelling_witness :
  is_absolute (of_string "env") = false
  ∧ locked_files (registry w_locked_seen_from_opt)
      !! absolute (os w_locked_seen_from_opt) (of_string "env") = Some 0%nat
  ∧ heap w_locked_seen_from_opt !! 0%nat = Some (env_owner, 1%nat)
  ∧ is_locked (of_string "env") w_locked_seen_from_opt
    = Done false w_locked_seen_from_opt
  ∧ is_locked (absolute (os w_locked_seen_from_opt) (of_string "env"))
              w_locked_seen_from_opt
    = Done true w_locked_seen_from_opt.
Proof.
  split; [reflexivity|]. split; [vm_compute; reflexivity|].
  split; [vm_compute; reflexivity|].
  apply (is_locked_relative_spelling w_locked_seen_from_opt (of_string "env")
           0 env_owner 1).
  - apply reach_os, reachable_w_locked.
  - reflexivity.
  - vm_compute. reflexivity.
  - vm_compute. reflexivity.
Defined.

(** ** The lock handle *)

Lemma LockFileOwner_ctor_missing_target_witness :
  fs_exists (os w_unlocked) nowhere = false
  ∧ LockFileOwner_ctor nowhere 5 w_unlocked
    = Raised (mamba_error
                ("LockFile acquisition failed, aborting: " +:+
                 "Could not lock non-existing path '" +:+ to_string nowhere +:+ "'")
                lockfile_failure) w_unlocked.
Proof.
  split; [vm_compute; reflexivity|].
  apply (LockFileOwner_ctor_missing_target w_unlocked nowhere 5).
  vm_compute. reflexivity.
Defined.

(** On a POSIX system, with a zero timeout and a lock that is never
    released, the blocking attempt never returns.  With a timeout of 5
    seconds and the same lock it fails at second 5; on Windows the lock has
    then been polled five times, one second apart. *)
Lemma set_fd_lock_blocking_witness :
  platform (os (w_contended Posix)) = Posix
  ∧ m_timeout patient_owner = 0%Z
  ∧ fds (os (w_contended Posix)) !! m_fd patient_owner = Some env_lock_key
  ∧ set_fd_lock patient_owner true (w_contended Posix) = Hangs
  ∧ foreign_hold (os (w_contended Posix)) env_lock_key = Forever
  ∧ m_timeout hasty_owner = 5%Z
  ∧ set_fd_lock hasty_owner true (w_contended Posix)
    = Done false (at_time 5 (w_contended Posix))
  ∧ set_fd_lock hasty_owner true (w_contended Win32)
    = Done false (napped [1; 1; 1; 1; 1]%nat (w_contended Win32))
  ∧ slept (os (napped [1; 1; 1; 1; 1]%nat (w_contended Win32))) = [1; 1; 1; 1; 1]%nat
  ∧ clock (os (napped [1; 1; 1; 1; 1]%nat (w_contended Win32))) = 5%nat.
Proof.
  split; [reflexivity|]. split; [reflexivity|]. split; [vm_compute; reflexivity|].
  split.
  { destruct (set_fd_lock_blocking patient_owner (w_contended Posix)) as (_ & H & _).
    rewrite (H eq_refl eq_refl env_lock_key); vm_compute; reflexivity. }
  split; [vm_compute; reflexivity|]. split; [reflexivity|].
  split.
  { destruct (set_fd_lock_blocking hasty_owner (w_contended Posix))
      as (_ & _ & _ & _ & Hposix & _).
    rewrite (Hposix eq_refl ltac:(done) env_lock_key); vm_compute; reflexivity. }
  split.
  { destruct (set_fd_lock_blocking hasty_owner (w_contended Win32))
      as (_ & _ & _ & _ & _ & Hwin).
    destruct (Hwin eq_refl env_lock_key) as [_ Hlose]; [vm_compute; reflexivity|].
    apply Hlose. intros j _. vm_compute. reflexivity. }
  split; vm_compute; reflexivity.
Defined.

(** On Windows, with the same zero timeout and the same lock, the blocking
    attempt gives up after 30 seconds. *)
Lemma set_fd_lock_zero_timeout_on_windows :
  platform (os (w_contended Win32)) = Win32
  ∧ m_timeout patient_owner = 0%Z
  ∧ fds (os (w_contended Win32)) !! m_fd patient_owner = Some env_lock_key
  ∧ foreign_hold (os (w_contended Win32)) env_lock_key = Forever
  ∧ set_fd_lock patient_owner true (w_contended Win32) = Done false w_contended_gave_up
  ∧ clock (os w_contended_gave_up) = (clock (os (w_contended Win32)) + 30)%nat
  ∧ set_fd_lock patient_owner true (w_contended Win32) ≠ Hangs.
Proof.
  assert (set_fd_lock patient_owner true (w_contended Win32)
          = Done false w_contended_gave_up) as H by (vm_compute; reflexivity).
  split; [reflexivity|]. split; [reflexivity|].
  split; [vm_compute; reflexivity|]. split; [vm_compute; reflexivity|].
  split; [exact H|]. split; [vm_compute; reflexivity|].
  rewrite H. discriminate.
Qed.

(** ** Safe removal *)

Lemma remove_or_rename_idempotent_witness :
  lexists (os w_unlocked) nowhere = false
  ∧ remove_or_rename nowhere w_unlocked = Done 0%N w_unlocked.
Proof.
  split; [vm_compute; reflexivity|].
  destruct (remove_or_rename_idempotent nowhere w_unlocked) as [H _].
  apply H. vm_compute. reflexivity.
Defined.

(** A dangling link exists for [lexists] and not for [fs::exists]; it is
    removed, and the second call has nothing to do. *)
Example remove_or_rename_dangling_link :
  lexists (os w_dangling) latest = true
  ∧ fs_exists (os w_dangling) latest = false
  ∧ remove_or_rename latest w_dangling = Done 1%N w_dangling_removed
  ∧ lexists (os w_dangling_removed) latest = false
  ∧ remove_or_rename latest w_dangling_removed = Done 0%N w_dangling_removed.
Proof. repeat split; vm_compute; reflexivity. Qed.

(** The held-open [foo]: it is renamed to [foo.mamba_trash], the plain
    quarantine name, which was free; the index, which was not there, holds
    the one line [pkgs/foo-1.0/bin/foo.mamba_trash] afterwards; the call
    returns 1. *)
Lemma remove_or_rename_quarantines_witness :
  lexists (os w_foo_held) foo_path = true
  ∧ remove_directly (os w_foo_held) foo_path = (0%N, Some EBUSY, os w_foo_held)
  ∧ remove_or_rename foo_path w_foo_held = Done 1%N w_foo_quarantined
  ∧ trash_file_for foo_path w_foo_held = Done foo_trash w_foo_held
  ∧ to_string foo_trash = "pkgs/foo-1.0/bin/foo.mamba_trash"
  ∧ lexists (os w_foo_quarantined) foo_trash = true
  ∧ lexists (os w_foo_quarantined) foo_path = false
  ∧ read_text (os w_foo_quarantined) (trash_index w_foo_held)
    = Some ("pkgs/foo-1.0/bin/foo.mamba_trash" +:+ LF)
  ∧ (∀ k trash_file o_r,
       (k ≤ 3)%nat →
       let w1 := napped (take k [2; 4; 6]%nat) w_foo_held in
       (∀ j, (j < k)%nat → rename_fails foo_path (napped (take j [2; 4; 6]%nat) w_foo_held)) →
       trash_file_for foo_path w1 = Done trash_file w1 →
       fs_rename (os w1) foo_path trash_file = (None, o_r) →
       remove_or_rename foo_path w_foo_held
       = Done 1%N (record_in_index trash_file (set_os o_r w1)))
  ∧ 1%N = 1%N
  ∧ ∃ k trash_file o_r,
      (k ≤ 3)%nat ∧
      let w1 := napped (take k [2; 4; 6]%nat) w_foo_held in
      let w_r := set_os o_r w1 in
      let index := trash_index w_r in
      let line := index_line trash_file w_r in
      trash_file_for foo_path w1 = Done trash_file w1 ∧
      lexists (os w1) trash_file = false ∧
      (trash_file = trash_name foo_path
       ∨ (lexists (os w1) (trash_name foo_path) = true
          ∧ ∃ i, (i < 100)%nat ∧ trash_file = numbered_trash_name foo_path i)) ∧
      fs_rename (os w1) foo_path trash_file = (None, o_r) ∧
      files o_r !! key_of (os w1) foo_path = None ∧
      files o_r !! key_of (os w1) trash_file
      = files (os w_foo_held) !! key_of (os w_foo_held) foo_path ∧
      w_foo_quarantined = record_in_index trash_file w_r ∧
      (stream_opens o_r index = true →
       read_text (os w_foo_quarantined) index
       = Some (default "" (read_text o_r index) +:+ line)) ∧
      (stream_opens o_r index = false → w_foo_quarantined = w_r) ∧
      ((∀ nd t, files (os w_foo_held) !! key_of (os w_foo_held) foo_path = Some nd →
                kind nd ≠ Symlink t) →
       ∀ rel, rel ≠ [] →
         key_of (os w1) trash_file
         = (weakly_canonical (ofstream_open index ios_app o_r).2
              (target_prefix (ctx w_foo_held)) ++ rel)%list →
         line = join_elems rel +:+ LF).
Proof.
  split; [vm_compute; reflexivity|]. split; [vm_compute; reflexivity|].
  split; [vm_compute; reflexivity|]. split; [vm_compute; reflexivity|].
  split; [vm_compute; reflexivity|]. split; [vm_compute; reflexivity|].
  split; [vm_compute; reflexivity|]. split; [vm_compute; reflexivity|].
  destruct (remove_or_rename_quarantines foo_path w_foo_held 0%N EBUSY (os w_foo_held))
    as [Hreturns Hreturned].
  - vm_compute. reflexivity.
  - vm_compute. reflexivity.
  - split; [exact Hreturns|].
    apply (Hreturned 1%N w_foo_quarantined). vm_compute. reflexivity.
Defined.

(** Three quarantines that the index does not show.  With a directory in
    the place of the index, and with no [conda-meta] to create the index in,
    the held-open [foo] is renamed and the call returns 1, and nothing has
    been recorded.  A held-open symbolic link [latest] to [real.so] is
    renamed to [latest.mamba_trash], and the line the index gets is
    [real.so], the target of the link. *)
Lemma remove_or_rename_quarantine_unrecorded :
  (remove_directly (os w_index_is_directory) foo_path
   = (0%N, Some EBUSY, os w_index_is_directory)
   ∧ remove_or_rename foo_path w_index_is_directory = Done 1%N w_index_is_directory_after
   ∧ lexists (os w_index_is_directory_after) foo_path = false
   ∧ lexists (os w_index_is_directory_after) foo_trash = true
   ∧ files (os w_index_is_directory_after) !! index_key = Some a_directory
   ∧ read_text (os w_index_is_directory_after) (trash_index w_index_is_directory) = None)
  ∧ (remove_directly (os w_no_conda_meta) foo_path = (0%N, Some EBUSY, os w_no_conda_meta)
     ∧ fs_is_directory (os w_no_conda_meta) (of_string "conda-meta") = false
     ∧ remove_or_rename foo_path w_no_conda_meta = Done 1%N w_no_conda_meta_after
     ∧ lexists (os w_no_conda_meta_after) foo_path = false
     ∧ lexists (os w_no_conda_meta_after) foo_trash = true
     ∧ lexists (os w_no_conda_meta_after) (trash_index w_no_conda_meta) = false)
  ∧ (remove_directly (os w_link_held) latest = (0%N, Some EBUSY, os w_link_held)
     ∧ remove_or_rename latest w_link_held = Done 1%N w_link_quarantined
     ∧ trash_file_for latest w_link_held = Done latest_trash w_link_held
     ∧ lexists (os w_link_quarantined) latest = false
     ∧ symlink_status (os w_link_quarantined) latest_trash = ft_symlink
     ∧ read_text (os w_link_quarantined) (trash_index w_link_held)
       = Some ("real.so" +:+ LF)
     ∧ "real.so" ≠ to_string latest_trash).
Proof.
  split; [repeat split; vm_compute; reflexivity|].
  split; [repeat split; vm_compute; reflexivity|].
  repeat (split; [vm_compute; reflexivity|]). vm_compute. discriminate.
Qed.

(** The scenario of the specification: the held-open file gets the quarantine
    name, the index gets one line, the call returns 1. *)
Example remove_or_rename_foo :
  remove_or_rename foo_path w_foo_held = Done 1%N w_foo_quarantined
  ∧ lexists (os w_foo_quarantined) foo_path = false
  ∧ lexists (os w_foo_quarantined) foo_trash = true
  ∧ trash_name foo_path = foo_trash
  ∧ to_string foo_trash = "pkgs/foo-1.0/bin/foo.mamba_trash"
  ∧ read_text (os w_foo_held) (trash_index w_foo_held) = None
  ∧ read_text (os w_foo_quarantined) (trash_index w_foo_quarantined)
    = Some ("pkgs/foo-1.0/bin/foo.mamba_trash" +:+ LF).
Proof. repeat split; vm_compute; reflexivity. Qed.

Lemma trash_file_for_numbering_witness :
  lexists (os w_foo_stuck) (trash_name stuck_path) = true
  ∧ lexists (os w_foo_stuck) (numbered_trash_name stuck_path 0) = true
  ∧ lexists (os w_foo_stuck) (numbered_trash_name stuck_path 1) = false
  ∧ trash_file_for stuck_path w_foo_stuck
    = Done (numbered_trash_name stuck_path 1) w_foo_stuck.
Proof.
  split; [vm_compute; reflexivity|]. split; [vm_compute; reflexivity|].
  split; [vm_compute; reflexivity|].
  destruct (trash_file_for_numbering stuck_path w_foo_stuck) as (_ & H & _).
  apply (H 1%nat).
  - vm_compute. reflexivity.
  - intros i Hi. assert (i = 0%nat) as -> by lia. vm_compute. reflexivity.
  - vm_compute. reflexivity.
  - lia.
Defined.

(** With the plain name and one numbered name taken, the third name tried is
    the one with number 1, not 2. *)
Lemma trash_file_third_attempt :
  lexists (os w_foo_stuck) (trash_name stuck_path) = true
  ∧ lexists (os w_foo_stuck) (numbered_trash_name stuck_path 0) = true
  ∧ lexists (os w_foo_stuck) (numbered_trash_name stuck_path 1) = false
  ∧ lexists (os w_foo_stuck) (numbered_trash_name stuck_path 2) = false
  ∧ trash_file_for stuck_path w_foo_stuck
    = Done (numbered_trash_name stuck_path 1) w_foo_stuck
  ∧ to_string (numbered_trash_name stuck_path 1) = "foo.1.mamba_trash"
  ∧ to_string (numbered_trash_name stuck_path 2) = "foo.2.mamba_trash"
  ∧ trash_file_for stuck_path w_foo_stuck
    ≠ Done (numbered_trash_name stuck_path 2) w_foo_stuck.
Proof.
  assert (trash_file_for stuck_path w_foo_stuck
          = Done (numbered_trash_name stuck_path 1) w_foo_stuck) as H
    by (vm_compute; reflexivity).
  repeat (split; [vm_compute; reflexivity|]).
  rewrite H. by intros [=].
Qed.

Lemma remove_or_rename_backoff_witness :
  lexists (os w_foo_stuck) stuck_path = true
  ∧ remove_directly (os w_foo_stuck) stuck_path = (0%N, Some EBUSY, os w_foo_stuck)
  ∧ remove_or_rename stuck_path w_foo_stuck
    = Raised (runtime_error ("Could not delete file " +:+ to_string stuck_path))
             (asleep 6 (asleep 4 (asleep 2 w_foo_stuck)))
  ∧ slept (os (asleep 6 (asleep 4 (asleep 2 w_foo_stuck))))
    = (slept (os w_foo_stuck) ++ [2; 4; 6]%nat)%list
  ∧ clock (os (asleep 6 (asleep 4 (asleep 2 w_foo_stuck))))
    = (clock (os w_foo_stuck) + 12)%nat.
Proof.
  split; [vm_compute; reflexivity|]. split; [vm_compute; reflexivity|].
  destruct (remove_or_rename_backoff stuck_path w_foo_stuck) as (_ & _ & H).
  apply (H 0%N EBUSY (os w_foo_stuck)).
  - vm_compute. reflexivity.
  - vm_compute. reflexivity.
  - exists (numbered_trash_name stuck_path 1), EBUSY. split; vm_compute; reflexivity.
  - exists (numbered_trash_name stuck_path 1), EBUSY. split; vm_compute; reflexivity.
  - exists (numbered_trash_name stuck_path 1), EBUSY. split; vm_compute; reflexivity.
  - exists (numbered_trash_name stuck_path 1), EBUSY. split; vm_compute; reflexivity.
Defined.

(** ** Reclaiming *)

Lemma clean_trash_files_round_trip_witness :
  read_text (os w_two_quarantined) (trash_txt_of env_prefix)
  = Some (index_text two_records)
  ∧ ∃ w', clean_trash_files env_prefix false w_two_quarantined
          = Done (N.of_nat (length two_records)) w'
          ∧ lexists (os w') (trash_txt_of env_prefix) = false.
Proof.
  split; [vm_compute; reflexivity|].
  apply (clean_trash_files_round_trip env_prefix w_two_quarantined two_records).
  - vm_compute. reflexivity.
  - repeat constructor.
  - repeat constructor; right; vm_compute; reflexivity.
  - intros n Hn. vm_compute in Hn. injection Hn as <-. reflexivity.
Defined.

(** The two records of that index are what two failed removals appended, and
    reclaiming them removes both files and the index. *)
Example two_failed_removals :
  remove_or_rename foo_path w_two_held = Done 1%N w_one_quarantined
  ∧ remove_or_rename bar_path w_one_quarantined = Done 1%N w_both_quarantined
  ∧ w_two_quarantined = at_time 10 w_both_quarantined
  ∧ clean_trash_files env_prefix false w_two_quarantined = Done 2%N w_two_reclaimed
  ∧ lexists (os w_two_reclaimed) (trash_name foo_path) = false
  ∧ lexists (os w_two_reclaimed) (trash_name bar_path) = false
  ∧ lexists (os w_two_reclaimed) (trash_txt_of env_prefix) = false.
Proof. repeat split; vm_compute; reflexivity. Qed.

(** One file, with a line feed in its name, was quarantined by a failed
    removal and can now be removed: the reclaimer reads two lines from the
    index, counts two deletions, and leaves the quarantined file behind. *)
Lemma clean_trash_files_counts_lines :
  remove_or_rename odd_path w_odd = Done 1%N w_odd_renamed
  ∧ w_odd_quarantined = at_time 10 w_odd_renamed
  ∧ read_text (os w_odd_quarantined) (trash_txt_of env_prefix)
    = Some (index_text [to_string (trash_name (of_string ("a" +:+ LF +:+ "b")))])
  ∧ (fs_remove (os w_odd_quarantined) (trash_name odd_path)).1.1 = true
  ∧ clean_trash_files env_prefix false w_odd_quarantined = Done 2%N w_odd_reclaimed
  ∧ lexists (os w_odd_reclaimed) (trash_name odd_path) = true
  ∧ 2%N ≠ N.of_nat (length [odd_path]).
Proof. repeat (split; [vm_compute; reflexivity|]). discriminate. Qed.

(** A directory was quarantined by a failed removal, and nothing in it is
    held any more: [fs::remove] does not remove a directory that has
    entries, so the reclaimer counts nothing and keeps the index as it is. *)
Example clean_trash_files_keeps_directory :
  remove_or_rename tree_path w_tree_held = Done 1%N w_tree_renamed
  ∧ w_tree_quarantined = at_time 10 w_tree_renamed
  ∧ read_text (os w_tree_quarantined) (trash_txt_of env_prefix)
    = Some (index_text [to_string tree_trash])
  ∧ fs_is_directory (os w_tree_quarantined) tree_trash = true
  ∧ (fs_remove_all (os w_tree_quarantined) tree_trash).1 = (3%N, None)
  ∧ (fs_remove (os w_tree_quarantined) tree_trash).1 = (false, Some ENOTEMPTY)
  ∧ clean_trash_files env_prefix false w_tree_quarantined = Done 0%N w_tree_left
  ∧ fs_is_directory (os w_tree_left) tree_trash = true
  ∧ read_text (os w_tree_left) (trash_txt_of env_prefix)
    = Some (index_text [to_string tree_trash]).
Proof. repeat split; vm_compute; reflexivity. Qed.

(** ** The utilities on strings *)

(** [a.b.c] split once from the right at the dots. *)
Lemma rsplit_pieces_example :
  ∃ pieces, rsplit (λ _ _ _, []) (lit "a.b.c") (lit ".") 1 = Some pieces
            ∧ join_with (lit ".") pieces = lit "a.b.c"
            ∧ (1 ≤ length pieces ≤ N.to_nat 1 + 1)%nat.
Proof. apply (rsplit_pieces (λ _ _ _, []) (lit "a.b.c") (lit ".") 1); done. Defined.

(** Two arguments that need quotation marks, one of them with an
    apostrophe, for a shell that is not named. *)
Lemma quote_for_shell_posix_example :
  sh_words (quote_for_shell false [lit "a b"; lit "it's"; lit "plain"] [])
  = Some [lit "a b"; lit "it's"; lit "plain"].
Proof.
  apply (quote_for_shell_posix_round_trip false [lit "a b"; lit "it's"; lit "plain"] []).
  - done.
  - by right.
Defined.

(** Two lines indented by two blanks. *)
Lemma unindent_prepend_example :
  unindent (prepend (lit ("a" +:+ LF +:+ "b")) (lit "  ") (lit "  "))
  = lit ("a" +:+ LF +:+ "b").
Proof.
  apply (unindent_prepend (lit ("a" +:+ LF +:+ "b")) (lit "  ")).
  - repeat constructor; done.
  - intros c [= <-]. reflexivity.
Defined.

(** ** A tree that nothing holds *)

Lemma remove_or_rename_removes_tree_witness :
  files (os w_tree) !! key_of (os w_tree) tree_path = Some (mk_node Directory Free Free)
  ∧ remove_or_rename tree_path w_tree = Done 3%N w_tree_removed.
Proof.
  split; [vm_compute; reflexivity|].
  rewrite (remove_or_rename_removes_tree tree_path w_tree Free Free).
  - vm_compute. reflexivity.
  - vm_compute. reflexivity.
  - reflexivity.
  - apply (bool_decide_unpack
             (map_Forall (λ _ n', blocked (clock (os w_tree)) n' = false)
                (descendants (files (os w_tree)) (key_of (os w_tree) tree_path)))).
    vm_compute. exact I.
Defined.

Lemma remove_or_rename_removes_file_witness :
  files (os w_tree) !! key_of (os w_tree) foo_path = Some (a_file Free Free)
  ∧ remove_or_rename foo_path w_tree
    = Done 1%N (set_os (set_files (delete foo_key (files (os w_tree))) (os w_tree)) w_tree).
Proof.
  split; [vm_compute; reflexivity|].
  apply (remove_or_rename_removes_file foo_path w_tree "" Free Free).
  - vm_compute. reflexivity.
  - reflexivity.
Defined.

Lemma lexists_broken_link_witness :
  files (os w_dangling) !! key_of (os w_dangling) latest
  = Some (mk_node (Symlink ["opt"; "nowhere"]) Free Free)
  ∧ lexists (os w_dangling) latest = true
  ∧ fs_exists (os w_dangling) latest = false.
Proof.
  split; [vm_compute; reflexivity|].
  apply (proj2 (lexists_broken_link (os w_dangling) latest) ["opt"; "nowhere"] Free Free).
  - vm_compute. reflexivity.
  - vm_compute. reflexivity.
Defined.

(** ** Reclaiming while files are held *)

Lemma clean_trash_files_no_index_witness :
  lexists (os w_unlocked) (trash_txt_of env_prefix) = false
  ∧ clean_trash_files env_prefix false w_unlocked = Done 0%N w_unlocked.
Proof.
  split; [vm_compute; reflexivity|].
  apply (clean_trash_files_no_index env_prefix w_unlocked). vm_compute. reflexivity.
Defined.


(** ** Acquiring and releasing *)

(** The handle of [/opt/env] is dropped: its descriptor is closed, its lock
    released, and its lock file, which it created, removed. *)
Lemma LockFileOwner_dtor_releases_witness :
  own_locks (os w_locked) !! env_lock_key = Some 3%Z
  ∧ ∃ o', LockFileOwner_dtor env_owner w_locked = Done () (set_os o' w_locked)
          ∧ fds o' = delete 3%Z (fds (os w_locked))
          ∧ own_locks o' = delete env_lock_key (own_locks (os w_locked))
          ∧ files o' = delete env_lock_key (files (os w_locked)).
Proof.
  split; [vm_compute; reflexivity|].
  destruct (LockFileOwner_dtor_releases env_owner w_locked)
    as (o' & Hdone & Hfds & Hown & Hfiles & _).
  exists o'. split; [exact Hdone|]. split; [exact Hfds|]. split.
  - apply (Hown env_lock_key).
    + reflexivity.
    + vm_compute. reflexivity.
    + left. vm_compute. reflexivity.
  - rewrite Hfiles. vm_compute. reflexivity.
Defined.

Lemma acquire_lock_missing_target_witness :
  fs_exists (os w_unlocked) (absolute (os w_unlocked) nowhere) = false
  ∧ acquire_lock nowhere 5 w_unlocked
    = Done (Unexpected
              (mamba_error ("LockFile acquisition failed, aborting: " +:+
                            "Could not lock non-existing path '/opt/nowhere'")
                           lockfile_failure)) w_unlocked.
Proof.
  split; [vm_compute; reflexivity|].
  apply (acquire_lock_missing_target w_unlocked nowhere 5).
  - reflexivity.
  - vm_compute. reflexivity.
  - vm_compute. reflexivity.
Defined.

Lemma acquire_lock_takes_os_lock_witness :
  acquire_lock env_prefix 5 w_unlocked = Done (Value (Some 0%nat)) w_locked
  ∧ ∃ obj,
      heap w_locked !! 0%nat = Some (obj, 1%nat)
      ∧ obj = env_owner
      ∧ fds (os w_locked) !! m_fd obj = Some env_lock_key
      ∧ own_locks (os w_locked) !! env_lock_key = Some (m_fd obj)
      ∧ is_Some (files (os w_locked) !! env_lock_key)
      ∧ locked_files (registry w_locked) !! env_prefix = Some 0%nat
      ∧ fd_to_locked_path (registry w_locked) !! m_fd obj = Some env_prefix.
Proof.
  split; [vm_compute; reflexivity|].
  apply (acquire_lock_takes_os_lock w_unlocked env_prefix 5 0%nat w_locked).
  - reflexivity.
  - intros a H. vm_compute in H. discriminate H.
  - intros a H. vm_compute in H. discriminate H.
  - vm_compute. reflexivity.
Defined.

Lemma acquire_lock_assertion_holds_witness :
  acquire_lock env_prefix 5 w_unlocked = Done (Value (Some 0%nat)) w_locked
  ∧ ∃ obj, heap w_locked !! 0%nat = Some (obj, 1%nat)
           ∧ LockFile_is_locked (m_fd obj) w_locked = Done true w_locked.
Proof.
  split; [vm_compute; reflexivity|].
  apply (acquire_lock_assertion_holds w_unlocked env_prefix 5 0%nat w_locked).
  - reflexivity.
  - reflexivity.
  - intros a H. vm_compute in H. discriminate H.
  - vm_compute. reflexivity.
Defined.

Lemma acquire_lock_release_round_trip_witness :
  fs_exists (os w_unlocked) env_prefix = true
  ∧ files (os w_unlocked) !! env_lock_key = None
  ∧ ∃ a w1 w2,
      acquire_lock env_prefix 5 w_unlocked = Done (Value (Some a)) w1
      ∧ own_locks (os w1) !! env_lock_key = Some (next_fd (os w_unlocked))
      ∧ is_Some (files (os w1) !! env_lock_key)
      ∧ drop_shared (Some a) w1 = Done () w2
      ∧ files (os w2) = files (os w_unlocked) ∧ fds (os w2) = fds (os w_unlocked)
      ∧ own_locks (os w2) = own_locks (os w_unlocked)
      ∧ clock (os w2) = clock (os w_unlocked)
      ∧ heap w2 = heap w_unlocked
      ∧ is_locked env_prefix w2 = Done false w2.
Proof.
  split; [vm_compute; reflexivity|]. split; [vm_compute; reflexivity|].
  apply (acquire_lock_release_round_trip w_unlocked env_prefix 5).
  - reflexivity.
  - intros a H. vm_compute in H. discriminate H.
  - intros a H. vm_compute in H. discriminate H.
  - vm_compute. reflexivity.
  - vm_compute. reflexivity.
  - vm_compute. reflexivity.
  - vm_compute. reflexivity.
  - vm_compute. reflexivity.
  - reflexivity.
  - vm_compute. reflexivity.
Defined.

(** Another process holds the lock of [/opt/env] for good: after five
    seconds [acquire_lock] has given up. *)
Lemma acquire_lock_gives_up_after_timeout_witness :
  foreign_locks (os (w_contended Posix)) !! env_lock_key = Some Forever
  ∧ ∃ o',
      acquire_lock env_prefix 5 (w_contended Posix)
      = Done (Unexpected
                (mamba_error
                   ("LockFile acquisition failed, aborting: " +:+
                    "LockFile can't be set at '/opt/env'" +:+ LF +:+
                    "This could be fixed by changing the locks' timeout or " +:+
                    "cleaning your environment from previous runs")
                   lockfile_failure))
          (set_os o' (w_contended Posix))
      ∧ clock o' = 5%nat
      ∧ files o' = files (os (w_contended Posix))
      ∧ fds o' = fds (os (w_contended Posix))
      ∧ own_locks o' = delete env_lock_key (own_locks (os (w_contended Posix))).
Proof.
  split; [vm_compute; reflexivity|].
  apply (acquire_lock_gives_up_after_timeout (w_contended Posix) env_prefix 5 "" Free Free).
  - reflexivity.
  - intros a H. vm_compute in H. discriminate H.
  - intros a H. vm_compute in H. discriminate H.
  - reflexivity.
  - vm_compute. reflexivity.
  - vm_compute. reflexivity.
  - vm_compute. reflexivity.
  - reflexivity.
  - reflexivity.
  - vm_compute. reflexivity.
Defined.
